(** * cups-browsed: the remote-printer lifecycle engine

    A shallow embedding of the parts of [utils/cups-browsed.c] that decide
    the behaviour of the printer registry: the name sanitizer
    [remove_bad_chars], the resolver ([generate_local_queue],
    [create_local_queue], the service-removal branch of [browse_callback]),
    the reconciliation pass [handle_cups_queues], the timer recomputation
    [recheck_timer] and the shutdown sequence of [main]; further the
    handling of a CUPS browse packet ([process_browse_data],
    [found_cups_printer], [allowed], [read_browseallow_value]), the polling
    of a server ([browse_poll]), the auto-shutdown machinery (the signal
    handlers, [autoshutdown_execute], the Avahi client callback) and the
    string helpers of the PPD generator ([_cups_strcasecmp], [strlcpy],
    [pwg_ppdize_name], [_pwgInputSlotForSource], [_pwgMediaTypeForType]).

    Conventions.  A C string is a [string] holding the characters before the
    terminator; a [char *] that may be [NULL] is an [option string].  [time_t]
    values are integers in [Z]; [(time_t) -1] is the "no pending action"
    sentinel.  A value handed over as a [guint] or a [uint16_t] is reduced
    modulo the width of the type.  A function takes the clock as it reads
    it as an argument; [recheck_timer] reads the clock for itself, so a
    function that ends with it takes two readings.  Calls into CUPS, Avahi
    and GLib are modelled by what the daemon observes of them. *)

From Stdlib Require Import ZArith Ascii String List Lia Bool.
From stdpp Require Import base tactics option list gmap strings pretty.

Local Open Scope Z_scope.

(** ** C characters and the string functions the daemon uses *)

Module CStr.

Definition NUL : ascii := "000"%char.
Definition dash : ascii := "-"%char.

(** Value of a [char] (signed, as on the platforms the daemon is built for). *)
Definition char_val (c : ascii) : Z :=
  let n := Z.of_N (N_of_ascii c) in if n <? 128 then n else n - 256.

(** Value of the same byte read as [unsigned char]. *)
Definition uchar_val (c : ascii) : Z := Z.of_N (N_of_ascii c).

Definition tolower (c : ascii) : ascii :=
  let n := N_of_ascii c in
  if ((65 <=? n) && (n <=? 90))%N then ascii_of_N (n + 32) else c.

(** The characters a C function sees: everything before the first [NUL]. *)
Fixpoint until_nul (l : list ascii) : list ascii :=
  match l with
  | [] => []
  | c :: l' => if decide (c = NUL) then [] else c :: until_nul l'
  end.

Definition chars (s : string) : list ascii :=
  until_nul (list_ascii_of_string s).

(** [strlen] of a string constant or argument. *)
Definition c_strlen (s : string) : nat := length (chars s).

(** Comparison of two character sequences without regard to letter case:
    the difference of the first pair of characters that differ. *)
Fixpoint casecmp (a b : list ascii) : Z :=
  match a, b with
  | [], [] => 0
  | [], d :: _ => - uchar_val (tolower d)
  | c :: _, [] => uchar_val (tolower c)
  | c :: a', d :: b' =>
      if decide (tolower c = tolower d) then casecmp a' b'
      else uchar_val (tolower c) - uchar_val (tolower d)
  end.

Definition strcasecmp (a b : string) : Z := casecmp (chars a) (chars b).

Definition strncasecmp (a b : string) (n : nat) : Z :=
  casecmp (take n (chars a)) (take n (chars b)).

(** [strcasestr]: the first suffix of [hay] that starts with [needle],
    letter case ignored; [None] is [NULL]. *)
Fixpoint strcasestr (hay needle : string) : option string :=
  if strncasecmp hay needle (c_strlen needle) =? 0 then Some hay
  else match hay with
       | EmptyString => None
       | String c hay' =>
           if decide (c = NUL) then None else strcasestr hay' needle
       end.

(** [strchr] for a character other than the terminator: the suffix starting
    at its first occurrence. *)
Fixpoint strchr (s : string) (c : ascii) : option string :=
  match s with
  | EmptyString => None
  | String d s' =>
      if decide (d = NUL) then None
      else if decide (d = c) then Some s else strchr s' c
  end.

(** [s + n] for a pointer into a string at least [n] long. *)
Fixpoint advance (s : string) (n : nat) : string :=
  match n, s with
  | S n', String _ s' => advance s' n'
  | _, _ => s
  end.

Definition streq (a b : string) : bool := bool_decide (chars a = chars b).

(** [s[0] == '\0'] *)
Definition is_empty (s : string) : bool := bool_decide (chars s = []).
Definition strcaseeq (a b : string) : bool := strcasecmp a b =? 0.

End CStr.

(** ** The sanitizer [remove_bad_chars]

    The function works in place on a heap copy of its argument.  The copy is
    modelled as the block [strdup] returns together with the byte that sits
    immediately below it in memory; every access outside the block is
    recorded. *)

Module Sanitizer.
Import CStr.

Inductive fault : Type :=
| ReadBelow (i : Z)
| WriteBelow (i : Z)
| ReadAbove (i : Z)
| WriteAbove (i : Z).

Record mem : Type := Mem {
  below : ascii;          (* the byte at str[-1] *)
  block : list ascii;     (* str[0 .. size-1] *)
  faults : list fault     (* accesses outside the block, oldest first *)
}.

(** Computations over the buffer; [None] means a loop exceeded the bound
    it is run with. *)
Definition M (A : Type) : Type := mem -> option (A * mem).

#[global] Instance M_ret : MRet M := fun A x m => Some (x, m).
#[global] Instance M_bind : MBind M := fun A B f c m =>
  match c m with
  | Some (x, m') => f x m'
  | None => None
  end.

Definition diverge {A} : M A := fun _ => None.

Definition log (f : fault) (m : mem) : mem :=
  Mem (below m) (block m) (faults m ++ [f]).

(** [str[i]] as an rvalue. *)
Definition load (i : Z) : M ascii := fun m =>
  if i <? 0 then Some (below m, log (ReadBelow i) m)
  else match block m !! Z.to_nat i with
       | Some c => Some (c, m)
       | None => Some (NUL, log (ReadAbove i) m)
       end.

(** [str[i] = c]. *)
Definition store (i : Z) (c : ascii) : M unit := fun m =>
  if i <? 0 then Some (tt, log (WriteBelow i) (Mem c (block m) (faults m)))
  else if i <? Z.of_nat (length (block m))
       then Some (tt, Mem (below m) (<[Z.to_nat i := c]> (block m)) (faults m))
       else Some (tt, log (WriteAbove i) m).

(** [strlen(str)]. *)
Definition strlen : M Z := fun m =>
  let n := Z.of_nat (length (until_nul (block m))) in
  if n <? Z.of_nat (length (block m)) then Some (n, m)
  else Some (n, log (ReadAbove n) m).

(** [memmove(str + dst, str + src, n)]. *)
Definition memmove (dst src n : Z) : M unit := fun m =>
  let b := block m in
  let piece := take (Z.to_nat n) (drop (Z.to_nat src) b) in
  let b' := take (Z.to_nat dst) b ++ piece
            ++ drop (Z.to_nat dst + Z.to_nat n) b in
  if (0 <=? dst) && (0 <=? src) && (src + n <=? Z.of_nat (length b))
  then Some (tt, Mem (below m) b' (faults m))
  else Some (tt, log (ReadAbove (src + n)) m).

(** Size of the allocation, used only to bound the loops. *)
Definition capacity : M nat := fun m => Some (length (block m), m).

Definition strdup (s : string) : list ascii := chars s ++ [NUL].

Definition allowed (mode : Z) (c : ascii) : bool :=
  let v := char_val c in
  ((char_val "A" <=? v) && (v <=? char_val "Z"))
  || ((char_val "a" <=? v) && (v <=? char_val "z"))
  || ((char_val "0" <=? v) && (v <=? char_val "9"))
  || (v =? char_val "_")
  || ((mode =? 1) && ((v =? char_val "/") || (v =? char_val ".")
                      || (v =? char_val ","))).

(** [for (i = 0, j = 0; i < strlen(str); i++, j++) ...] *)
Fixpoint copy_loop (fuel : nat) (mode i j : Z) (havedash : bool) : M Z :=
  n ← strlen;
  if i <? n then
    match fuel with
    | O => diverge
    | S fuel' =>
        c ← load i;
        if allowed mode c then
          (* allowed character, keep it *)
          store j c;;
          copy_loop fuel' mode (i + 1) (j + 1) false
        else if havedash then
          copy_loop fuel' mode (i + 1) (j - 1 + 1) true
        else
          store j dash;;
          copy_loop fuel' mode (i + 1) (j + 1) true
    end
  else mret j.

(** [while (str[strlen(str)-1] == '-') str[strlen(str)-1] = '\0';]
    [strlen] is unsigned, so for the empty string the index wraps and the
    address is the one just below the block: index [-1] here. *)
Fixpoint trailing_loop (fuel : nat) : M unit :=
  n ← strlen;
  c ← load (n - 1);
  if decide (c = dash) then
    match fuel with
    | O => diverge
    | S fuel' =>
        n' ← strlen;
        store (n' - 1) NUL;;
        trailing_loop fuel'
    end
  else mret tt.

(** [i = 0; while (str[i] == '-') ++i;] *)
Fixpoint leading_loop (fuel : nat) (i : Z) : M Z :=
  c ← load i;
  if decide (c = dash) then
    match fuel with
    | O => diverge
    | S fuel' => leading_loop fuel' (i + 1)
    end
  else mret i.

Definition remove_bad_chars_body (mode : Z) : M unit :=
  n ← strlen;
  (* for later str[strlen(str)-1] access *)
  if n <? 1 then mret tt
  else
    size ← capacity;
    j ← copy_loop size mode 0 0 false;
    (* add terminating zero *)
    store j NUL;;
    (* cut off trailing dashes *)
    trailing_loop (size + 2);;
    (* cut off leading dashes *)
    i ← leading_loop size 0;
    n' ← strlen;
    memmove 0 i (n' - i + 1).

(** The string the caller finds at the returned pointer. *)
Definition read_back (m : mem) : string :=
  string_of_list_ascii (until_nul (block m)).

(** [remove_bad_chars(str_orig, mode)], run with [b] as the byte below the
    copy.  Result: the returned string ([None] for [NULL]) and the accesses
    made outside the copy; [None] overall if a loop overran its bound. *)
Definition remove_bad_chars (b : ascii) (str_orig : option string) (mode : Z)
  : option (option string * list fault) :=
  match str_orig with
  | None => Some (None, [])
  | Some s =>
      match remove_bad_chars_body mode (Mem b (strdup s) []) with
      | Some (_, m) => Some (Some (read_back m), faults m)
      | None => None
      end
  end.

(** *** What the sanitizer is meant to compute, in the words of its
    description: keep letters, digits and the underscore (and slash, dot and
    comma for MIME types), turn every maximal run of other characters into
    one dash, drop dashes at both ends. *)

Definition letters : list ascii :=
  list_ascii_of_string
    "ABCDEFGHIJKLMNOPQRSTUVWXYZabcdefghijklmnopqrstuvwxyz".
Definition digits : list ascii := list_ascii_of_string "0123456789".

Definition kept (mode : Z) (c : ascii) : bool :=
  bool_decide (c ∈ letters) || bool_decide (c ∈ digits)
  || bool_decide (c = "_"%char)
  || (bool_decide (mode = 1)
      && bool_decide (c ∈ ["/"%char; "."%char; ","%char])).

Fixpoint collapse (mode : Z) (s : list ascii) : list ascii :=
  match s with
  | [] => []
  | c :: s' =>
      if kept mode c then c :: collapse mode s'
      else match s' with
           | [] => [dash]
           | c' :: _ =>
               if kept mode c' then dash :: collapse mode s'
               else collapse mode s'   (* not the last of its run *)
           end
  end.

Fixpoint strip_leading (s : list ascii) : list ascii :=
  match s with
  | c :: s' => if decide (c = dash) then strip_leading s' else s
  | [] => []
  end.

Definition strip_trailing (s : list ascii) : list ascii :=
  rev (strip_leading (rev s)).

Definition sanitize (mode : Z) (s : string) : string :=
  string_of_list_ascii
    (strip_leading (strip_trailing (collapse mode (chars s)))).

(** *** Auxiliary notions for the analysis of the loops *)

(** The output of the first loop, written as the loop produces it: the dash
    comes with the first character of a run. *)
Fixpoint squeeze (mode : Z) (havedash : bool) (s : list ascii) : list ascii :=
  match s with
  | [] => []
  | c :: s' =>
      if allowed mode c then c :: squeeze mode false s'
      else if havedash then squeeze mode true s'
      else dash :: squeeze mode true s'
  end.

Definition no_nul (l : list ascii) : Prop := Forall (fun c => c <> NUL) l.

(** Number of dashes at the front. *)
Fixpoint dashes (s : list ascii) : nat :=
  match s with
  | c :: s' => if decide (c = dash) then S (dashes s') else 0%nat
  | [] => 0%nat
  end.

(** The accesses below the block made when the string has shrunk to
    nothing, and the byte found there afterwards. *)
Definition underflow (b : ascii) : list fault :=
  if decide (b = dash)
  then [ReadBelow (-1); WriteBelow (-1); ReadBelow (-1)]
  else [ReadBelow (-1)].

Definition below_after (b : ascii) : ascii :=
  if decide (b = dash) then NUL else b.

(** The accesses outside the copy for a given argument: none, except for a
    non-empty string without a single allowed character. *)
Definition stray_accesses (b : ascii) (mode : Z) (s : string) : list fault :=
  match chars s with
  | [] => []
  | cs => if forallb (fun c => negb (allowed mode c)) cs
          then underflow b else []
  end.

Definition copy_post (b : ascii) (f : list fault) (W : list ascii)
    (r : option (Z * mem)) : Prop :=
  match r with
  | Some (j, m) =>
      j = Z.of_nat (length W)
      /\ exists stale', m = Mem b (W ++ stale' ++ [NUL]) f /\ no_nul stale'
  | None => False
  end.

Definition trailing_post (b : ascii) (f : list fault) (W : list ascii)
    (size : nat) (r : option (unit * mem)) : Prop :=
  match r with
  | Some (_, m) =>
      (exists tl, block m = strip_trailing W ++ NUL :: tl)
      /\ length (block m) = size
      /\ (if decide (strip_trailing W = [])
          then below m = below_after b /\ faults m = f ++ underflow b
          else below m = b /\ faults m = f)
  | None => False
  end.

End Sanitizer.

(** ** The printer registry and the daemon's globals *)

Module Registry.
Import CStr Sanitizer.

(** Timeout values in seconds. *)
Definition TIMEOUT_IMMEDIATELY : Z := -1.
Definition TIMEOUT_CONFIRM : Z := 10.
Definition TIMEOUT_RETRY : Z := 10.
Definition TIMEOUT_REMOVE : Z := -1.

(** [(time_t) -1]: no action pending for the entry. *)
Definition NEVER : Z := -1.

Inductive printer_status_t : Type :=
| STATUS_UNCONFIRMED              (* generated in a previous session *)
| STATUS_CONFIRMED                (* Avahi confirms UNCONFIRMED printer *)
| STATUS_TO_BE_CREATED            (* scheduled for creation *)
| STATUS_BROWSE_PACKET_RECEIVED   (* scheduled for creation with timeout *)
| STATUS_DISAPPEARED.             (* scheduled for removal *)

#[global] Instance printer_status_eq_dec : EqDecision printer_status_t.
Proof. solve_decision. Defined.

Record remote_printer_t : Type := RemotePrinter {
  name : string;
  uri : string;
  ppd : option string;
  model : option string;
  ifscript : option string;
  status : printer_status_t;
  timeout : Z;
  duplicate : bool;
  host : string;
  service_name : string;
  type : string;
  domain : string
}.

#[global] Instance remote_printer_eq_dec : EqDecision remote_printer_t.
Proof. solve_decision. Defined.

(** Local printer (key is name). *)
Record local_printer_t : Type := LocalPrinter {
  device_uri : string;
  cups_browsed_controlled : bool
}.

(** Sources attached to the GLib main loop by the daemon. *)
Inductive callback : Type :=
| cb_handle_cups_queues
| cb_autoshutdown_execute
| cb_browse_poll.

#[global] Instance callback_eq_dec : EqDecision callback.
Proof. solve_decision. Defined.

Record source : Type := Source {
  src_id : Z;
  src_delay : Z;        (* seconds *)
  src_callback : callback
}.

(** Requests sent to the local CUPS daemon. *)
Inductive cups_call : Type :=
| Connect
| GetJobs (queue : string)
| GetDefault
| DeletePrinter (p : remote_printer_t)
| AddModifyPrinter (p : remote_printer_t) (file : option string).

(** The local CUPS daemon as the reconciliation pass sees it: the queues it
    holds, how it answers, and the requests received so far. *)
Record spooler : Type := Spooler {
  sp_queues : list string;
  sp_reachable : bool;                       (* http_connect_local () != NULL *)
  sp_active_jobs : string -> Z;              (* cupsGetJobs2, negative on error *)
  sp_default : option string;                (* printer-name of CUPS_GET_DEFAULT *)
  sp_delete_ok : string -> bool;             (* CUPS_DELETE_PRINTER accepted *)
  sp_add_ok : string -> bool;                (* CUPS_ADD_MODIFY_PRINTER accepted *)
  sp_server_ppd : string -> option string;   (* cupsGetServerPPD *)
  sp_calls : list cups_call
}.

Record daemon : Type := Daemon {
  remote_printers : list remote_printer_t;   (* cups_array_t, sorted by name *)
  gmainloop : bool;                          (* gmainloop != NULL *)
  sources : list source;                     (* timeouts pending in GLib *)
  next_source_id : Z;
  queues_timer_id : option Z;                (* None is (guint) -1 *)
  autoshutdown : bool;
  autoshutdown_timeout : Z;
  autoshutdown_exec_id : option Z;           (* None is 0 *)
  CreateIPPPrinterQueues : Z;
  BrowseTimeout : Z;
  cups : spooler
}.

Definition with_printers (rp : list remote_printer_t) (d : daemon) : daemon :=
  Daemon rp (gmainloop d) (sources d) (next_source_id d) (queues_timer_id d)
    (autoshutdown d) (autoshutdown_timeout d) (autoshutdown_exec_id d)
    (CreateIPPPrinterQueues d) (BrowseTimeout d) (cups d).

Definition with_cups (c : spooler) (d : daemon) : daemon :=
  Daemon (remote_printers d) (gmainloop d) (sources d) (next_source_id d)
    (queues_timer_id d) (autoshutdown d) (autoshutdown_timeout d)
    (autoshutdown_exec_id d) (CreateIPPPrinterQueues d) (BrowseTimeout d) c.

Definition with_gmainloop (b : bool) (d : daemon) : daemon :=
  Daemon (remote_printers d) b (sources d) (next_source_id d)
    (queues_timer_id d) (autoshutdown d) (autoshutdown_timeout d)
    (autoshutdown_exec_id d) (CreateIPPPrinterQueues d) (BrowseTimeout d)
    (cups d).

Definition with_queues_timer (id : option Z) (d : daemon) : daemon :=
  Daemon (remote_printers d) (gmainloop d) (sources d) (next_source_id d) id
    (autoshutdown d) (autoshutdown_timeout d) (autoshutdown_exec_id d)
    (CreateIPPPrinterQueues d) (BrowseTimeout d) (cups d).

Definition with_autoshutdown_exec (id : option Z) (d : daemon) : daemon :=
  Daemon (remote_printers d) (gmainloop d) (sources d) (next_source_id d)
    (queues_timer_id d) (autoshutdown d) (autoshutdown_timeout d) id
    (CreateIPPPrinterQueues d) (BrowseTimeout d) (cups d).

(** Conversion of an integer to [guint], an unsigned number of 32 bits. *)
Definition to_guint (n : Z) : Z := n mod 2 ^ 32.

(** [g_timeout_add_seconds (interval, function, data)]: a new source with a
    fresh id.  The interval is a [guint]: the argument is converted. *)
Definition g_timeout_add_seconds (delay : Z) (cb : callback) (d : daemon)
  : Z * daemon :=
  let id := next_source_id d in
  (id,
   Daemon (remote_printers d) (gmainloop d)
     (sources d ++ [Source id (to_guint delay) cb]) (id + 1)
     (queues_timer_id d)
     (autoshutdown d) (autoshutdown_timeout d) (autoshutdown_exec_id d)
     (CreateIPPPrinterQueues d) (BrowseTimeout d) (cups d)).

Definition g_source_remove (id : Z) (d : daemon) : daemon :=
  Daemon (remote_printers d) (gmainloop d)
    (filter (fun s => src_id s <> id) (sources d)) (next_source_id d)
    (queues_timer_id d) (autoshutdown d) (autoshutdown_timeout d)
    (autoshutdown_exec_id d) (CreateIPPPrinterQueues d) (BrowseTimeout d)
    (cups d).

(** Field updates on an entry. *)
Definition set_timeout (t : Z) (p : remote_printer_t) : remote_printer_t :=
  RemotePrinter (name p) (uri p) (ppd p) (model p) (ifscript p) (status p) t
    (duplicate p) (host p) (service_name p) (type p) (domain p).

Definition set_status (s : printer_status_t) (p : remote_printer_t)
  : remote_printer_t :=
  RemotePrinter (name p) (uri p) (ppd p) (model p) (ifscript p) s (timeout p)
    (duplicate p) (host p) (service_name p) (type p) (domain p).

Definition set_duplicate (b : bool) (p : remote_printer_t) : remote_printer_t :=
  RemotePrinter (name p) (uri p) (ppd p) (model p) (ifscript p) (status p)
    (timeout p) b (host p) (service_name p) (type p) (domain p).

Definition set_ppd (f : option string) (p : remote_printer_t) : remote_printer_t :=
  RemotePrinter (name p) (uri p) f (model p) (ifscript p) (status p)
    (timeout p) (duplicate p) (host p) (service_name p) (type p) (domain p).

Definition set_ifscript (f : option string) (p : remote_printer_t)
  : remote_printer_t :=
  RemotePrinter (name p) (uri p) (ppd p) (model p) f (status p)
    (timeout p) (duplicate p) (host p) (service_name p) (type p) (domain p).

(** *** The [cups_array_t] holding the registry

    The array is created with [compare_remote_printers], so it is kept
    sorted by name, letter case ignored; [cupsArrayAdd] places a new element
    after the elements that compare equal to it. *)

Definition compare_remote_printers (a b : remote_printer_t) : Z :=
  strcasecmp (name a) (name b).

Fixpoint cupsArrayAdd (p : remote_printer_t) (a : list remote_printer_t)
  : list remote_printer_t :=
  match a with
  | [] => [p]
  | q :: a' =>
      if compare_remote_printers p q <? 0 then p :: a
      else q :: cupsArrayAdd p a'
  end.

(** Position at which [cupsArrayAdd] puts the element. *)
Fixpoint add_position (p : remote_printer_t) (a : list remote_printer_t) : nat :=
  match a with
  | [] => 0%nat
  | q :: a' =>
      if compare_remote_printers p q <? 0 then 0%nat
      else S (add_position p a')
  end.

(** [for (q = cupsArrayFirst(a); q; q = cupsArrayNext(a)) if (test) break;]
    yields the position of the first element passing the test. *)
Fixpoint first_index (test : remote_printer_t -> bool)
    (a : list remote_printer_t) : option nat :=
  match a with
  | [] => None
  | q :: a' => if test q then Some 0%nat else S <$> first_index test a'
  end.

End Registry.

Import CStr Sanitizer Registry.

(** ** The reconciliation pass [handle_cups_queues] *)

Module Scheduler.

Definition call (c : cups_call) (s : spooler) : spooler :=
  Spooler (sp_queues s) (sp_reachable s) (sp_active_jobs s) (sp_default s)
    (sp_delete_ok s) (sp_add_ok s) (sp_server_ppd s) (sp_calls s ++ [c]).

Definition with_queues (qs : list string) (s : spooler) : spooler :=
  Spooler qs (sp_reachable s) (sp_active_jobs s) (sp_default s)
    (sp_delete_ok s) (sp_add_ok s) (sp_server_ppd s) (sp_calls s).

(** Queue names are compared without regard to letter case by CUPS. *)
Definition drop_queue (n : string) (qs : list string) : list string :=
  filter (fun q => strcaseeq q n = false) qs.

Definition is_default (s : spooler) (p : remote_printer_t) : bool :=
  match sp_default s with
  | Some default_printer_name => strcaseeq default_printer_name (name p)
  | None => false
  end.

(** [case STATUS_DISAPPEARED:] of the switch.  The result is the entry as
    the pass leaves it, [None] once it has been taken out of the array and
    freed. *)
Definition case_disappeared (current_time : Z) (p : remote_printer_t)
    (s : spooler) : option remote_printer_t * spooler :=
  (* only act if the timeout has passed *)
  if timeout p >? current_time then (Some p, s)
  else if negb (duplicate p) then
    (* duplicates do not have a CUPS queue *)
    let s := call Connect s in
    if negb (sp_reachable s) then
      (Some (set_timeout (current_time + TIMEOUT_RETRY) p), s)
    else
      let s := call (GetJobs (name p)) s in
      if negb (sp_active_jobs s (name p) =? 0) then
        (* error or jobs: schedule the removal of the queue for later *)
        (Some (set_timeout (current_time + TIMEOUT_RETRY) p), s)
      else
        let s := call GetDefault s in
        if is_default s p then
          (* system default printer: do not remove it *)
          (Some (set_timeout (current_time + TIMEOUT_RETRY) p), s)
        else
          (* no jobs, not default printer, remove the CUPS queue *)
          let s := call (DeletePrinter p) s in
          if negb (sp_delete_ok s (name p)) then
            (Some (set_timeout (current_time + TIMEOUT_RETRY) p), s)
          else
            (None, with_queues (drop_queue (name p) (sp_queues s)) s)
  else (None, s).

(** [case STATUS_UNCONFIRMED:], which falls through to the case above. *)
Definition case_unconfirmed (current_time : Z) (p : remote_printer_t)
    (s : spooler) : option remote_printer_t * spooler :=
  if timeout p >? current_time then (Some p, s)
  else
    case_disappeared current_time
      (set_timeout (current_time + TIMEOUT_IMMEDIATELY)
         (set_status STATUS_DISAPPEARED p)) s.

(** [case STATUS_TO_BE_CREATED:] and [case STATUS_BROWSE_PACKET_RECEIVED:]. *)
Definition case_to_be_created (browse_timeout current_time : Z)
    (p : remote_printer_t) (s : spooler)
  : option remote_printer_t * spooler :=
  (* do not create a queue for duplicates *)
  if duplicate p then (Some (set_timeout NEVER p), s)
  else if timeout p >? current_time then (Some p, s)
  else
    let s := call Connect s in
    if negb (sp_reachable s) then
      (Some (set_timeout (current_time + TIMEOUT_RETRY) p), s)
    else
      (* PPD from system's CUPS installation *)
      let p1 := match model p with
                | Some m => set_ppd (sp_server_ppd s m) p
                | None => p
                end in
      let '(p2, file) :=
        match ppd p1 with
        | Some f =>
            (match model p1 with Some _ => set_ppd None p1 | None => p1 end,
             Some f)
        | None =>
            match ifscript p1 with
            | Some f => (set_ifscript None p1, Some f)
            | None => (p1, None)          (* raw queue *)
            end
        end in
      let s := call (AddModifyPrinter p1 file) s in
      if negb (sp_add_ok s (name p)) then
        (Some (set_timeout (current_time + TIMEOUT_RETRY) p2), s)
      else
        let s := with_queues (name p :: drop_queue (name p) (sp_queues s)) s in
        if decide (status p = STATUS_BROWSE_PACKET_RECEIVED) then
          (Some (set_timeout (current_time + browse_timeout)
                   (set_status STATUS_DISAPPEARED p2)), s)
        else
          (Some (set_timeout NEVER (set_status STATUS_CONFIRMED p2)), s).

(** The body of the loop: [switch (p->status)]. *)
Definition handle_entry (browse_timeout current_time : Z)
    (p : remote_printer_t) (s : spooler)
  : option remote_printer_t * spooler :=
  match status p with
  | STATUS_UNCONFIRMED => case_unconfirmed current_time p s
  | STATUS_DISAPPEARED => case_disappeared current_time p s
  | STATUS_TO_BE_CREATED | STATUS_BROWSE_PACKET_RECEIVED =>
      case_to_be_created browse_timeout current_time p s
  | STATUS_CONFIRMED => (Some p, s)
  end.

(** If auto shutdown is active and all printers we have set up got removed
    again, schedule the shutdown in [autoshutdown_timeout] seconds.
    [count] is [cupsArrayCount(remote_printers)]. *)
Definition schedule_shutdown (count : nat) (d : daemon) : daemon :=
  if autoshutdown d
     && bool_decide (autoshutdown_exec_id d = None)
     && bool_decide (count = 0%nat)
  then
    let '(id, d') :=
      g_timeout_add_seconds (autoshutdown_timeout d)
        cb_autoshutdown_execute d in
    with_autoshutdown_exec (Some id) d'
  else d.

(** The loop over the array.  [seen] are the entries already visited and
    still in the array, [todo] those not visited yet; [cupsArrayRemove]
    inside the loop takes the current element out and the iteration goes on
    with its successor. *)
Fixpoint queues_loop (current_time : Z) (seen todo : list remote_printer_t)
    (d : daemon) : daemon :=
  match todo with
  | [] => with_printers seen d
  | p :: rest =>
      match handle_entry (BrowseTimeout d) current_time p (cups d) with
      | (Some p', s) =>
          queues_loop current_time (seen ++ [p']) rest (with_cups s d)
      | (None, s) =>
          queues_loop current_time seen rest
            (schedule_shutdown (length seen + length rest) (with_cups s d))
      end
  end.

(** The scan of [recheck_timer] for the nearest timeout; [-1] while none
    has been found. *)
Fixpoint nearest_timeout (now timeout_ : Z) (a : list remote_printer_t) : Z :=
  match a with
  | [] => timeout_
  | p :: rest =>
      if timeout p =? NEVER then nearest_timeout now timeout_ rest
      else if now >? timeout p then 0
      else if (timeout_ =? -1) || (timeout p - now <? timeout_)
           then nearest_timeout now (timeout p - now) rest
           else nearest_timeout now timeout_ rest
  end.

(** [recheck_timer ()]; [now] is its own reading of the clock.  The
    [time_t] found is handed to [g_timeout_add_seconds], which takes a
    [guint]. *)
Definition recheck_timer (now : Z) (d : daemon) : daemon :=
  if negb (gmainloop d) then d
  else
    let timeout_ := nearest_timeout now (-1) (remote_printers d) in
    let d := match queues_timer_id d with
             | Some id => g_source_remove id d
             | None => d
             end in
    if negb (timeout_ =? -1) then
      let '(id, d') := g_timeout_add_seconds timeout_ cb_handle_cups_queues d in
      with_queues_timer (Some id) d'
    else with_queues_timer None d.

(** [handle_cups_queues]: [current_time] is the clock as read at the start
    of the pass, [now] as read by [recheck_timer] at its end, after the
    requests to the spooler. *)
Definition handle_cups_queues (current_time now : Z) (d : daemon) : daemon :=
  recheck_timer now (queues_loop current_time [] (remote_printers d) d).

(** The clean-up at the end of [main], reached with the main loop gone:
    remove all queues which we have set up. *)
Definition force_disappeared (now : Z) (p : remote_printer_t) : remote_printer_t :=
  set_timeout (now + TIMEOUT_IMMEDIATELY) (set_status STATUS_DISAPPEARED p).

Definition main_cleanup (now : Z) (d : daemon) : daemon :=
  let d := with_gmainloop false d in
  handle_cups_queues now now
    (with_printers (map (force_disappeared now) (remote_printers d)) d).

(** The timers of the reconciliation pass that GLib holds. *)
Definition queue_timers (d : daemon) : list source :=
  filter (fun s => src_callback s = cb_handle_cups_queues) (sources d).

End Scheduler.

Import Scheduler.

(** ** The resolver: [create_local_queue], [generate_local_queue] and the
    discovery callbacks *)

Module Resolver.

(** A TXT record as [avahi_string_list_find] and
    [avahi_string_list_get_pair] show it: keys with their values, the value
    missing for an entry without [=]. *)
Definition avahi_txt : Type := list (string * option string).

Fixpoint avahi_string_list_find (l : avahi_txt) (key : string)
  : option (string * option string) :=
  match l with
  | [] => None
  | e :: l' => if strcaseeq (fst e) key then Some e
               else avahi_string_list_find l' key
  end.

(** What happens when [create_local_queue] asks a network printer for its
    attributes and writes the driver files. *)
Record ipp_probe : Type := IppProbe {
  separate_ok : bool;            (* httpSeparateURI gives HTTP_URI_OK *)
  connect_ok : bool;             (* httpConnect succeeds *)
  ppd_file : option string;      (* _ppdCreateFromIPP: name of the PPD *)
  temp_file : option string;     (* cupsTempFd: name of the script file *)
  write_ok : bool                (* the script was written in full *)
}.

Definition known_pdl (pdl : string) : bool :=
  bool_decide (is_Some (strcasestr pdl "application/postscript"))
  || bool_decide (is_Some (strcasestr pdl "application/pdf"))
  || bool_decide (is_Some (strcasestr pdl "image/pwg-raster"))
  || bool_decide (is_Some (strcasestr pdl "application/vnd.hp-PCL"))
  || bool_decide (is_Some (strcasestr pdl "application/vnd.hp-PCLXL")).

(** The test that sends [create_local_queue] to [fail] for a network
    printer whose page description languages are not known. *)
Definition pdl_rejected (pdl : option string) : bool :=
  match pdl with
  | None => true
  | Some s => is_empty s || negb (known_pdl s)
  end.

Definition same_name (n : string) (q : remote_printer_t) : bool :=
  strcaseeq (name q) n.

Definition mark_duplicate (i : nat) (a : list remote_printer_t)
  : list remote_printer_t :=
  match a !! i with
  | Some q => <[i := set_duplicate true q]> a
  | None => a
  end.

(** Adding the entry to the array and, with auto shutdown active, killing
    the shutdown timer. *)
Definition add_entry (p : remote_printer_t) (a : list remote_printer_t)
    (d : daemon) : daemon * option nat :=
  let d := with_printers (cupsArrayAdd p a) d in
  let d :=
    match autoshutdown_exec_id d with
    | Some id =>
        if autoshutdown d
           && (0 <? Z.of_nat (length (remote_printers d)))
        then with_autoshutdown_exec None (g_source_remove id d)
        else d
    | None => d
    end in
  (d, Some (add_position p a)).

(** [create_local_queue].  The result is the new state and the position of
    the new entry, [None] for a [NULL] return.  Memory allocation is taken
    to succeed. *)
Definition create_local_queue (now : Z) (probe : ipp_probe)
    (name_ uri_ host_ info type_ domain_ : string)
    (pdl make_model : option string) (is_cups_queue : bool) (d : daemon)
  : daemon * option nat :=
  (* schedule for immediate creation of the CUPS queue *)
  let p := RemotePrinter name_ uri_ None None None STATUS_TO_BE_CREATED
             (now + TIMEOUT_IMMEDIATELY) false host_ info type_ domain_ in
  let a := remote_printers d in
  if is_cups_queue then
    (* check whether we have an equally named queue already from another
       server *)
    match first_index (same_name name_) a with
    | Some i =>
        match a !! i with
        | Some q =>
            if bool_decide (status q <> STATUS_DISAPPEARED)
               && bool_decide (status q <> STATUS_UNCONFIRMED)
            then add_entry (set_duplicate true p) a d
            else add_entry p (mark_duplicate i a) d
        | None => add_entry p a d
        end
    | None => add_entry p a d
    end
  else if CreateIPPPrinterQueues d =? 0 then (d, None)
  else if pdl_rejected pdl then (d, None)
  else if negb (separate_ok probe) then (d, None)
  else if negb (connect_ok probe) then (d, None)
  else
    match ppd_file probe with
    | None =>
        match temp_file probe with
        | None => (d, None)
        | Some tempfile =>
            if negb (write_ok probe) then (d, None)
            else add_entry (set_ifscript (Some tempfile) p) a d
        end
    | Some buffer => add_entry (set_ppd (Some buffer) p) a d
    end.

(** The table of local queues, as [update_local_printers] leaves it. *)
Definition local_table : Type := gmap string local_printer_t.

Definition local_printer_has_uri (uri_ : string) (t : local_table) : bool :=
  bool_decide (map_Exists (fun _ lp => streq (device_uri lp) uri_ = true) t).

(** A name is taken when a queue of that name exists that is not ours. *)
Definition taken (t : local_table) (n : string) : bool :=
  match t !! n with
  | Some lp => negb (cups_browsed_controlled lp)
  | None => false
  end.

(** The returned string of [remove_bad_chars]; it is the same for every
    byte below the copy ([remove_bad_chars_run] below). *)
Definition cleaned (s : string) (mode : Z) : string :=
  match remove_bad_chars NUL (Some s) mode with
  | Some (Some r, _) => r
  | _ => EmptyString
  end.

Definition truncate (n : nat) (s : string) : string := substring 0 n s.

(** The remote host name: sanitized, with a final [.local] or [.local.]
    cut off. *)
Definition remote_host_of (host_ : string) : string :=
  let remote_host := cleaned host_ 1 in
  let hl := c_strlen remote_host in
  let remote_host :=
    if (6 <? hl)%nat
       && strcaseeq (advance remote_host (hl - 6)) ".local"
    then truncate (hl - 6) remote_host else remote_host in
  if (7 <? hl)%nat
     && strcaseeq (advance remote_host (hl - 7)) ".local."
  then truncate (hl - 7) remote_host else remote_host.

Definition first_char (s : string) : ascii :=
  match s with String c _ => c | EmptyString => NUL end.

Fixpoint last_char (s : string) : ascii :=
  match s with
  | EmptyString => NUL
  | String c EmptyString => c
  | String _ s' => last_char s'
  end.

(** A Bonjour-advertised CUPS queue without a PPD is raw. *)
Definition raw_queue (txt : option avahi_txt) (domain_ : string) : bool :=
  match txt with
  | Some l =>
      match avahi_string_list_find l "product" with
      | Some (key, Some value) =>
          negb (strcaseeq key "product")
          || negb (bool_decide (first_char value = "("%char))
          || negb (bool_decide (last_char value = ")"%char))
      | Some (_, None) => true
      | None => true
      end
  | None => negb (is_empty domain_)
  end.

(** The queue name of a network printer, from the first of the [product],
    [usb_MDL] and [ty] fields that is present. *)
Fixpoint model_name (l : avahi_txt) (fields : list string) : option string :=
  match fields with
  | [] => None
  | f :: fields' =>
      match avahi_string_list_find l f with
      | Some (key, Some value) =>
          if strcaseeq key f && (3 <=? c_strlen value)%nat
          then Some (cleaned value 0)
          else model_name l fields'
      | _ => model_name l fields'
      end
  end.

Definition pdl_of (l : avahi_txt) : option string :=
  match avahi_string_list_find l "pdl" with
  | Some (key, Some value) =>
      if strcaseeq key "pdl" && (3 <=? c_strlen value)%nat
      then Some (cleaned value 1) else None
  | _ => None
  end.

(** What the first part of [generate_local_queue] works out about the
    announced printer: [None] when a raw CUPS queue is ignored. *)
Record candidate : Type := Candidate {
  is_cups_queue : bool;
  remote_queue : string;
  pdl : option string
}.

Definition classify (resource : string) (domain_ : string)
    (txt : option avahi_txt) : option candidate :=
  if strncasecmp resource "printers/" 9 =? 0 then
    if raw_queue txt domain_ then None
    else Some (Candidate true (cleaned (advance resource 9) 0) None)
  else if strncasecmp resource "classes/" 8 =? 0 then
    Some (Candidate true (cleaned (advance resource 8) 0) None)
  else
    (* an IPP-based network printer *)
    match txt with
    | Some l =>
        Some (Candidate false
                (default "printer" (model_name l ["product"; "usb_MDL"; "ty"]))
                (pdl_of l))
    | None => Some (Candidate false "printer" None)
    end.

(** The name for the local queue: the remote queue name or, when a queue
    of that name exists that is not ours, [name@host]; [None] when that is
    taken as well.  Names are only checked when no local queue has the URI
    of the remote printer ([create]). *)
Definition local_queue_name_for (local_printers : local_table)
    (create : bool) (c : candidate) (remote_host : string) : option string :=
  let backup_queue_name :=
    (remote_queue c +:+ "@" +:+ remote_host)%string in
  if create && taken local_printers (remote_queue c) then
    if taken local_printers backup_queue_name then None
    else Some backup_queue_name
  else Some (remote_queue c).

(** The test of the loop that looks for an entry made for the discovered
    printer. *)
Definition matches (local_queue_name remote_host : string)
    (p : remote_printer_t) : bool :=
  strcaseeq (name p) local_queue_name
  && (is_empty (host p)
      || bool_decide (status p = STATUS_UNCONFIRMED)
      || bool_decide (status p = STATUS_DISAPPEARED)
      || strcaseeq (host p) remote_host).

Definition ipps_upgrade (type_ : string) (p : remote_printer_t) : bool :=
  bool_decide (is_Some (strcasestr type_ "_ipps"))
  && (strncasecmp (uri p) "ipp:" 4 =? 0).

(** [strcasecmp(strchr(p->uri, ':'), strchr(uri, ':'))] as a truth value;
    [None] when one of the two has no colon and [strcasecmp] is handed
    [NULL]. *)
Definition uri_changed (old new : string) : option bool :=
  match strchr old ":", strchr new ":" with
  | Some x, Some y => Some (negb (strcaseeq x y))
  | _, _ => None
  end.

Definition backfill (field value : string) : string :=
  if is_empty field then value else field.

(** The branch of [generate_local_queue] for an entry that exists already.
    All callers pass a service name, type and domain, so the tests of these
    pointers against [NULL] are left out. *)
Definition update_entry (now : Z) (uri_ remote_host name_ type_ domain_ : string)
    (p : remote_printer_t) : option remote_printer_t :=
  changed ← uri_changed (uri p) uri_;
  let p :=
    if ipps_upgrade type_ p || changed then
      (* schedule local queue for upgrade to ipps: or for URI change *)
      RemotePrinter (name p) uri_ (ppd p) (model p) (ifscript p)
        STATUS_TO_BE_CREATED (now + TIMEOUT_IMMEDIATELY) (duplicate p)
        remote_host name_ type_ domain_
    else if bool_decide (status p = STATUS_UNCONFIRMED)
            || bool_decide (status p = STATUS_DISAPPEARED)
    then set_timeout NEVER (set_status STATUS_CONFIRMED p)
    else p in
  Some (RemotePrinter (name p) (uri p) (ppd p) (model p) (ifscript p)
          (status p) (timeout p) (duplicate p)
          (backfill (host p) remote_host)
          (backfill (service_name p) name_)
          (backfill (type p) type_)
          (backfill (domain p) domain_)).

Section WithURIs.

(** [httpAssembleURIf(HTTP_URI_CODING_ALL, uri, ..., scheme, NULL, host,
    port, "/%s", resource)] of the CUPS library: scheme, host, port and
    resource to the assembled URI. *)
Variable httpAssembleURIf : string -> string -> Z -> string -> string.

Definition device_uri_for (host_ : string) (port : Z)
    (resource type_ : string) : string :=
  httpAssembleURIf
    (if bool_decide (is_Some (strcasestr type_ "_ipps")) then "ipps" else "ipp")
    host_ port resource.

(** [generate_local_queue].  The outer [None] stands for the crash in
    [strcasecmp] on a URI without colon; otherwise the new state with the
    position of the returned entry, [None] for [NULL].  [port] is a
    [uint16_t].

    Before it looks at the local queues the function calls
    [update_local_printers ()], which asks the local CUPS daemon for them
    (connection, subscription or notifications, [cupsGetDests]).  That
    exchange is outside this model: [local_printers] is the table the call
    leaves, and its requests are not among [sp_calls], which records the
    requests of the reconciliation pass only. *)
Definition generate_local_queue (now : Z) (local_printers : local_table)
    (probe : ipp_probe) (host_ : string) (port : Z)
    (resource name_ type_ domain_ : string) (txt : option avahi_txt)
    (d : daemon) : option (daemon * option nat) :=
  let uri_ := device_uri_for host_ port resource type_ in
  let remote_host := remote_host_of host_ in
  match classify resource domain_ txt with
  | None => Some (d, None)   (* the remote CUPS queue is raw, ignore it *)
  | Some c =>
      (* is there a local queue with the same URI as the remote queue? *)
      let create := negb (local_printer_has_uri uri_ local_printers) in
      match local_queue_name_for local_printers create c remote_host with
      | None => Some (d, None)   (* both names taken, printer ignored *)
      | Some local_queue_name =>
          (* check if we have already created a queue for the discovered
             printer *)
          let found :=
            first_index (matches local_queue_name remote_host)
              (remote_printers d) in
          if negb create then Some (d, found)
          else
            match found with
            | Some i =>
                match remote_printers d !! i with
                | Some p =>
                    p' ← update_entry now uri_ remote_host name_ type_
                           domain_ p;
                    Some (with_printers (<[i := p']> (remote_printers d)) d,
                          Some i)
                | None => Some (d, None)
                end
            | None =>
                (* we need to create a local queue pointing to the
                   discovered printer *)
                Some (create_local_queue now probe local_queue_name uri_
                        remote_host name_ type_ domain_ (pdl c)
                        (Some (remote_queue c)) (is_cups_queue c) d)
            end
      end
  end.

(** [avahi_string_list_get_pair] on the entry found for [key], and the
    pair made up when there is none. *)
Definition txt_pair (txt : avahi_txt) (key : string) (missing : string)
  : string * option string :=
  match avahi_string_list_find txt key with
  | Some (k, v) => (k, v)
  | None => (key, Some missing)
  end.

(** [case AVAHI_RESOLVER_FOUND:] of [resolve_callback], with the call of
    [recheck_timer] at the end of the callback; [later] is the clock as
    [recheck_timer] reads it. *)
Definition resolve_callback_found (now later : Z)
    (local_printers : local_table)
    (probe : ipp_probe) (name_ type_ domain_ host_name : string)
    (port : Z) (txt : avahi_txt) (d : daemon) : option daemon :=
  let '(rp_key, rp_value) := txt_pair txt "rp" EmptyString in
  let '(adminurl_key, adminurl_value) :=
    txt_pair txt "adminurl" ("http://" +:+ host_name)%string in
  match rp_value, adminurl_value with
  | Some rp, Some _ =>
      if strcaseeq rp_key "rp" && strcaseeq adminurl_key "adminurl" then
        (* check remote printer type and create appropriate local queue to
           point to it *)
        '(d', _) ← generate_local_queue now local_printers probe host_name
                     port rp name_ type_ domain_ (Some txt) d;
        Some (recheck_timer later d')
      else Some (recheck_timer later d)
  | _, _ => Some (recheck_timer later d)
  end.

(** Conversion of an integer to [uint16_t]. *)
Definition to_uint16 (n : Z) : Z := n mod 2 ^ 16.

(** [found_cups_printer], from the point where the URI of the browse
    packet has been split and accepted.  [port] is the [int] that
    [httpSeparateURI] has stored; [generate_local_queue] takes it as a
    [uint16_t]. *)
Definition found_cups_printer (now : Z) (local_printers : local_table)
    (probe : ipp_probe) (host_ : string) (port : Z)
    (local_resource info : string) (d : daemon) : option daemon :=
  '(d', printer) ← generate_local_queue now local_printers probe host_
                     (to_uint16 port) local_resource info "" "" None d;
  match printer with
  | Some i =>
      match remote_printers d' !! i with
      | Some p =>
          let p' :=
            if bool_decide (status p = STATUS_TO_BE_CREATED)
            then set_status STATUS_BROWSE_PACKET_RECEIVED p
            else set_timeout (now + BrowseTimeout d')
                   (set_status STATUS_DISAPPEARED p) in
          Some (with_printers (<[i := p']> (remote_printers d')) d')
      | None => Some d'
      end
  | None => Some d'
  end.

End WithURIs.

(** [find_previous_queue]: an entry for a queue of ours left over from an
    earlier session. *)
Definition find_previous_queue (now : Z) (browse_cups : bool)
    (key : string) (printer : local_printer_t) (d : daemon) : daemon :=
  if cups_browsed_controlled printer then
    match create_local_queue now (IppProbe false false None None false)
            key (device_uri printer) "" "" "" "" None None true d with
    | (d', Some i) =>
        match remote_printers d' !! i with
        | Some p =>
            let t := if browse_cups then now + BrowseTimeout d'
                     else now + TIMEOUT_CONFIRM in
            with_printers
              (<[i := set_duplicate false
                        (set_timeout t (set_status STATUS_UNCONFIRMED p))]>
                 (remote_printers d')) d'
        | None => d'
        end
    | (d', None) => d'
    end
  else d.

(** [case AVAHI_BROWSER_REMOVE:] of [browse_callback]; [later] is the clock
    as [recheck_timer] reads it at the end. *)

Definition same_service (name_ type_ domain_ : string) (p : remote_printer_t)
  : bool :=
  strcaseeq (service_name p) name_ && strcaseeq (type p) type_
  && strcaseeq (domain p) domain_.

Definition backup_of (p q : remote_printer_t) : bool :=
  strcaseeq (name q) (name p) && negb (strcaseeq (host q) (host p))
  && duplicate q.

(** [if (p->f) free (p->f); ... if (q->f) p->f = strdup(q->f);]  When the
    duplicate has no such file the pointer in [p] is left as it is, still
    holding the address of the string just freed; it is shown here with
    the string it pointed to. *)
Definition replace_file (old new : option string) : option string :=
  match new with
  | Some f => Some f
  | None => old
  end.

Definition take_over (now : Z) (p q : remote_printer_t) : remote_printer_t :=
  RemotePrinter (name p) (uri q)
    (replace_file (ppd p) (ppd q))
    (replace_file (model p) (model q))
    (replace_file (ifscript p) (ifscript q))
    STATUS_TO_BE_CREATED (now + TIMEOUT_IMMEDIATELY) (duplicate p)
    (host q) (service_name q) (type q) (domain q).

Definition browse_callback_remove (now later : Z) (local_event : bool)
    (name_ type_ domain_ : string) (d : daemon) : daemon :=
  (* ignore events from the local machine *)
  if local_event then d
  else
    let a := remote_printers d in
    match first_index (same_service name_ type_ domain_) a with
    | Some i =>
        match a !! i with
        | Some p =>
            (* check whether this queue has a duplicate from another
               server *)
            let backup :=
              if duplicate p then None
              else
                j ← first_index (backup_of p) a;
                q ← a !! j;
                Some (j, q) in
            let a' :=
              match backup with
              | Some (j, q) =>
                  <[j := set_timeout (now + TIMEOUT_IMMEDIATELY)
                           (set_status STATUS_DISAPPEARED q)]>
                    (<[i := take_over now p q]> a)
              | None =>
                  (* schedule CUPS queue for removal *)
                  <[i := set_timeout (now + TIMEOUT_REMOVE)
                           (set_status STATUS_DISAPPEARED p)]> a
              end in
            recheck_timer later (with_printers a' d)
        | None => d
        end
    | None => d
    end.

End Resolver.

Import Resolver.

(** ** Notions used to state the properties *)

Module NameProps.

(** A name with the letter case folded away. *)
Definition folded (s : string) : list ascii := map tolower (chars s).

(** Entries that provide the queue [n] themselves. *)
Definition primary_for (n : string) (p : remote_printer_t) : Prop :=
  strcaseeq (name p) n = true /\ duplicate p = false.

#[global] Instance primary_for_dec n p : Decision (primary_for n p).
Proof. unfold primary_for. apply _. Defined.

Definition primaries (n : string) (a : list remote_printer_t)
  : list remote_printer_t := filter (primary_for n) a.

(** At most one entry per queue name is not a duplicate. *)
Definition unique (a : list remote_printer_t) : Prop :=
  forall n, (length (primaries n a) <= 1)%nat.

Definition cups_originated (resource : string) : bool :=
  (strncasecmp resource "printers/" 9 =? 0)
  || (strncasecmp resource "classes/" 8 =? 0).

End NameProps.

Module Properties.

(** Entries with an action pending, and how long until it is due. *)
Definition pending (a : list remote_printer_t) : list remote_printer_t :=
  filter (fun p => timeout p <> NEVER) a.

Definition delay (now : Z) (p : remote_printer_t) : Z :=
  Z.max 0 (timeout p - now).

Definition least_delay (now : Z) (a : list remote_printer_t) (m : Z) : Prop :=
  (exists p, p ∈ pending a /\ m = delay now p)
  /\ (forall p, p ∈ pending a -> m <= delay now p).

(** Every timer of the pass that GLib holds is the one the daemon remembers. *)
Definition timers_tracked (d : daemon) : Prop :=
  forall s, s ∈ queue_timers d -> queues_timer_id d = Some (src_id s).

(** What [recheck_timer] is to establish for the registry [a]: the delay
    of the timer is the least delay as an unsigned number of 32 bits. *)
Definition timer_armed_for (now : Z) (a : list remote_printer_t) (d : daemon)
  : Prop :=
  match pending a with
  | [] => queue_timers d = [] /\ queues_timer_id d = None
  | _ =>
      exists id m,
        queue_timers d = [Source id (m mod 2 ^ 32) cb_handle_cups_queues]
        /\ queues_timer_id d = Some id
        /\ least_delay now a m
  end.




End Properties.

Module PassProps.

(** The spooler is ready to give the queue of [p] up. *)
Definition removable (s : spooler) (p : remote_printer_t) : Prop :=
  duplicate p = false /\ sp_reachable s = true
  /\ sp_active_jobs s (name p) = 0 /\ is_default s p = false
  /\ sp_delete_ok s (name p) = true.

Definition same_answers (s s' : spooler) : Prop :=
  sp_reachable s' = sp_reachable s
  /\ sp_active_jobs s' = sp_active_jobs s
  /\ sp_default s' = sp_default s
  /\ sp_delete_ok s' = sp_delete_ok s.

(** An entry the pass has to act on when it is in state [Disappeared]. *)
Definition due (now : Z) (p : remote_printer_t) : Prop :=
  status p = STATUS_DISAPPEARED /\ timeout p <= now.

(** [p'] is [p] but for its deadline. *)
Definition same_but_deadline (p p' : remote_printer_t) : Prop :=
  name p' = name p /\ uri p' = uri p /\ ppd p' = ppd p
  /\ model p' = model p /\ ifscript p' = ifscript p
  /\ status p' = status p /\ duplicate p' = duplicate p
  /\ host p' = host p /\ service_name p' = service_name p
  /\ type p' = type p /\ domain p' = domain p.

(** [p'] is [p] with its deadline moved to [t]. *)
Definition rescheduled (t : Z) (p p' : remote_printer_t) : Prop :=
  timeout p' = t /\ same_but_deadline p p'.

Definition no_delete (calls : list cups_call) : Prop :=
  forall q, DeletePrinter q ∉ calls.

Definition only_primaries (calls : list cups_call) : Prop :=
  forall q file, AddModifyPrinter q file ∈ calls -> duplicate q = false.

End PassProps.

Module AnnounceProps.
(** The entry was waiting to be confirmed or had been given up. *)
Definition lapsed (p : remote_printer_t) : bool :=
  bool_decide (status p = STATUS_UNCONFIRMED)
  || bool_decide (status p = STATUS_DISAPPEARED).
End AnnounceProps.

Import NameProps Properties PassProps AnnounceProps.

(** ** Concrete states and events *)

Module Scenario.

(** A URI assembler for hosts and resources that need no escaping. *)
Definition plain_uri (scheme host_ : string) (port : Z) (resource : string)
  : string :=
  (scheme +:+ "://" +:+ host_ +:+ ":" +:+ pretty port +:+ "/" +:+ resource)%string.

(** A spooler that is reachable and accepts every request. *)
Definition idle_spooler (queues : list string) : spooler :=
  Spooler queues true (fun _ => 0) None (fun _ => true) (fun _ => true)
    (fun _ => None) [].

(** The same spooler with one active job on every queue. *)
Definition busy_spooler (queues : list string) : spooler :=
  Spooler queues true (fun _ => 1) None (fun _ => true) (fun _ => true)
    (fun _ => None) [].

(** The daemon with the main loop running, nothing discovered yet. *)
Definition started (driverless : Z) (s : spooler) : daemon :=
  Daemon [] true [] 1 None false 30 None driverless 300 s.

Definition no_probe : ipp_probe := IppProbe false false None None false.
Definition ppd_probe : ipp_probe :=
  IppProbe true true (Some "/tmp/0001.ppd") None false.

Definition state_of (r : option (daemon * option nat)) (d : daemon) : daemon :=
  match r with Some (d', _) => d' | None => d end.

(** The CUPS queue [Office], shared by the servers [srv] and [srv2]. *)
Definition office_txt : avahi_txt := [("product", Some "(HP LaserJet 400)")].
Definition office_uri : string := "ipp://srv.local:631/printers/Office".

Definition announce_office (host_ name_ : string) (t : local_table)
    (d : daemon) : option (daemon * option nat) :=
  generate_local_queue plain_uri 100 t no_probe host_ 631 "printers/Office"
    name_ "_ipp._tcp" "local" (Some office_txt) d.

Definition with_office : daemon :=
  state_of (announce_office "srv.local" "Office @ srv" ∅
              (started 0 (idle_spooler []))) (started 0 (idle_spooler [])).

Definition office_table : local_table :=
  {[ "Office" := LocalPrinter office_uri true ]}.

(** [Office] has been provisioned; the spooler holds the queue. *)
Definition office_confirmed (s : spooler) : daemon :=
  handle_cups_queues 100 100
    (state_of (announce_office "srv.local" "Office @ srv" ∅ (started 0 s))
       (started 0 s)).

(** The daemon restarted: [Office] is a queue of the previous session. *)
Definition office_restarted : daemon :=
  find_previous_queue 100 false "Office" (LocalPrinter office_uri true)
    (started 0 (idle_spooler ["Office"])).

(** Two network printers of the same model. *)
Definition laser_txt : avahi_txt :=
  [("ty", Some "HP LaserJet 400"); ("pdl", Some "application/pdf,image/urf")].

Definition announce_laser (host_ name_ : string) (txt : option avahi_txt)
    (t : local_table) (d : daemon) : option (daemon * option nat) :=
  generate_local_queue plain_uri 100 t ppd_probe host_ 631 "ipp/print"
    name_ "_ipp._tcp" "local" txt d.

Definition one_laser : daemon :=
  state_of (announce_laser "hosta.local" "Laser @ hosta" (Some laser_txt) ∅
              (started 1 (idle_spooler [])))
    (started 1 (idle_spooler [])).

Definition two_lasers : daemon :=
  state_of (announce_laser "hostb.local" "Laser @ hostb" (Some laser_txt) ∅
              one_laser) one_laser.

(** The laser printer provisioned, then a CUPS server sharing a queue of
    the same name. *)
Definition laser_table : local_table :=
  {[ "HP-LaserJet-400" :=
       LocalPrinter "ipp://hosta.local:631/ipp/print" true ]}.

Definition laser_and_backup : daemon :=
  let d := handle_cups_queues 100 100 one_laser in
  state_of
    (generate_local_queue plain_uri 150 laser_table no_probe "srvb.local" 631
       "printers/HP-LaserJet-400" "Laser @ srvb" "_ipp._tcp" "local"
       (Some office_txt) d) d.

(** A queue [printer] of the previous session, driverless set-up now
    switched off. *)
Definition printer_table : local_table :=
  {[ "printer" := LocalPrinter "ipp://hosta.local:631/ipp/print" true ]}.

Definition printer_restarted : daemon :=
  find_previous_queue 100 false "printer"
    (LocalPrinter "ipp://hosta.local:631/ipp/print" true)
    (started 0 (idle_spooler ["printer"])).

End Scenario.

Import Scenario.

(** ** More of the C library *)

Module CStrMore.

(** [c = strchr (s, ch); if (c) *c = '\0';]: the string up to the first
    [ch]. *)
Fixpoint cut_at (ch : ascii) (s : string) : string :=
  match s with
  | EmptyString => EmptyString
  | String c s' =>
      if decide (c = NUL) then EmptyString
      else if decide (c = ch) then EmptyString
      else String c (cut_at ch s')
  end.

End CStrMore.

Import CStrMore.

(** ** Notions used to state further properties of the sanitizer *)

Module SanitizerProps.

(** No two dashes next to each other. *)
Definition no_dash_pair (l : list ascii) : Prop :=
  forall i, l !! i = Some dash -> l !! S i <> Some dash.

(** The characters of a sanitized name: allowed ones, and single dashes
    between them. *)
Definition well_formed (mode : Z) (l : list ascii) : Prop :=
  Forall (fun c => allowed mode c = true \/ c = dash) l
  /\ head l <> Some dash
  /\ last l <> Some dash
  /\ no_dash_pair l.

(** The accesses the sanitizer may make below its copy. *)
Definition below_only (accesses : list fault) : Prop :=
  Forall (fun f => f = ReadBelow (-1) \/ f = WriteBelow (-1)) accesses.

End SanitizerProps.

Import SanitizerProps.

(** ** Notions used to state further properties of the pass *)

Module QueueProps.

(** An entry the pass has nothing to do for at time [now]. *)
Definition idle (now : Z) (p : remote_printer_t) : Prop :=
  status p = STATUS_CONFIRMED
  \/ (now < timeout p
      /\ (duplicate p = false
          \/ status p = STATUS_UNCONFIRMED
          \/ status p = STATUS_DISAPPEARED)).

(** An entry waiting for its queue to be set up. *)
Definition to_create (p : remote_printer_t) : Prop :=
  status p = STATUS_TO_BE_CREATED \/ status p = STATUS_BROWSE_PACKET_RECEIVED.

End QueueProps.

Import QueueProps.

(** ** Auto shutdown: the signal handlers, the Avahi client callback and
    the timeout handler [autoshutdown_execute]

    A signal is taken to arrive between two callbacks of the main loop. *)

Module AutoShutdown.

Definition with_autoshutdown (b : bool) (d : daemon) : daemon :=
  Daemon (remote_printers d) (gmainloop d) (sources d) (next_source_id d)
    (queues_timer_id d) b (autoshutdown_timeout d) (autoshutdown_exec_id d)
    (CreateIPPPrinterQueues d) (BrowseTimeout d) (cups d).

(** [autoshutdown_execute]: are we still in auto shutdown mode and are we
    still without queues?  The result tells whether [g_main_loop_quit] is
    called; the handler itself returns [FALSE], it is needed only once. *)
Definition autoshutdown_execute (d : daemon) : bool :=
  autoshutdown d && (length (remote_printers d) =? 0)%nat.

(** [sigusr1_handler]: switch to permanent mode. *)
Definition sigusr1_handler (d : daemon) : daemon :=
  (* turn off auto shutdown mode *)
  let d := with_autoshutdown false d in
  (* if there is still an active auto shutdown timer, kill it *)
  match autoshutdown_exec_id d with
  | Some id => with_autoshutdown_exec None (g_source_remove id d)
  | None => d
  end.

(** [sigusr2_handler]: switch to auto shutdown mode. *)
Definition sigusr2_handler (d : daemon) : daemon :=
  (* turn on auto shutdown mode *)
  let d := with_autoshutdown true d in
  (* if there are no printers schedule the shutdown in autoshutdown_timeout
     seconds *)
  if bool_decide (autoshutdown_exec_id d = None)
     && (length (remote_printers d) =? 0)%nat
  then
    let '(id, d') :=
      g_timeout_add_seconds (autoshutdown_timeout d)
        cb_autoshutdown_execute d in
    with_autoshutdown_exec (Some id) d'
  else d.

(** [avahi_browser_shutdown]: remove all queues which we have set up based
    on Bonjour discovery, then switch on auto shutdown mode if it is
    controlled by Avahi ([autoshutdown_avahi]). *)
Definition avahi_browser_shutdown (now : Z) (autoshutdown_avahi : bool)
    (d : daemon) : daemon :=
  let d :=
    with_printers
      (map (fun p => if negb (is_empty (type p))
                     then force_disappeared now p else p)
         (remote_printers d)) d in
  let d := handle_cups_queues now now d in
  if autoshutdown_avahi then
    let d := with_autoshutdown true d in
    if bool_decide (autoshutdown_exec_id d = None)
       && (length (remote_printers d) =? 0)%nat
    then
      let '(id, d') :=
        g_timeout_add_seconds (autoshutdown_timeout d)
          cb_autoshutdown_execute d in
      with_autoshutdown_exec (Some id) d'
    else d
  else d.

(** [avahi_shutdown], as far as the registry is concerned. *)
Definition avahi_shutdown (now : Z) (autoshutdown_avahi : bool) (d : daemon)
  : daemon :=
  avahi_browser_shutdown now autoshutdown_avahi d.

Inductive AvahiClientState : Type :=
| AVAHI_CLIENT_S_REGISTERING
| AVAHI_CLIENT_S_RUNNING
| AVAHI_CLIENT_S_COLLISION
| AVAHI_CLIENT_FAILURE
| AVAHI_CLIENT_CONNECTING.

(** [client_callback].  [disconnected] says that the error of the client is
    [AVAHI_ERR_DISCONNECTED], [renewed] that [avahi_client_new] gives a new
    client.  The second component of the result tells whether
    [g_main_loop_quit] is called. *)
Definition client_callback (now : Z) (autoshutdown_avahi : bool)
    (state : AvahiClientState) (disconnected renewed : bool) (d : daemon)
  : daemon * bool :=
  match state with
  | AVAHI_CLIENT_S_REGISTERING | AVAHI_CLIENT_S_RUNNING
  | AVAHI_CLIENT_S_COLLISION =>
      (* avahi-daemon available: switch off auto shutdown mode *)
      if autoshutdown_avahi then
        let d := with_autoshutdown false d in
        match autoshutdown_exec_id d with
        | Some id => (with_autoshutdown_exec None (g_source_remove id d), false)
        | None => (d, false)
        end
      else (d, false)
  | AVAHI_CLIENT_FAILURE =>
      if disconnected then
        let d := avahi_browser_shutdown now autoshutdown_avahi d in
        (* renewing client *)
        if renewed then (d, false)
        else (avahi_shutdown now autoshutdown_avahi d, false)
      else (d, true)
  | AVAHI_CLIENT_CONNECTING => (d, false)
  end.

(** The last steps of [main] before [g_main_loop_run]: the main loop is
    created, the timer of the pass is set, and if auto shutdown is active
    and we do not find any printers initially the shutdown is scheduled. *)
Definition main_enter_loop (now : Z) (d : daemon) : daemon :=
  let d := recheck_timer now (with_gmainloop true d) in
  if autoshutdown d
     && bool_decide (autoshutdown_exec_id d = None)
     && (length (remote_printers d) =? 0)%nat
  then
    let '(id, d') :=
      g_timeout_add_seconds (autoshutdown_timeout d)
        cb_autoshutdown_execute d in
    with_autoshutdown_exec (Some id) d'
  else d.

(** The shutdown timer is on record exactly while the daemon is in auto
    shutdown mode and maintains no printer. *)
Definition shutdown_timer_tracks (d : daemon) : Prop :=
  autoshutdown_exec_id d <> None
  <-> autoshutdown d = true /\ remote_printers d = [].

End AutoShutdown.

Import AutoShutdown.

(** ** A CUPS browse packet: [found_cups_printer] as a whole *)

Module BrowsePacket.

Section WithURIs.

Variable httpAssembleURIf : string -> string -> Z -> string -> string.

(** [found_cups_printer (remote_host, uri, info)], with [host_], [port] and
    [resource] as [httpSeparateURI] has split them off the URI of the
    packet, and [netifs] the addresses of the network interfaces of this
    machine. *)
Definition found_cups_printer (now : Z) (netifs : list string)
    (local_printers : local_table) (probe : ipp_probe) (host_ : string)
    (port : Z) (resource : string) (info : option string) (d : daemon)
  : option daemon :=
  (* check this isn't one of our own broadcasts *)
  if existsb (fun address => strcaseeq host_ address) netifs then Some d
  else if negb (strncasecmp resource "/printers/" 10 =? 0)
          && negb (strncasecmp resource "/classes/" 9 =? 0)
  then Some d   (* don't understand URI *)
  else
    let local_resource := cut_at "?" (advance resource 1) in
    Resolver.found_cups_printer httpAssembleURIf now local_printers probe
      host_ port local_resource (default EmptyString info) d.

End WithURIs.

End BrowsePacket.

(** ** Notions used to state further properties of the discovery *)

Module DiscoveryProps.

(** The entry a browse packet has touched expires unless it is renewed. *)
Definition leased (until : Z) (p : remote_printer_t) : Prop :=
  status p = STATUS_BROWSE_PACKET_RECEIVED
  \/ (status p = STATUS_DISAPPEARED /\ timeout p = until).

End DiscoveryProps.

Import DiscoveryProps.

(** ** [BrowseAllow]: which senders of browse packets are listened to

    An IPv4 address ([s_addr]) is given by the number its four bytes form
    in network byte order; the tests of the code combine and compare
    addresses with [&] and [==], byte by byte, so they read the same on
    these numbers.  An IPv6 address is given by its sixteen bytes. *)

Module BrowseAllow.

Inductive allow_type_t : Type := ALLOW_IP | ALLOW_NET | ALLOW_INVALID.

Record allow_t : Type := Allow {
  allow_type : allow_type_t;
  addr_ipv4 : Z;            (* addr.ipv4.sin_addr.s_addr *)
  addr_ipv6 : list Z;       (* addr.ipv6.sin6_addr.s6_addr *)
  mask_ipv4 : Z;            (* mask.ipv4.sin_addr.s_addr *)
  mask_ipv6 : list Z        (* mask.ipv6.sin6_addr.s6_addr *)
}.

(** The sender of a packet, by [sa_family]. *)
Inductive sockaddr : Type :=
| AF_INET (s_addr : Z)
| AF_INET6 (s6_addr : list Z)
| AF_OTHER.

Definition s6_byte (a : list Z) (i : nat) : Z := nth i a 0.

(** The body of the loop of [allowed]: the [switch] on the type of the
    rule and on the family of the sender. *)
Definition rule_accepts (allow : allow_t) (srcaddr : sockaddr) : bool :=
  match allow_type allow with
  | ALLOW_INVALID => false
  | ALLOW_IP =>
      match srcaddr with
      | AF_INET a => a =? addr_ipv4 allow
      | AF_INET6 a =>
          (* memcmp over the sixteen bytes *)
          bool_decide (take 16 a = take 16 (addr_ipv6 allow))
      | AF_OTHER => false
      end
  | ALLOW_NET =>
      match srcaddr with
      | AF_INET a => Z.land a (mask_ipv4 allow) =? addr_ipv4 allow
      | AF_INET6 a =>
          (Z.land (s6_byte a 0) (s6_byte (mask_ipv6 allow) 0)
           =? s6_byte (addr_ipv6 allow) 0)
          && (Z.land (s6_byte a 1) (s6_byte (mask_ipv6 allow) 1)
              =? s6_byte (addr_ipv6 allow) 1)
          && (Z.land (s6_byte a 2) (s6_byte (mask_ipv6 allow) 2)
              =? s6_byte (addr_ipv6 allow) 2)
          && (Z.land (s6_byte a 3) (s6_byte (mask_ipv6 allow) 3)
              =? s6_byte (addr_ipv6 allow) 3)
      | AF_OTHER => false
      end
  end.

Fixpoint scan (browseallow : list allow_t) (srcaddr : sockaddr) : bool :=
  match browseallow with
  | [] => false
  | allow :: rest =>
      if rule_accepts allow srcaddr then true else scan rest srcaddr
  end.

(** [allowed (srcaddr)], with the globals [browseallow_all] and
    [browseallow] as arguments. *)
Definition allowed (browseallow_all : bool) (browseallow : list allow_t)
    (srcaddr : sockaddr) : bool :=
  if browseallow_all || (length browseallow =? 0)%nat then
    (* "BrowseAllow All", or no "BrowseAllow" line, so allow all servers *)
    true
  else scan browseallow srcaddr.

(** A rule as [calloc] hands it out, with the fields
    [read_browseallow_value] assigns.  The function only ever writes the
    IPv4 members of [addr] and [mask]; these lie in the four bytes after
    family and port, before the sixteen bytes of the IPv6 address, which
    therefore stay zero. *)
Definition rule (ty : allow_type_t) (addr mask : Z) : allow_t :=
  Allow ty addr (replicate 16 0) mask (replicate 16 0).

(** [htonl (((0xffffffff << (32 - bits)) & 0xffffffff))]; the constant is
    an [unsigned int], the shift is done in 32 bits. *)
Definition netmask (bits : Z) : Z :=
  Z.land (Z.shiftl 4294967295 (32 - bits) mod 2 ^ 32) 4294967295.

Section Parsing.

(** [inet_aton]: the address a text denotes, [None] when it denotes none.
    [strtoul (p, &endptr, 10)]: the number at the start of the text, [None]
    when [endptr == p]. *)
Variable inet_aton : string -> option Z.
Variable strtoul : string -> option Z.

(** [read_browseallow_value (value)] on the globals [browseallow_all] and
    [browseallow].  The array is ordered by the addresses of its elements;
    the new rule is shown at the end.  Result: the return value and the
    new globals; [None] where the behaviour is not defined: a missing value,
    handed to [strcasecmp] as [NULL] before it is tested, and the prefix
    length 0, for which the constant is shifted by its full width. *)
Definition read_browseallow_value (value : option string)
    (st : bool * list allow_t) : option (Z * (bool * list allow_t)) :=
  match value with
  | None => None
  | Some value =>
      if strcaseeq value "all" then Some (0, (true, st.2))
      else
        let fail addr :=
          Some (1, (st.1, st.2 ++ [rule ALLOW_INVALID addr 0])) in
        let add ty addr mask :=
          Some (0, (st.1, st.2 ++ [rule ty addr mask])) in
        match strchr value "/" with
        | Some p =>
            match inet_aton (cut_at "/" value) with
            | None => fail 0
            | Some addr =>
                let p := advance p 1 in
                if bool_decide (is_Some (strchr p ".")) then
                  match inet_aton p with
                  | Some mask => add ALLOW_NET addr mask
                  | None => fail addr
                  end
                else
                  match strtoul p with
                  | None => fail addr
                  | Some bits =>
                      if bits >? 32 then fail addr
                      else if bits =? 0 then None
                      else add ALLOW_NET addr (netmask bits)
                  end
            end
        | None =>
            match inet_aton value with
            | Some addr => add ALLOW_IP addr 0
            | None => fail 0
            end
        end
  end.

End Parsing.

End BrowseAllow.

(** ** Printers learnt from browse packets and by polling a server *)

Module BrowseEvents.
Import BrowseAllow.




Section WithURIs.

Variable httpAssembleURIf : string -> string -> Z -> string -> string.






End WithURIs.

End BrowseEvents.

Import BrowseEvents.

(** ** A server that is polled *)

Module PollingScenario.
Import Scenario.



End PollingScenario.

Import PollingScenario.

(** ** The string helpers that come with the PPD generator

    Characters reach the [_cups_] functions as [int]; the string functions
    pass a [char], which is promoted with its sign. *)

Module CupsString.

Definition _cups_isalnum (ch : Z) : bool :=
  ((char_val "0" <=? ch) && (ch <=? char_val "9"))
  || ((char_val "A" <=? ch) && (ch <=? char_val "Z"))
  || ((char_val "a" <=? ch) && (ch <=? char_val "z")).

Definition _cups_isalpha (ch : Z) : bool :=
  ((char_val "A" <=? ch) && (ch <=? char_val "Z"))
  || ((char_val "a" <=? ch) && (ch <=? char_val "z")).

Definition _cups_islower (ch : Z) : bool :=
  (char_val "a" <=? ch) && (ch <=? char_val "z").

Definition _cups_isspace (ch : Z) : bool :=
  (ch =? 32) || (ch =? 12) || (ch =? 10) || (ch =? 13) || (ch =? 9)
  || (ch =? 11).

Definition _cups_isupper (ch : Z) : bool :=
  (char_val "A" <=? ch) && (ch <=? char_val "Z").

Definition _cups_tolower (ch : Z) : Z :=
  if _cups_isupper ch then ch - char_val "A" + char_val "a" else ch.

Definition _cups_toupper (ch : Z) : Z :=
  if _cups_islower ch then ch - char_val "a" + char_val "A" else ch.

(** The loop of [_cups_strcasecmp] and the tests after it, on the
    characters before the terminators. *)
Fixpoint strcasecmp_loop (s t : list ascii) : Z :=
  match s, t with
  | c :: s', d :: t' =>
      if _cups_tolower (char_val c) <? _cups_tolower (char_val d) then -1
      else if _cups_tolower (char_val c) >? _cups_tolower (char_val d) then 1
      else strcasecmp_loop s' t'
  | [], [] => 0
  | _ :: _, [] => 1
  | [], _ :: _ => -1
  end.

Definition _cups_strcasecmp (s t : string) : Z :=
  strcasecmp_loop (chars s) (chars t).

Fixpoint strncasecmp_loop (s t : list ascii) (n : nat) {struct n} : Z :=
  match n with
  | O => 0
  | S n' =>
      match s, t with
      | c :: s', d :: t' =>
          if _cups_tolower (char_val c) <? _cups_tolower (char_val d) then -1
          else if _cups_tolower (char_val c) >? _cups_tolower (char_val d)
               then 1
               else strncasecmp_loop s' t' n'
      | [], [] => 0
      | _ :: _, [] => 1
      | [], _ :: _ => -1
      end
  end.

Definition _cups_strncasecmp (s t : string) (n : nat) : Z :=
  strncasecmp_loop (chars s) (chars t) n.

(** [strlcpy (dst, src, size)]: what [dst] holds afterwards, and the
    return value.  [size --] is done on an unsigned number: from 0 it
    wraps to the largest [size_t], which no length exceeds. *)
Definition strlcpy (src : string) (size : Z) : string * Z :=
  let srclen := Z.of_nat (c_strlen src) in
  let srclen :=
    if size =? 0 then srclen
    else if srclen >? size - 1 then size - 1 else srclen in
  (string_of_list_ascii (take (Z.to_nat srclen) (chars src)), srclen).

End CupsString.

(** ** PWG keywords to PPD keywords *)

Module Pwg.
Import CupsString.

(** [PPD_MAX_NAME] of the CUPS headers. *)
Definition PPD_MAX_NAME : Z := 41.

(** [toupper] of the C library in the "C" locale, the one the program
    runs in. *)
Definition toupper (c : ascii) : ascii :=
  let n := N_of_ascii c in
  if ((97 <=? n) && (n <=? 122))%N then ascii_of_N (n - 32) else c.

(** The loop of [pwg_ppdize_name]; [room] is [end - ptr]. *)
Fixpoint ppdize_loop (room : nat) (ipp : list ascii) : list ascii :=
  match room with
  | O => []
  | S room' =>
      match ipp with
      | [] => []
      | c :: rest =>
          match rest with
          | d :: rest' =>
              if bool_decide (c = dash) && _cups_isalpha (char_val d)
              then toupper d :: ppdize_loop room' rest'
              else c :: ppdize_loop room' rest
          | [] => [c]
          end
      end
  end.

(** [pwg_ppdize_name (ipp, name, namesize)]: the string left in [name].
    [None]: for the empty keyword [*ipp++] steps over the terminator and
    the loop reads what lies behind the keyword. *)
Definition pwg_ppdize_name (ipp : string) (namesize : Z) : option string :=
  match chars ipp with
  | [] => None
  | c :: rest =>
      Some (string_of_list_ascii
              (toupper c :: ppdize_loop (Z.to_nat (namesize - 2)) rest))
  end.

(** [_pwgInputSlotForSource (media_source, name, namesize)]; [name] says
    whether a buffer is given.  Result: [Some None] for [NULL], otherwise
    the string left in the buffer; [None] where [pwg_ppdize_name] has no
    defined result. *)
Definition _pwgInputSlotForSource (media_source : option string)
    (name : bool) (namesize : Z) : option (option string) :=
  match media_source with
  | None => Some None
  | Some media_source =>
      (* range check input *)
      if negb name || (namesize <? PPD_MAX_NAME) then Some None
      else if negb (_cups_strcasecmp media_source "main" =? 0)
      then Some (Some (strlcpy "Cassette" namesize).1)
      else if negb (_cups_strcasecmp media_source "alternate" =? 0)
      then Some (Some (strlcpy "Multipurpose" namesize).1)
      else if negb (_cups_strcasecmp media_source "large-capacity" =? 0)
      then Some (Some (strlcpy "LargeCapacity" namesize).1)
      else if negb (_cups_strcasecmp media_source "bottom" =? 0)
      then Some (Some (strlcpy "Lower" namesize).1)
      else if negb (_cups_strcasecmp media_source "middle" =? 0)
      then Some (Some (strlcpy "Middle" namesize).1)
      else if negb (_cups_strcasecmp media_source "top" =? 0)
      then Some (Some (strlcpy "Upper" namesize).1)
      else if negb (_cups_strcasecmp media_source "rear" =? 0)
      then Some (Some (strlcpy "Rear" namesize).1)
      else if negb (_cups_strcasecmp media_source "side" =? 0)
      then Some (Some (strlcpy "Side" namesize).1)
      else if negb (_cups_strcasecmp media_source "envelope" =? 0)
      then Some (Some (strlcpy "Envelope" namesize).1)
      else if negb (_cups_strcasecmp media_source "main-roll" =? 0)
      then Some (Some (strlcpy "Roll" namesize).1)
      else if negb (_cups_strcasecmp media_source "alternate-roll" =? 0)
      then Some (Some (strlcpy "Roll2" namesize).1)
      else Some <$> pwg_ppdize_name media_source namesize
  end.

(** [_pwgMediaTypeForType (media_type, name, namesize)], in the same way. *)
Definition _pwgMediaTypeForType (media_type : option string)
    (name : bool) (namesize : Z) : option (option string) :=
  match media_type with
  | None => Some None
  | Some media_type =>
      (* range check input *)
      if negb name || (namesize <? PPD_MAX_NAME) then Some None
      else if negb (_cups_strcasecmp media_type "auto" =? 0)
      then Some (Some (strlcpy "Auto" namesize).1)
      else if negb (_cups_strcasecmp media_type "cardstock" =? 0)
      then Some (Some (strlcpy "Cardstock" namesize).1)
      else if negb (_cups_strcasecmp media_type "envelope" =? 0)
      then Some (Some (strlcpy "Envelope" namesize).1)
      else if negb (_cups_strcasecmp media_type "photographic-glossy" =? 0)
      then Some (Some (strlcpy "Glossy" namesize).1)
      else if negb (_cups_strcasecmp media_type "photographic-high-gloss" =? 0)
      then Some (Some (strlcpy "HighGloss" namesize).1)
      else if negb (_cups_strcasecmp media_type "photographic-matte" =? 0)
      then Some (Some (strlcpy "Matte" namesize).1)
      else if negb (_cups_strcasecmp media_type "stationery" =? 0)
      then Some (Some (strlcpy "Plain" namesize).1)
      else if negb (_cups_strcasecmp media_type "stationery-coated" =? 0)
      then Some (Some (strlcpy "Coated" namesize).1)
      else if negb (_cups_strcasecmp media_type "stationery-inkjet" =? 0)
      then Some (Some (strlcpy "Inkjet" namesize).1)
      else if negb (_cups_strcasecmp media_type "stationery-letterhead" =? 0)
      then Some (Some (strlcpy "Letterhead" namesize).1)
      else if negb (_cups_strcasecmp media_type "stationery-preprinted" =? 0)
      then Some (Some (strlcpy "Preprinted" namesize).1)
      else if negb (_cups_strcasecmp media_type "transparency" =? 0)
      then Some (Some (strlcpy "Transparency" namesize).1)
      else Some <$> pwg_ppdize_name media_type namesize
  end.

End Pwg.

(** ** Notions used to state the properties of the string helpers *)

Module StringProps.

(** A character of the 7-bit set. *)
Definition seven_bit (c : ascii) : bool := uchar_val c <? 128.

End StringProps.

Import StringProps.

(** * Proofs *)

(** ** The sanitizer *)

Module SanitizerProofs.

Lemma bind_some {A B} (c : M A) (f : A -> M B) m x m' :
  c m = Some (x, m') -> (c ≫= f) m = f x m'.
Proof. intros H. unfold mbind, M_bind. by rewrite H. Qed.

Lemma until_nul_app l r : no_nul l -> until_nul (l ++ NUL :: r) = l.
Proof.
  induction 1 as [|c l Hc _ IH]; simpl.
  - by destruct (decide (NUL = NUL)).
  - destruct (decide (c = NUL)); [done|]. by rewrite IH.
Qed.

Lemma until_nul_no_nul l : no_nul (until_nul l).
Proof.
  induction l as [|c l IH]; simpl; [constructor|].
  destruct (decide (c = NUL)); [constructor|by constructor].
Qed.

Lemma strlen_block b blk l r f :
  blk = l ++ NUL :: r ->
  no_nul l ->
  strlen (Mem b blk f) = Some (Z.of_nat (length l), Mem b blk f).
Proof.
  intros -> Hl. unfold strlen. simpl. rewrite until_nul_app by done.
  rewrite length_app. simpl.
  destruct (Z.ltb_spec (Z.of_nat (length l))
              (Z.of_nat (length l + S (length r)))) as [_|?]; [done|lia].
Qed.

Lemma load_block b blk i l c r f :
  blk = l ++ c :: r ->
  i = Z.of_nat (length l) ->
  load i (Mem b blk f) = Some (c, Mem b blk f).
Proof.
  intros -> ->. unfold load. simpl.
  destruct (Z.ltb_spec (Z.of_nat (length l)) 0) as [?|_]; [lia|].
  rewrite Nat2Z.id. rewrite list_lookup_middle by done. done.
Qed.

Lemma store_block b blk i l c c' r f :
  blk = l ++ c :: r ->
  i = Z.of_nat (length l) ->
  store i c' (Mem b blk f) = Some (tt, Mem b (l ++ c' :: r) f).
Proof.
  intros -> ->. unfold store. simpl.
  destruct (Z.ltb_spec (Z.of_nat (length l)) 0) as [?|_]; [lia|].
  rewrite length_app. simpl.
  destruct (Z.ltb_spec (Z.of_nat (length l))
              (Z.of_nat (length l + S (length r)))) as [_|?]; [|lia].
  rewrite Nat2Z.id.
  replace (length l) with (length l + 0)%nat at 1 by lia.
  by rewrite insert_app_r.
Qed.

Lemma no_nul_app l1 l2 : no_nul (l1 ++ l2) <-> no_nul l1 /\ no_nul l2.
Proof. apply Forall_app. Qed.

Lemma no_nul_tail l : no_nul l -> no_nul (tail l).
Proof. destruct 1; [constructor|done]. Qed.

Lemma dash_not_nul : dash <> NUL.
Proof. done. Qed.

(** Writing at [j] when the read position is at or ahead of it: the cell
    overwritten is the first stale one, or the one just read. *)
Lemma overwrite b blk j out stale c c' rest f :
  blk = out ++ stale ++ c :: rest ->
  j = Z.of_nat (length out) ->
  store j c' (Mem b blk f)
  = Some (tt, Mem b ((out ++ [c']) ++ tail (stale ++ [c]) ++ rest) f).
Proof.
  intros -> ->.
  destruct stale as [|y t]; simpl.
  - erewrite store_block by done. by rewrite <- app_assoc.
  - erewrite store_block by done. by rewrite <- !app_assoc.
Qed.

Lemma copy_loop_spec mode b f rest :
  forall out stale havedash fuel,
    no_nul (out ++ stale ++ rest) ->
    (length rest <= fuel)%nat ->
    copy_post b f (out ++ squeeze mode havedash rest)
      (copy_loop fuel mode (Z.of_nat (length out + length stale))
         (Z.of_nat (length out)) havedash
         (Mem b (out ++ stale ++ rest ++ [NUL]) f)).
Proof.
  induction rest as [|c rest IH]; intros out stale havedash fuel Hnn Hfuel.
  - simpl squeeze. simpl app. rewrite !app_nil_r in *.
    apply no_nul_app in Hnn as [Hout Hstale].
    destruct fuel; simpl copy_loop.
    all: erewrite bind_some
           by (apply (strlen_block _ _ (out ++ stale) []);
               [by rewrite <- app_assoc|by apply no_nul_app]).
    all: cbv beta; rewrite length_app, Z.ltb_irrefl; simpl.
    all: split; [done|]; by exists stale.
  - destruct fuel as [|fuel]; [simpl in Hfuel; lia|].
    assert (Hc : c <> NUL).
    { rewrite !no_nul_app in Hnn. destruct Hnn as (_ & _ & Hr).
      by inversion Hr. }
    assert (Hnn' : forall c', c' <> NUL ->
              no_nul ((out ++ [c']) ++ tail (stale ++ [c]) ++ rest)).
    { intros c' Hc'. rewrite !no_nul_app in *.
      destruct Hnn as (Ho & Hs & Hr). inversion Hr; subst.
      repeat split; try done.
      - by repeat constructor.
      - apply no_nul_tail, no_nul_app. split; [done|by repeat constructor]. }
    assert (Hlen : forall c' : ascii,
              (length (out ++ [c']) + length (tail (stale ++ [c]))
               = S (length out + length stale))%nat).
    { intros c'. rewrite length_app. simpl.
      destruct stale; simpl; [lia|]. rewrite length_app. simpl. lia. }
    simpl copy_loop. simpl app.
    erewrite bind_some; cycle 1.
    { apply (strlen_block _ _ (out ++ stale ++ c :: rest) []); [|done].
      by rewrite <- !app_assoc. }
    cbv beta. rewrite !length_app.
    match goal with
    | |- context [?x <? ?y] =>
        destruct (Z.ltb_spec x y) as [_|Hge]; [|simpl in Hge; lia]
    end.
    erewrite bind_some; cycle 1.
    { apply (load_block _ _ _ (out ++ stale) c (rest ++ [NUL]));
        [by rewrite <- app_assoc|by rewrite length_app]. }
    cbv beta.
    destruct (allowed mode c) eqn:Hall.
    + erewrite bind_some by (by apply overwrite). cbv beta.
      specialize (IH (out ++ [c]) (tail (stale ++ [c])) false fuel).
      rewrite Hlen in IH.
      replace (Z.of_nat (length out + length stale) + 1)
        with (Z.of_nat (S (length out + length stale))) by lia.
      replace (Z.of_nat (length out) + 1)
        with (Z.of_nat (length (out ++ [c])))
        by (rewrite length_app; simpl; lia).
      replace (out ++ c :: squeeze mode false rest)
        with ((out ++ [c]) ++ squeeze mode false rest)
        by (by rewrite <- app_assoc).
      apply IH; [by apply Hnn'|simpl in Hfuel; lia].
    + destruct havedash.
      * specialize (IH out (stale ++ [c]) true fuel).
        rewrite length_app in IH. simpl length in IH.
        replace (Z.of_nat (length out + length stale) + 1)
          with (Z.of_nat (length out + (length stale + 1))) by lia.
        replace (Z.of_nat (length out) - 1 + 1)
          with (Z.of_nat (length out)) by lia.
          replace (out ++ stale ++ c :: rest ++ [NUL])
          with (out ++ (stale ++ [c]) ++ rest ++ [NUL])
          by (by rewrite <- !app_assoc).
        apply IH; [by rewrite <- !app_assoc|simpl in Hfuel; lia].
      * erewrite bind_some by (by apply overwrite). cbv beta.
        specialize (IH (out ++ [dash]) (tail (stale ++ [c])) true fuel).
        rewrite Hlen in IH.
        replace (Z.of_nat (length out + length stale) + 1)
          with (Z.of_nat (S (length out + length stale))) by lia.
        replace (Z.of_nat (length out) + 1)
          with (Z.of_nat (length (out ++ [dash])))
          by (rewrite length_app; simpl; lia).
          replace (out ++ dash :: squeeze mode true rest)
          with ((out ++ [dash]) ++ squeeze mode true rest)
          by (by rewrite <- app_assoc).
        apply IH; [by apply Hnn', dash_not_nul|simpl in Hfuel; lia].
Qed.

Lemma strip_trailing_snoc W c :
  strip_trailing (W ++ [c])
  = if decide (c = dash) then strip_trailing W else W ++ [c].
Proof.
  unfold strip_trailing. rewrite rev_app_distr. simpl.
  destruct (decide (c = dash)); [done|].
  simpl. by rewrite rev_involutive.
Qed.

Lemma trailing_loop_spec b f W :
  forall tl fuel,
    no_nul W ->
    (length W + 1 <= fuel)%nat ->
    trailing_post b f W (length (W ++ NUL :: tl))
      (trailing_loop fuel (Mem b (W ++ NUL :: tl) f)).
Proof.
  induction W as [|c W IH] using rev_ind; intros tl fuel Hnn Hfuel.
  - (* the string is empty: the index wraps to the byte below the block *)
    destruct fuel as [|fuel]; [simpl in Hfuel; lia|].
    simpl trailing_loop.
    erewrite bind_some by (by apply (strlen_block _ _ [] tl)). cbv beta.
    simpl length. change (Z.of_nat 0 - 1) with (-1).
    unfold trailing_post, underflow, below_after, strip_trailing. simpl rev.
    simpl strip_leading.
    destruct (decide (b = dash)) as [->|Hb].
    + unfold mbind, M_bind, load, store, strlen, log. simpl.
      destruct fuel; simpl; rewrite <- !app_assoc; simpl;
        (split; [by exists tl|done]).
    + unfold mbind, M_bind, load, log. simpl.
      rewrite decide_False by done. simpl. split; [by exists tl|done].
  - destruct fuel as [|fuel]; [simpl in Hfuel; lia|].
    apply no_nul_app in Hnn as [HW Hc].
    assert (Hblk : (W ++ [c]) ++ NUL :: tl = W ++ c :: NUL :: tl)
      by (by rewrite <- app_assoc).
    simpl trailing_loop.
    erewrite bind_some
      by (apply (strlen_block _ _ (W ++ [c]) tl); [done|by apply no_nul_app]).
    cbv beta.
    erewrite bind_some
      by (apply (load_block _ _ _ W c (NUL :: tl));
          [done|rewrite length_app; simpl; lia]).
    cbv beta.
    destruct (decide (c = dash)) as [->|Hcd].
    + erewrite bind_some
        by (apply (strlen_block _ _ (W ++ [dash]) tl);
            [done|by apply no_nul_app]).
      cbv beta.
      erewrite bind_some
        by (apply (store_block _ _ _ W dash NUL (NUL :: tl));
            [done|rewrite length_app; simpl; lia]).
      cbv beta.
      specialize (IH (NUL :: tl) fuel HW).
      unfold trailing_post. rewrite strip_trailing_snoc.
      rewrite decide_True by done. fold (trailing_post b f W).
      replace (length ((W ++ [dash]) ++ NUL :: tl))
        with (length (W ++ NUL :: NUL :: tl))
        by (rewrite Hblk, !length_app; done).
      apply IH. rewrite length_app in Hfuel. simpl in Hfuel. lia.
    + unfold trailing_post. rewrite strip_trailing_snoc.
      rewrite decide_False by done. simpl.
      split; [by exists tl|]. split; [done|].
      destruct (decide (W ++ [c] = [])) as [E|_]; [by destruct W|done].
Qed.

Lemma strip_leading_drop s : strip_leading s = drop (dashes s) s.
Proof.
  induction s as [|c s IH]; simpl; [done|].
  destruct (decide (c = dash)); done.
Qed.

Lemma dashes_le s : (dashes s <= length s)%nat.
Proof.
  induction s as [|c s IH]; simpl; [done|].
  destruct (decide (c = dash)); simpl; lia.
Qed.

Lemma leading_loop_spec b f T tl :
  forall pre fuel,
    (length T <= fuel)%nat ->
    leading_loop fuel (Z.of_nat (length pre))
      (Mem b (pre ++ T ++ NUL :: tl) f)
    = Some (Z.of_nat (length pre + dashes T), Mem b (pre ++ T ++ NUL :: tl) f).
Proof.
  induction T as [|c T IH]; intros pre fuel Hfuel.
  - assert (Hload : load (Z.of_nat (length pre))
                      (Mem b (pre ++ [] ++ NUL :: tl) f)
                    = Some (NUL, Mem b (pre ++ [] ++ NUL :: tl) f))
      by (by apply (load_block _ _ _ pre NUL tl)).
    destruct fuel; simpl leading_loop.
    all: erewrite bind_some by exact Hload; cbv beta.
    all: simpl; by rewrite Nat.add_0_r.
  - destruct fuel as [|fuel]; [simpl in Hfuel; lia|].
    simpl leading_loop.
    erewrite bind_some
      by (by apply (load_block _ _ _ pre c (T ++ NUL :: tl))).
    cbv beta. simpl dashes.
    destruct (decide (c = dash)) as [->|Hc].
    + specialize (IH (pre ++ [dash]) fuel).
      rewrite length_app in IH. simpl length in IH.
      replace (Z.of_nat (length pre) + 1)
        with (Z.of_nat (length pre + 1)) by lia.
      rewrite <- app_assoc in IH. simpl in IH.
      simpl. rewrite IH by (simpl in Hfuel; lia).
      do 3 f_equal. lia.
    + simpl. by rewrite Nat.add_0_r.
Qed.

Lemma allowed_kept mode c : allowed mode c = kept mode c.
Proof.
  unfold allowed, kept.
  destruct (Z.eqb_spec mode 1) as [->|Hm].
  - destruct c as [[] [] [] [] [] [] [] []]; vm_compute; reflexivity.
  - rewrite (bool_decide_eq_false_2 (mode = 1)) by done.
    destruct c as [[] [] [] [] [] [] [] []]; vm_compute; reflexivity.
Qed.

Lemma allowed_not_dash mode c : allowed mode c = true -> c <> dash.
Proof.
  intros H ->. revert H. unfold allowed.
  destruct (mode =? 1); vm_compute; discriminate.
Qed.

Lemma squeeze_collapse mode s :
  squeeze mode false s = collapse mode s
  /\ (forall c, kept mode c = false ->
       collapse mode (c :: s) = dash :: squeeze mode true s).
Proof.
  induction s as [|c s [IH1 IH2]].
  - split; [done|]. intros c Hc. simpl. by rewrite Hc.
  - split.
    + simpl squeeze. rewrite allowed_kept.
      destruct (kept mode c) eqn:Hc.
      * simpl. by rewrite Hc, IH1.
      * by rewrite IH2.
    + intros c0 Hc0. simpl squeeze. rewrite allowed_kept.
      change (collapse mode (c0 :: c :: s))
        with (if kept mode c0 then c0 :: collapse mode (c :: s)
              else if kept mode c then dash :: collapse mode (c :: s)
                   else collapse mode (c :: s)).
      rewrite Hc0. destruct (kept mode c) eqn:Hc.
      * simpl. by rewrite Hc, IH1.
      * by apply IH2.
Qed.

Lemma squeeze_length mode havedash s :
  (length (squeeze mode havedash s) <= length s)%nat.
Proof.
  revert havedash. induction s as [|c s IH]; intros havedash; simpl; [done|].
  destruct (allowed mode c); [|destruct havedash]; simpl.
  - specialize (IH false). lia.
  - specialize (IH true). lia.
  - specialize (IH true). lia.
Qed.

Lemma squeeze_no_nul mode havedash s :
  no_nul s -> no_nul (squeeze mode havedash s).
Proof.
  intros H. revert havedash.
  induction H as [|c s Hc _ IH]; intros havedash; simpl; [constructor|].
  destruct (allowed mode c); [|destruct havedash].
  - constructor; [done|apply IH].
  - apply IH.
  - constructor; [done|apply IH].
Qed.

Lemma strip_leading_no_nul s : no_nul s -> no_nul (strip_leading s).
Proof.
  induction 1 as [|c s Hc Hs IH]; simpl; [constructor|].
  destruct (decide (c = dash)); [done|by constructor].
Qed.

Lemma strip_leading_length s : (length (strip_leading s) <= length s)%nat.
Proof.
  induction s as [|c s IH]; simpl; [done|].
  destruct (decide (c = dash)); simpl; lia.
Qed.

Lemma strip_trailing_no_nul s : no_nul s -> no_nul (strip_trailing s).
Proof.
  intros H. unfold strip_trailing, no_nul.
  apply Forall_rev, strip_leading_no_nul, Forall_rev, H.
Qed.

Lemma strip_trailing_length s : (length (strip_trailing s) <= length s)%nat.
Proof.
  unfold strip_trailing. rewrite length_rev.
  etrans; [apply strip_leading_length|]. by rewrite length_rev.
Qed.

Lemma strip_leading_nil s :
  strip_leading s = [] <-> Forall (fun c => c = dash) s.
Proof.
  induction s as [|c s IH]; simpl.
  - split; [constructor|done].
  - destruct (decide (c = dash)) as [->|Hc].
    + rewrite IH. split; [by constructor|by inversion 1].
    + split; [done|]. by inversion 1.
Qed.

Lemma strip_trailing_nil s :
  strip_trailing s = [] <-> Forall (fun c => c = dash) s.
Proof.
  unfold strip_trailing. split.
  - intros H. apply (f_equal (@rev ascii)) in H. rewrite rev_involutive in H.
    simpl in H. apply strip_leading_nil in H.
    apply Forall_rev in H. by rewrite rev_involutive in H.
  - intros H. apply Forall_rev in H. apply strip_leading_nil in H.
    by rewrite H.
Qed.

Lemma squeeze_all_dashes mode havedash s :
  Forall (fun c => c = dash) (squeeze mode havedash s)
  <-> forallb (fun c => negb (allowed mode c)) s = true.
Proof.
  revert havedash. induction s as [|c s IH]; intros havedash; simpl.
  - split; [done|constructor].
  - destruct (allowed mode c) eqn:Hc; simpl.
    + split; [|done]. inversion 1; subst.
      by apply allowed_not_dash in Hc.
    + destruct havedash; [apply IH|].
      rewrite <- (IH true). split; [by inversion 1|by constructor].
Qed.

(** The run of the whole function on a copy of [cs]. *)
Lemma body_run mode b cs :
  no_nul cs -> cs <> [] ->
  match remove_bad_chars_body mode (Mem b (cs ++ [NUL]) []) with
  | Some (_, m) =>
      until_nul (block m)
      = strip_leading (strip_trailing (squeeze mode false cs))
      /\ faults m
         = (if forallb (fun c => negb (allowed mode c)) cs
            then underflow b else [])
  | None => False
  end.
Proof.
  intros Hnn Hne. unfold remove_bad_chars_body.
  erewrite bind_some by (by apply (strlen_block _ _ cs [])). cbv beta.
  destruct (Z.ltb_spec (Z.of_nat (length cs)) 1) as [Hlt|_].
  { destruct cs; [done|simpl in Hlt; lia]. }
  unfold capacity at 1. unfold mbind at 1, M_bind at 1. cbv beta iota.
  simpl block. rewrite length_app. simpl length.
  set (W := squeeze mode false cs).
  pose proof (copy_loop_spec mode b [] cs [] [] false (length cs + 1)) as Hcopy.
  simpl in Hcopy. change (Z.of_nat 0) with 0 in Hcopy.
  specialize (Hcopy Hnn (Nat.le_add_r _ _)). fold W in Hcopy.
  destruct (copy_loop (length cs + 1) mode 0 0 false (Mem b (cs ++ [NUL]) []))
    as [[j m1]|] eqn:Hrun; [|done].
  destruct Hcopy as (-> & stale' & -> & Hst).
  unfold mbind at 1, M_bind at 1. rewrite Hrun. cbv beta iota.
  assert (HnW : no_nul W) by (by apply squeeze_no_nul).
  destruct (stale' ++ [NUL]) as [|y tl] eqn:Etl; [by destruct stale'|].
  erewrite bind_some by (by apply (store_block _ _ _ W y NUL tl)). cbv beta.
  pose proof (trailing_loop_spec b [] W tl (length cs + 1 + 2) HnW) as Htr.
  pose proof (squeeze_length mode false cs) as HlW. fold W in HlW.
  assert (Hfuel : (length W + 1 <= length cs + 1 + 2)%nat) by lia.
  specialize (Htr Hfuel).
  destruct (trailing_loop (length cs + 1 + 2) (Mem b (W ++ NUL :: tl) []))
    as [[[] m2]|] eqn:Htrun; [|done].
  unfold mbind at 1, M_bind at 1. rewrite Htrun. cbv beta iota.
  destruct m2 as [b2 blk2 f2]. simpl in Htr.
  destruct Htr as ((tl2 & ->) & Hsize & Hfaults).
  set (T := strip_trailing W) in *.
  assert (HnT : no_nul T) by (by apply strip_trailing_no_nul).
  pose proof (strip_trailing_length W) as HlT. fold T in HlT.
  erewrite bind_some
    by (apply (leading_loop_spec b2 f2 T tl2 [] (length cs + 1)); lia).
  cbv beta. simpl length. rewrite Nat.add_0_l. simpl app.
  erewrite bind_some by (by apply (strlen_block _ _ T tl2)). cbv beta.
  pose proof (dashes_le T) as Hd.
  unfold memmove. simpl block.
  rewrite length_app. simpl length.
  match goal with
  | |- context [if ?c then _ else _] =>
      assert (Hc : c = true); [|rewrite Hc]
  end.
  { rewrite !andb_true_iff, !Z.leb_le. lia. }
  simpl block. simpl faults. split.
  - rewrite strip_leading_drop. simpl take at 1. simpl app.
    rewrite Nat2Z.id.
    replace (Z.to_nat (Z.of_nat (length T) - Z.of_nat (dashes T) + 1))
      with (length (drop (dashes T) T) + 1)%nat
      by (rewrite length_drop; lia).
    rewrite drop_app_le by lia.
    rewrite take_app_add'. 2: done.
    simpl take. rewrite <- app_assoc. simpl.
    apply until_nul_app. unfold no_nul. by apply Forall_drop.
  - destruct (decide (T = [])) as [HT|HT].
    + destruct Hfaults as [_ ->]. simpl.
      apply strip_trailing_nil, squeeze_all_dashes in HT. by rewrite HT.
    + destruct Hfaults as [_ ->].
      destruct (forallb _ cs) eqn:Hall; [|done].
      apply squeeze_all_dashes with (havedash := false),
        strip_trailing_nil in Hall. done.
Qed.

(** The sanitizer returns, whatever byte lies below the copy; its result is
    the sanitized string, and the accesses outside the copy are those of
    [stray_accesses]. *)
Lemma remove_bad_chars_run b s mode :
  remove_bad_chars b (Some s) mode
  = Some (Some (sanitize mode s), stray_accesses b mode s).
Proof.
  unfold remove_bad_chars, strdup, sanitize, stray_accesses.
  pose proof (until_nul_no_nul (list_ascii_of_string s)) as Hnn.
  fold (chars s) in Hnn. destruct (chars s) as [|c cs] eqn:E.
  - reflexivity.
  - assert (Hne : c :: cs <> []) by done.
    pose proof (body_run mode b (c :: cs) Hnn Hne) as Hrun.
    destruct (remove_bad_chars_body mode (Mem b ((c :: cs) ++ [NUL]) []))
      as [[[] m]|]; [|done].
    destruct Hrun as [Hblock Hfaults].
    unfold read_back. rewrite Hblock, Hfaults.
    by rewrite (proj1 (squeeze_collapse mode (c :: cs))).
Qed.

Lemma remove_bad_chars_result b s mode :
  fst <$> remove_bad_chars b (Some s) mode = Some (Some (sanitize mode s)).
Proof. by rewrite remove_bad_chars_run. Qed.

Lemma cleaned_sanitize s mode : cleaned s mode = sanitize mode s.
Proof. unfold cleaned. by rewrite remove_bad_chars_run. Qed.

End SanitizerProofs.
Import SanitizerProofs.

(** Claim C8.  For every argument and mode, and whatever byte lies below the
    copy, the sanitizer returns the string obtained by keeping the letters,
    digits and underscores (and slash, dot and comma in mode 1), turning each
    maximal run of other characters into one dash and dropping the dashes at
    both ends.  In particular it maps "HP LaserJet!! 400" to
    "HP-LaserJet-400" and "-weird--name-" to "weird-name" in mode 0, and
    leaves "image/pwg-raster,application/pdf" as it is in mode 1. *)
Theorem sanitizer_behaviour :
  (forall b s mode,
     fst <$> remove_bad_chars b (Some s) mode = Some (Some (sanitize mode s)))
  /\ (forall b, fst <$> remove_bad_chars b (Some "HP LaserJet!! 400") 0
                = Some (Some "HP-LaserJet-400"))
  /\ (forall b, fst <$> remove_bad_chars b (Some "-weird--name-") 0
                = Some (Some "weird-name"))
  /\ (forall b,
        fst <$> remove_bad_chars b (Some "image/pwg-raster,application/pdf") 1
        = Some (Some "image/pwg-raster,application/pdf")).
Proof.
  split; [apply remove_bad_chars_result|].
  repeat split; intros b; by rewrite remove_bad_chars_result.
Qed.

(** Claim C10, which the code does not meet.  On the argument "---" the
    sanitizer does return the empty string, but the loop that cuts off the
    trailing dashes reads the byte just below the copy, at index -1. *)
Theorem sanitizer_reads_below_buffer :
  forall b,
    exists accesses,
      remove_bad_chars b (Some "---") 0 = Some (Some "", accesses)
      /\ In (ReadBelow (-1)) accesses.
Proof.
  intros b. rewrite remove_bad_chars_run. eexists. split; [reflexivity|].
  unfold stray_accesses, underflow. simpl.
  destruct (decide (b = dash)); simpl; auto.
Qed.

(** ** The timer of the reconciliation pass *)

Section TimerProofs.

Lemma pending_cons p a :
  pending (p :: a) = if decide (timeout p <> NEVER) then p :: pending a else pending a.
Proof. unfold pending. by rewrite filter_cons. Qed.

Lemma delay_nonneg now p : 0 <= delay now p.
Proof. unfold delay. lia. Qed.

Lemma nearest_timeout_acc now a :
  forall acc, acc = -1 \/ 0 <= acc ->
    let r := nearest_timeout now acc a in
    (forall p, p ∈ pending a -> 0 <= r <= delay now p)
    /\ (acc <> -1 -> 0 <= r <= acc)
    /\ (r = acc \/ exists p, p ∈ pending a /\ r = delay now p).
Proof.
  induction a as [|p a IH]; intros acc Hacc; simpl.
  - split; [by intros p Hp; inversion Hp|]. split; [lia|by left].
  - rewrite pending_cons. unfold NEVER in *.
    destruct (Z.eqb_spec (timeout p) (-1)) as [Hnever|Hsome].
    { rewrite decide_False by (intros H; by apply H). by apply IH. }
    rewrite decide_True by done.
    destruct (Z.gtb_spec now (timeout p)) as [Hpast|Hfuture].
    { split; [|split].
      - intros q _. pose proof (delay_nonneg now q). lia.
      - lia.
      - right. exists p. split; [by left|]. unfold delay. lia. }
    assert (Hd : delay now p = timeout p - now) by (unfold delay; lia).
    destruct ((acc =? -1) || (timeout p - now <? acc)) eqn:Hcmp.
    + destruct (IH (timeout p - now)) as (H1 & H2 & H3); [lia|].
      apply orb_true_iff in Hcmp. rewrite Z.eqb_eq, Z.ltb_lt in Hcmp.
      split; [|split].
      * intros q Hq. apply elem_of_cons in Hq as [->|Hq]; [|by apply H1].
        rewrite Hd. specialize (H2 ltac:(lia)). lia.
      * intros Hne. assert (timeout p - now <> -1) by lia.
        specialize (H2 ltac:(lia)). lia.
      * right. destruct H3 as [->|(q & Hq & ->)].
        -- exists p. split; [by left|done].
        -- exists q. split; [by right|done].
    + destruct (IH acc Hacc) as (H1 & H2 & H3).
      apply orb_false_iff in Hcmp. rewrite Z.eqb_neq, Z.ltb_ge in Hcmp.
      destruct Hcmp as [Hne Hge]. specialize (H2 Hne).
      split; [|split].
      * intros q Hq. apply elem_of_cons in Hq as [->|Hq]; [|by apply H1].
        rewrite Hd. lia.
      * done.
      * destruct H3 as [->|(q & Hq & ->)]; [by left|].
        right. exists q. split; [by right|done].
Qed.

Lemma nearest_timeout_none now a :
  pending a = [] -> nearest_timeout now (-1) a = -1.
Proof.
  intros Hp. destruct (nearest_timeout_acc now a (-1)) as (_ & _ & H3); [by left|].
  destruct H3 as [->|(p & Hin & _)]; [done|].
  rewrite Hp in Hin. by inversion Hin.
Qed.

Lemma nearest_timeout_least now a :
  pending a <> [] ->
  nearest_timeout now (-1) a <> -1
  /\ least_delay now a (nearest_timeout now (-1) a).
Proof.
  intros Hp. destruct (nearest_timeout_acc now a (-1)) as (H1 & _ & H3); [by left|].
  destruct (pending a) as [|q l] eqn:E; [done|].
  assert (Hq : q ∈ pending a) by (rewrite E; by left).
  assert (Hr : nearest_timeout now (-1) a <> -1).
  { rewrite <- E in H1. specialize (H1 q Hq). lia. }
  split; [done|]. split.
  - destruct H3 as [?|H3]; [done|]. by rewrite E.
  - intros p Hin. rewrite <- E in H1. by apply H1.
Qed.

Lemma filter_empty {A} (P : A -> Prop) `{!forall x, Decision (P x)} (l : list A) :
  (forall x, x ∈ l -> ~ P x) -> filter P l = [].
Proof.
  induction l as [|x l IH]; intros Hall; [done|].
  rewrite filter_cons_False by (apply Hall; by left).
  apply IH. intros y Hy. apply Hall. by right.
Qed.

Lemma queue_timers_remove id d :
  timers_tracked d -> queues_timer_id d = Some id ->
  queue_timers (g_source_remove id d) = [].
Proof.
  intros Htr Hid. unfold queue_timers, g_source_remove. simpl.
  apply filter_empty. intros s Hs Hcb.
  apply list_elem_of_filter in Hs as [Hne Hs].
  assert (Hq : s ∈ queue_timers d).
  { unfold queue_timers. by apply list_elem_of_filter. }
  apply Htr in Hq. congruence.
Qed.

Lemma queue_timers_untracked d :
  timers_tracked d -> queues_timer_id d = None -> queue_timers d = [].
Proof.
  intros Htr Hid. destruct (queue_timers d) as [|s l] eqn:E; [done|].
  assert (Hq : s ∈ queue_timers d) by (rewrite E; by left).
  apply Htr in Hq. congruence.
Qed.

Lemma recheck_timer_armed now d :
  gmainloop d = true -> timers_tracked d ->
  timer_armed_for now (remote_printers d) (recheck_timer now d).
Proof.
  intros Hloop Htr. unfold recheck_timer. rewrite Hloop. simpl negb.
  cbv iota.
  set (d1 := match queues_timer_id d with
             | Some id => g_source_remove id d
             | None => d
             end).
  assert (Hq : queue_timers d1 = []).
  { unfold d1. destruct (queues_timer_id d) eqn:E.
    - by apply queue_timers_remove.
    - by apply queue_timers_untracked. }
  assert (Hrp : remote_printers d1 = remote_printers d).
  { unfold d1. by destruct (queues_timer_id d). }
  unfold timer_armed_for.
  destruct (pending (remote_printers d)) as [|q l] eqn:E.
  - rewrite nearest_timeout_none by done. simpl. split; done.
  - destruct (nearest_timeout_least now (remote_printers d)) as [Hne Hleast];
      [by rewrite E|].
    destruct (Z.eqb_spec (nearest_timeout now (-1) (remote_printers d)) (-1))
      as [?|_]; [done|].
    simpl. eexists _, _. split; [|split; [reflexivity|exact Hleast]].
    unfold queue_timers in *. simpl. rewrite filter_app, Hq. simpl.
    by rewrite filter_cons_True.
Qed.

Lemma recheck_timer_printers now d :
  remote_printers (recheck_timer now d) = remote_printers d.
Proof.
  unfold recheck_timer. destruct (gmainloop d); simpl; [|done].
  destruct (nearest_timeout now (-1) (remote_printers d) =? -1); simpl;
    by destruct (queues_timer_id d).
Qed.

Lemma recheck_timer_cups now d : cups (recheck_timer now d) = cups d.
Proof.
  unfold recheck_timer. destruct (gmainloop d); simpl; [|done].
  destruct (nearest_timeout now (-1) (remote_printers d) =? -1); simpl;
    by destruct (queues_timer_id d).
Qed.

Lemma schedule_shutdown_frame n d :
  let d' := schedule_shutdown n d in
  gmainloop d' = gmainloop d
  /\ queues_timer_id d' = queues_timer_id d
  /\ queue_timers d' = queue_timers d
  /\ BrowseTimeout d' = BrowseTimeout d
  /\ cups d' = cups d
  /\ remote_printers d' = remote_printers d.
Proof.
  unfold schedule_shutdown.
  destruct (autoshutdown d && bool_decide (autoshutdown_exec_id d = None)
            && bool_decide (n = 0%nat)); [|done].
  simpl. repeat split; try done.
  unfold queue_timers. simpl. rewrite filter_app. simpl.
  rewrite filter_cons_False by done. by rewrite app_nil_r.
Qed.


End TimerProofs.

(** ** Discovery leaves the timer of the pass to [recheck_timer] *)

Section TimerFrame.

Lemma first_index_Some test a i :
  first_index test a = Some i ->
  exists q, a !! i = Some q /\ test q = true.
Proof.
  revert i. induction a as [|q a IH]; intros i; simpl; [done|].
  destruct (test q) eqn:Hq.
  - intros [= <-]. by exists q.
  - destruct (first_index test a) as [j|]; simpl; [|done].
    intros [= <-]. by apply IH.
Qed.

Lemma first_index_None test a :
  first_index test a = None -> forall q, q ∈ a -> test q = false.
Proof.
  induction a as [|x a IH]; simpl; intros H q Hq; [by inversion Hq|].
  destruct (test x) eqn:Hx; [done|].
  destruct (first_index test a); [done|].
  apply elem_of_cons in Hq as [->|Hq]; [done|by apply IH].
Qed.













End TimerFrame.




(** ** The reconciliation pass *)

Section PassProofs.

Lemma removable_answers s s' p :
  same_answers s s' -> removable s' p <-> removable s p.
Proof.
  intros (H1 & H2 & H3 & H4). unfold removable, is_default.
  by rewrite H1, H2, H3, H4.
Qed.

Lemma same_answers_trans s1 s2 s3 :
  same_answers s1 s2 -> same_answers s2 s3 -> same_answers s1 s3.
Proof.
  intros (H1 & H2 & H3 & H4) (G1 & G2 & G3 & G4).
  repeat split; congruence.
Qed.

Lemma is_default_call c s p : is_default (call c s) p = is_default s p.
Proof. done. Qed.

Lemma drop_queue_gone n qs q : q ∈ drop_queue n qs -> strcaseeq q n = false.
Proof. unfold drop_queue. intros H. by apply list_elem_of_filter in H as [? _]. Qed.

Lemma drop_queue_sub n qs q : q ∈ drop_queue n qs -> q ∈ qs.
Proof. unfold drop_queue. intros H. by apply list_elem_of_filter in H as [_ ?]. Qed.

Ltac leaf :=
  repeat split; simpl; try done; intros; intuition congruence.

(** The removal step for an entry that is due. *)
Lemma case_disappeared_due now p s :
  timeout p <= now ->
  exists r s',
    case_disappeared now p s = (r, s')
    /\ same_answers s s'
    /\ (removable s p ->
        r = None /\ sp_queues s' = drop_queue (name p) (sp_queues s))
    /\ (~ removable s p -> sp_queues s' = sp_queues s)
    /\ (forall p', r = Some p' ->
        p' = set_timeout (now + TIMEOUT_RETRY) p
        /\ duplicate p = false /\ ~ removable s p).
Proof.
  intros Hdue. unfold case_disappeared.
  destruct (Z.gtb_spec (timeout p) now) as [?|_]; [lia|].
  unfold removable, same_answers.
  destruct (duplicate p) eqn:Hdup; simpl;
    [eexists _, _; split; [reflexivity|leaf]|].
  destruct (sp_reachable s) eqn:Hreach; simpl;
    [|eexists _, _; split; [reflexivity|leaf]].
  destruct (Z.eqb_spec (sp_active_jobs s (name p)) 0) as [Hjobs|Hjobs]; simpl;
    [|eexists _, _; split; [reflexivity|leaf]].
  rewrite !is_default_call.
  destruct (is_default s p) eqn:Hdef;
    [eexists _, _; split; [reflexivity|leaf]|].
  destruct (sp_delete_ok s (name p)) eqn:Hdel; simpl;
    [|eexists _, _; split; [reflexivity|leaf]].
  eexists _, _. split; [reflexivity|]. simpl.
  repeat split; try done.
  intros Hnot. destruct Hnot. by repeat split.
Qed.

Lemma handle_entry_disappeared bt now p s :
  status p = STATUS_DISAPPEARED ->
  handle_entry bt now p s = case_disappeared now p s.
Proof. intros H. unfold handle_entry. by rewrite H. Qed.

(** The last pass, over entries that are all due for removal. *)
Lemma final_loop now todo :
  forall seen d,
    Forall (due now) todo ->
    let d' := queues_loop now seen todo d in
    same_answers (cups d) (cups d')
    /\ (forall q, q ∈ sp_queues (cups d') -> q ∈ sp_queues (cups d))
    /\ (forall p, p ∈ todo -> removable (cups d) p ->
        forall q, q ∈ sp_queues (cups d') -> strcaseeq q (name p) = false)
    /\ (forall q, q ∈ sp_queues (cups d) ->
        (forall p, p ∈ todo -> removable (cups d) p ->
                   strcaseeq q (name p) = false) ->
        q ∈ sp_queues (cups d'))
    /\ (forall p', p' ∈ remote_printers d' ->
        p' ∈ seen
        \/ exists p, p ∈ todo
                     /\ p' = set_timeout (now + TIMEOUT_RETRY) p
                     /\ duplicate p = false /\ ~ removable (cups d) p).
Proof.
  induction todo as [|p rest IH]; intros seen d Hdue; simpl.
  - repeat split; try done.
    + intros p Hp. by inversion Hp.
    + intros p' Hp'. by left.
  - inversion Hdue as [|? ? [Hst Hto] Hrest]; subst.
    rewrite handle_entry_disappeared by done.
    destruct (case_disappeared_due now p (cups d) Hto)
      as (r & s1 & -> & Hsame & Hrem & Hstay & Hkept).
    assert (Hsub : forall q, q ∈ sp_queues s1 -> q ∈ sp_queues (cups d)).
    { intros q Hq. destruct (decide (removable (cups d) p)) as [Hrm|Hrm].
      - destruct (Hrem Hrm) as [_ Hqs]. rewrite Hqs in Hq.
        by apply drop_queue_sub in Hq.
      - by rewrite (Hstay Hrm) in Hq. }
    assert (Hstep : exists d1,
               (match r with
                | Some p' => queues_loop now (seen ++ [p']) rest (with_cups s1 d)
                | None => queues_loop now seen rest
                            (schedule_shutdown (length seen + length rest)
                               (with_cups s1 d))
                end
                = queues_loop now (seen ++ from_option (fun x => [x]) [] r) rest d1)
               /\ cups d1 = s1).
    { destruct r as [p'|]; simpl.
      - by exists (with_cups s1 d).
      - rewrite app_nil_r. eexists. split; [done|].
        by destruct (schedule_shutdown_frame (length seen + length rest)
                       (with_cups s1 d)) as (_ & _ & _ & _ & -> & _). }
    destruct Hstep as (d1 & Heq & Hc1).
    replace (match r with
             | Some p' => queues_loop now (seen ++ [p']) rest (with_cups s1 d)
             | None => queues_loop now seen rest
                         (schedule_shutdown (length seen + length rest)
                            (with_cups s1 d))
             end)
      with (queues_loop now (seen ++ from_option (fun x => [x]) [] r) rest d1).
    destruct (IH (seen ++ from_option (fun x => [x]) [] r) d1 Hrest)
      as (I1 & I2 & I3 & I5 & I4).
    rewrite Hc1 in *.
    split; [by eapply same_answers_trans|].
    split; [by intros q Hq; apply Hsub, I2|].
    split; [|split].
    + intros p0 Hp0 Hrm q Hq. apply elem_of_cons in Hp0 as [->|Hp0].
      * destruct (Hrem Hrm) as [_ Hqs]. apply I2 in Hq. rewrite Hqs in Hq.
        by apply drop_queue_gone in Hq.
      * eapply I3; [done| |done]. by apply (removable_answers _ _ _ Hsame).
    + intros q Hq Hfree. apply I5.
      * destruct (decide (removable (cups d) p)) as [Hrm|Hrm].
        -- destruct (Hrem Hrm) as [_ ->]. unfold drop_queue.
           apply list_elem_of_filter. split; [|done].
           apply Hfree; [by left|done].
        -- by rewrite (Hstay Hrm).
      * intros p0 Hp0 Hrm. apply Hfree; [by right|].
        by apply (removable_answers _ _ _ Hsame).
    + intros p' Hp'. apply I4 in Hp' as [Hin|(p0 & Hp0 & -> & Hd & Hnr)].
      * apply elem_of_app in Hin as [Hin|Hin]; [by left|].
        destruct r as [p1|]; simpl in Hin; [|by inversion Hin].
        apply list_elem_of_singleton in Hin as ->.
        destruct (Hkept p1 eq_refl) as (-> & Hd & Hnr).
        right. exists p. split; [by left|done].
      * right. exists p0. split; [by right|]. split; [done|]. split; [done|].
        intros Hrm. apply Hnr. by apply (removable_answers _ _ _ Hsame).
Qed.

End PassProofs.

(** Claim C3, amended.  The clean-up at the end of [main] hands every entry
    to one last pass as [Disappeared] and due.  The pass deletes the queue of
    every entry that is no duplicate when the spooler is reachable, reports no
    active job for it, does not have it as default and accepts the deletion.
    Every other queue stays, and the entries left behind are exactly such for
    which one of these conditions fails.  No queue is added. *)
Theorem shutdown_cleanup now d :
  let d' := main_cleanup now d in
  Forall (due now) (map (force_disappeared now) (remote_printers d))
  /\ (forall p, p ∈ remote_printers d -> removable (cups d) p ->
      forall q, q ∈ sp_queues (cups d') -> strcaseeq q (name p) = false)
  /\ (forall q, q ∈ sp_queues (cups d) ->
      (forall p, p ∈ remote_printers d -> removable (cups d) p ->
                 strcaseeq q (name p) = false) ->
      q ∈ sp_queues (cups d'))
  /\ (forall p', p' ∈ remote_printers d' ->
      exists p, p ∈ remote_printers d
                /\ p' = set_timeout (now + TIMEOUT_RETRY) (force_disappeared now p)
                /\ duplicate p = false /\ ~ removable (cups d) p)
  /\ (forall q, q ∈ sp_queues (cups d') -> q ∈ sp_queues (cups d)).
Proof.
  simpl.
  assert (Hdue : Forall (due now) (map (force_disappeared now) (remote_printers d))).
  { apply Forall_map, Forall_forall. intros p _. split; [done|].
    simpl. unfold TIMEOUT_IMMEDIATELY. lia. }
  split; [done|].
  unfold main_cleanup, handle_cups_queues. rewrite recheck_timer_cups.
  rewrite recheck_timer_printers. simpl remote_printers.
  match goal with
  | |- context [queues_loop now [] ?todo ?d0] =>
      destruct (final_loop now todo [] d0 Hdue) as (_ & H2 & H3 & H5 & H4)
  end.
  simpl in H2, H3, H4, H5.
  split; [|split; [|split]].
  - intros p Hp Hrm q Hq.
    apply (H3 (force_disappeared now p)); [|done|done].
    apply list_elem_of_fmap. by exists p.
  - intros q Hq Hfree. apply H5; [done|].
    intros p0 Hp0 Hrm. apply list_elem_of_fmap in Hp0 as (p & -> & Hp).
    by apply (Hfree p).
  - intros p' Hp'. apply H4 in Hp' as [Hin|(p0 & Hp0 & -> & Hd & Hnr)];
      [by inversion Hin|].
    apply list_elem_of_fmap in Hp0 as (p & -> & Hp).
    exists p. done.
  - done.
Qed.

(** Claim C3 as stated fails: a provisioned queue with an active job is
    still there after the clean-up, and no deletion was requested. *)
Lemma busy_queue_survives_shutdown :
  let d := office_confirmed (busy_spooler []) in
  let d' := main_cleanup 300 d in
  sp_queues (cups d) = ["Office"]
  /\ sp_queues (cups d') = ["Office"]
  /\ no_delete (sp_calls (cups d')).
Proof.
  split; [vm_compute; reflexivity|]. split; [vm_compute; reflexivity|].
  intros q Hq. vm_compute in Hq.
  repeat (apply elem_of_cons in Hq as [?|Hq]; [done|]). by inversion Hq.
Qed.

(** The amended claim C3 at work: with an idle spooler the queue is gone. *)
Lemma shutdown_cleanup_witness :
  let d := office_confirmed (idle_spooler []) in
  remote_printers d <> [] /\ sp_queues (cups d) = ["Office"]
  /\ sp_queues (cups (main_cleanup 300 d)) = [].
Proof.
  intros d.
  assert (Hrp : exists p, remote_printers d = [p] /\ name p = "Office"
                          /\ removable (cups d) p).
  { eexists. split; [vm_compute; reflexivity|].
    split; [reflexivity|]. repeat split; vm_compute; reflexivity. }
  assert (Hqs : sp_queues (cups d) = ["Office"]) by (vm_compute; reflexivity).
  destruct Hrp as (p & Hrp & Hname & Hrm).
  split; [by rewrite Hrp|]. split; [exact Hqs|].
  destruct (shutdown_cleanup 300 d) as (_ & Hgone & _ & _ & Hsub).
  rewrite Hrp, Hqs in *.
  destruct (sp_queues (cups (main_cleanup 300 d))) as [|q l]; [done|]. exfalso.
  assert (Hq : q ∈ q :: l) by (by left).
  pose proof (Hsub q Hq) as Hin. apply list_elem_of_singleton in Hin as ->.
  specialize (Hgone p (list_elem_of_here _ _) Hrm "Office" Hq).
  by rewrite Hname in Hgone.
Defined.

Lemma rescheduled_set t p : rescheduled t p (set_timeout t p).
Proof. by repeat split. Qed.

(** Claim C4.  For a [Disappeared] entry whose deadline has passed: a
    duplicate is removed without any request to the spooler; otherwise, if
    the spooler cannot be reached the entry is kept with the deadline
    now + retry; with the spooler reachable, active jobs (or a failed job
    query) or being the system default keep the entry [Disappeared] with
    deadline now + retry and no deletion is requested; with no jobs and not
    default the deletion is requested, and the entry is removed when it
    succeeds and kept with the deadline now + retry when it fails.  An
    entry that is kept differs from the one before in its deadline only. *)
Theorem guarded_removal bt now p s :
  status p = STATUS_DISAPPEARED ->
  timeout p <= now ->
  (duplicate p = true -> handle_entry bt now p s = (None, s))
  /\ (duplicate p = false -> sp_reachable s = false ->
      exists p',
        handle_entry bt now p s = (Some p', call Connect s)
        /\ rescheduled (now + TIMEOUT_RETRY) p p')
  /\ (duplicate p = false -> sp_reachable s = true ->
      (sp_active_jobs s (name p) <> 0 \/ is_default s p = true ->
       exists p' s' calls,
         handle_entry bt now p s = (Some p', s')
         /\ rescheduled (now + TIMEOUT_RETRY) p p'
         /\ sp_queues s' = sp_queues s
         /\ sp_calls s' = sp_calls s ++ calls
         /\ no_delete calls)
      /\ (sp_active_jobs s (name p) = 0 -> is_default s p = false ->
          exists s',
            sp_calls s'
            = sp_calls s ++ [Connect; GetJobs (name p); GetDefault; DeletePrinter p]
            /\ if sp_delete_ok s (name p)
               then handle_entry bt now p s = (None, s')
                    /\ sp_queues s' = drop_queue (name p) (sp_queues s)
               else exists p',
                      handle_entry bt now p s = (Some p', s')
                      /\ rescheduled (now + TIMEOUT_RETRY) p p'
                      /\ sp_queues s' = sp_queues s)).
Proof.
  intros Hst Hdue. rewrite handle_entry_disappeared by done.
  unfold case_disappeared.
  destruct (Z.gtb_spec (timeout p) now) as [?|_]; [lia|].
  split; [|split].
  { intros ->. done. }
  { intros Hdup Hreach. rewrite Hdup. simpl. rewrite Hreach. simpl.
    eexists. split; [reflexivity|apply rescheduled_set]. }
  intros Hdup Hreach. rewrite Hdup. simpl. rewrite Hreach. simpl. split.
  - intros Hguard.
    destruct (Z.eqb_spec (sp_active_jobs s (name p)) 0) as [Hjobs|Hjobs]; simpl.
    + destruct Hguard as [?|Hdef]; [done|].
      rewrite !is_default_call, Hdef.
      eexists _, _, [Connect; GetJobs (name p); GetDefault].
      split; [reflexivity|]. split; [apply rescheduled_set|].
      simpl. rewrite <- !app_assoc. simpl.
      repeat split; try done.
      intros q Hq. repeat (apply elem_of_cons in Hq as [?|Hq]; [done|]).
      by inversion Hq.
    + eexists _, _, [Connect; GetJobs (name p)].
      split; [reflexivity|]. split; [apply rescheduled_set|].
      simpl. rewrite <- !app_assoc. simpl.
      repeat split; try done.
      intros q Hq. repeat (apply elem_of_cons in Hq as [?|Hq]; [done|]).
      by inversion Hq.
  - intros Hjobs Hdef. rewrite Hjobs. simpl.
    rewrite !is_default_call, Hdef.
    destruct (sp_delete_ok s (name p)); simpl.
    + eexists. split; [|split; reflexivity]. simpl.
      by rewrite <- !app_assoc.
    + eexists. split;
        [|eexists; split; [reflexivity|split; [apply rescheduled_set|done]]].
      simpl. by rewrite <- !app_assoc.
Qed.

(** Claim C4 at work: an entry whose queue has an active job is kept, to
    be looked at again at 110. *)
Lemma guarded_removal_witness :
  let p := RemotePrinter "Office" office_uri None None None
             STATUS_DISAPPEARED 99 false "srv" "Office @ srv" "_ipp._tcp"
             "local" in
  exists p' s' calls,
    handle_entry 300 100 p (busy_spooler ["Office"]) = (Some p', s')
    /\ rescheduled 110 p p'
    /\ sp_queues s' = sp_queues (busy_spooler ["Office"])
    /\ sp_calls s' = sp_calls (busy_spooler ["Office"]) ++ calls
    /\ no_delete calls.
Proof.
  intros p.
  assert (Hdue : timeout p <= 100) by (vm_compute; discriminate).
  destruct (guarded_removal 300 100 p (busy_spooler ["Office"]) eq_refl Hdue)
    as (_ & _ & H).
  destruct (H eq_refl eq_refl) as [Hbusy _].
  apply Hbusy. left. vm_compute. discriminate.
Defined.

Section ProvisionProofs.

Lemma only_primaries_app c1 c2 :
  only_primaries c1 -> only_primaries c2 -> only_primaries (c1 ++ c2).
Proof.
  intros H1 H2 q f Hin. apply elem_of_app in Hin as [?|?]; eauto.
Qed.

Lemma only_primaries_nil : only_primaries [].
Proof. intros q f Hin. by inversion Hin. Qed.

Lemma only_primaries_other c :
  (forall q f, c <> AddModifyPrinter q f) -> only_primaries [c].
Proof.
  intros Hc q f Hin. apply list_elem_of_singleton in Hin. by destruct (Hc q f).
Qed.

Lemma only_primaries_add q f :
  duplicate q = false -> only_primaries [AddModifyPrinter q f].
Proof.
  intros Hq q' f' Hin. apply list_elem_of_singleton in Hin. congruence.
Qed.

(** What one step of the pass adds to the requests. *)
Lemma handle_entry_calls bt now p s :
  exists calls,
    sp_calls (handle_entry bt now p s).2 = sp_calls s ++ calls
    /\ only_primaries calls.
Proof.
  assert (Hnone : exists calls, sp_calls s = sp_calls s ++ calls
                                /\ only_primaries calls).
  { exists []. split; [by rewrite app_nil_r|apply only_primaries_nil]. }
  assert (Hdis : forall q, exists calls,
             sp_calls (case_disappeared now q s).2 = sp_calls s ++ calls
             /\ only_primaries calls).
  { intros q. unfold case_disappeared.
    repeat (match goal with
            | |- context [if ?c then _ else _] => destruct c
            end; simpl; try exact Hnone).
    all: rewrite <- ?app_assoc; simpl; eexists; split; [reflexivity|].
    all: intros q' f' Hin;
      repeat (apply elem_of_cons in Hin as [?|Hin]; [done|]);
      by inversion Hin. }
  unfold handle_entry. destruct (status p).
  - unfold case_unconfirmed.
    destruct (timeout p >? now); [exact Hnone|apply Hdis].
  - exact Hnone.
  - unfold case_to_be_created.
    destruct (duplicate p) eqn:Hdup; [exact Hnone|].
    destruct (timeout p >? now); [exact Hnone|].
    destruct (sp_reachable (call Connect s)); simpl;
      [|exists [Connect]; split; [done|by apply only_primaries_other]].
    set (p1 := match model p with
               | Some m => set_ppd (sp_server_ppd s m) p
               | None => p
               end).
    assert (Hp1 : duplicate p1 = false).
    { unfold p1. by destruct (model p). }
    destruct (match ppd p1 with
              | Some f =>
                  (match model p1 with
                   | Some _ => set_ppd None p1
                   | None => p1
                   end, Some f)
              | None =>
                  match ifscript p1 with
                  | Some f => (set_ifscript None p1, Some f)
                  | None => (p1, None)
                  end
              end) as [p2 file].
    exists [Connect; AddModifyPrinter p1 file].
    split.
    + destruct (sp_add_ok s (name p)); simpl;
        [destruct (decide (status p = STATUS_BROWSE_PACKET_RECEIVED))|];
        simpl; by rewrite <- app_assoc.
    + apply (only_primaries_app [Connect] [_]).
      * by apply only_primaries_other.
      * by apply only_primaries_add.
  - unfold case_to_be_created.
    destruct (duplicate p) eqn:Hdup; [exact Hnone|].
    destruct (timeout p >? now); [exact Hnone|].
    destruct (sp_reachable (call Connect s)); simpl;
      [|exists [Connect]; split; [done|by apply only_primaries_other]].
    set (p1 := match model p with
               | Some m => set_ppd (sp_server_ppd s m) p
               | None => p
               end).
    assert (Hp1 : duplicate p1 = false).
    { unfold p1. by destruct (model p). }
    destruct (match ppd p1 with
              | Some f =>
                  (match model p1 with
                   | Some _ => set_ppd None p1
                   | None => p1
                   end, Some f)
              | None =>
                  match ifscript p1 with
                  | Some f => (set_ifscript None p1, Some f)
                  | None => (p1, None)
                  end
              end) as [p2 file].
    exists [Connect; AddModifyPrinter p1 file].
    split.
    + destruct (sp_add_ok s (name p)); simpl;
        [destruct (decide (status p = STATUS_BROWSE_PACKET_RECEIVED))|];
        simpl; by rewrite <- app_assoc.
    + apply (only_primaries_app [Connect] [_]).
      * by apply only_primaries_other.
      * by apply only_primaries_add.
  - apply Hdis.
Qed.

Lemma queues_loop_calls now todo :
  forall seen d,
    exists calls,
      sp_calls (cups (queues_loop now seen todo d))
      = sp_calls (cups d) ++ calls
      /\ only_primaries calls.
Proof.
  induction todo as [|p rest IH]; intros seen d; simpl.
  - exists []. split; [by rewrite app_nil_r|apply only_primaries_nil].
  - destruct (handle_entry_calls (BrowseTimeout d) now p (cups d))
      as (c1 & Hc1 & Hp1).
    destruct (handle_entry (BrowseTimeout d) now p (cups d)) as [[p'|] s];
      simpl in Hc1.
    + destruct (IH (seen ++ [p']) (with_cups s d)) as (c2 & Hc2 & Hp2).
      exists (c1 ++ c2). split; [|by apply only_primaries_app].
      rewrite Hc2. simpl. by rewrite Hc1, app_assoc.
    + match goal with
      | |- context [queues_loop now seen rest ?d0] =>
          destruct (IH seen d0) as (c2 & Hc2 & Hp2)
      end.
      exists (c1 ++ c2). split; [|by apply only_primaries_app].
      rewrite Hc2.
      destruct (schedule_shutdown_frame (length seen + length rest)
                  (with_cups s d)) as (_ & _ & _ & _ & -> & _).
      simpl. by rewrite Hc1, app_assoc.
Qed.

End ProvisionProofs.

(** Claim C5.  A duplicate entry waiting to be created is kept without
    any request to the spooler, with no deadline ([NEVER]) and otherwise as
    it was, and every create-or-modify request a reconciliation pass sends
    is for an entry that is no duplicate. *)
Theorem duplicates_never_provisioned :
  (forall bt now p s,
     status p = STATUS_TO_BE_CREATED
     \/ status p = STATUS_BROWSE_PACKET_RECEIVED ->
     duplicate p = true ->
     exists p',
       handle_entry bt now p s = (Some p', s)
       /\ rescheduled NEVER p p')
  /\ (forall current_time now d,
        exists calls,
          sp_calls (cups (handle_cups_queues current_time now d))
          = sp_calls (cups d) ++ calls
          /\ forall q file,
               AddModifyPrinter q file ∈ calls -> duplicate q = false).
Proof.
  split.
  - intros bt now p s [Hst|Hst] Hdup; unfold handle_entry; rewrite Hst;
      unfold case_to_be_created; rewrite Hdup;
      (eexists; split; [reflexivity|apply rescheduled_set]).
  - intros current_time now d. unfold handle_cups_queues.
    rewrite recheck_timer_cups. apply queues_loop_calls.
Qed.

(** Claim C5 at work: a duplicate scheduled for creation, its deadline
    past, is left without a deadline and the spooler without a request. *)
Lemma duplicates_never_provisioned_witness :
  let p := RemotePrinter "Office" "ipp://srv2.local:631/printers/Office" None
             None None STATUS_TO_BE_CREATED 99 true "srv2" "Office @ srv2"
             "_ipp._tcp" "local" in
  exists p',
    handle_entry 300 100 p (idle_spooler ["Office"])
    = (Some p', idle_spooler ["Office"])
    /\ rescheduled (-1) p p'.
Proof.
  intros p.
  apply (proj1 duplicates_never_provisioned 300 100 p (idle_spooler ["Office"]));
    [left|]; vm_compute; reflexivity.
Defined.

(** ** The resolver *)

Section StringProofs.

Lemma tolower_nul c : tolower c = NUL -> c = NUL.
Proof. destruct c as [[] [] [] [] [] [] [] []]; vm_compute; congruence. Qed.

Lemma uchar_val_inj c d : uchar_val c = uchar_val d -> c = d.
Proof.
  unfold uchar_val. intros H. apply N2Z.inj in H.
  rewrite <- (ascii_N_embedding c), <- (ascii_N_embedding d). by rewrite H.
Qed.

Lemma uchar_val_nul c : uchar_val c = 0 -> c = NUL.
Proof. intros H. by apply uchar_val_inj. Qed.

Lemma casecmp_eq a b :
  no_nul a -> no_nul b ->
  casecmp a b = 0 <-> map tolower a = map tolower b.
Proof.
  intros Ha. revert b. induction Ha as [|c a Hc Ha IH]; intros b Hb.
  - destruct Hb as [|d b Hd Hb]; simpl; [done|].
    split; [|done]. intros H.
    assert (uchar_val (tolower d) = 0) as H0 by lia.
    by apply uchar_val_nul, tolower_nul in H0.
  - destruct Hb as [|d b Hd Hb]; simpl.
    + split; [|done]. intros H. by apply uchar_val_nul, tolower_nul in H.
    + destruct (decide (tolower c = tolower d)) as [E|E].
      * rewrite IH by done. rewrite E. split; [by intros ->|by inversion 1].
      * split; [|by inversion 1]. intros H.
        assert (uchar_val (tolower c) = uchar_val (tolower d)) as H0 by lia.
        by apply uchar_val_inj in H0.
Qed.

Lemma strcaseeq_folded a b : strcaseeq a b = true <-> folded a = folded b.
Proof.
  unfold strcaseeq, strcasecmp, folded. rewrite Z.eqb_eq.
  apply casecmp_eq; apply until_nul_no_nul.
Qed.

Lemma strcaseeq_sym a b : strcaseeq a b = strcaseeq b a.
Proof.
  apply eq_true_iff_eq. rewrite !strcaseeq_folded. split; congruence.
Qed.

Lemma strcaseeq_trans a b c :
  strcaseeq a b = true -> strcaseeq b c = true -> strcaseeq a c = true.
Proof. rewrite !strcaseeq_folded. congruence. Qed.

End StringProofs.

Section UniqueProofs.

Lemma primaries_add n p a :
  length (primaries n (cupsArrayAdd p a)) = length (primaries n (p :: a)).
Proof.
  unfold primaries. induction a as [|q a IH]; simpl; [done|].
  destruct (compare_remote_printers p q <? 0); [done|].
  rewrite (filter_cons _ q), (filter_cons _ p), (filter_cons _ q).
  rewrite (filter_cons _ p) in IH.
  destruct (decide (primary_for n q)), (decide (primary_for n p));
    simpl in *; lia.
Qed.

Lemma primaries_insert n i p p' a :
  a !! i = Some p ->
  (primary_for n p' <-> primary_for n p) ->
  length (primaries n (<[i := p']> a)) = length (primaries n a).
Proof.
  unfold primaries. revert i. induction a as [|q a IH]; intros i Hi Hiff; [done|].
  destruct i as [|i]; simpl in *.
  - injection Hi as ->. rewrite !filter_cons.
    destruct (decide (primary_for n p')), (decide (primary_for n p));
      simpl; tauto.
  - rewrite !filter_cons. specialize (IH i Hi Hiff).
    destruct (decide (primary_for n q)); simpl; lia.
Qed.

Lemma primaries_none n a :
  (forall q, q ∈ a -> ~ primary_for n q) -> primaries n a = [].
Proof.
  unfold primaries. induction a as [|x a IH]; intros Hall; [done|].
  rewrite filter_cons_False by (apply Hall; by left).
  apply IH. intros y Hy. apply Hall. by right.
Qed.

Lemma add_entry_printers p a d :
  remote_printers (add_entry p a d).1 = cupsArrayAdd p a.
Proof.
  unfold add_entry. simpl.
  destruct (autoshutdown_exec_id d); simpl; [|done].
  by destruct (autoshutdown d && (0 <? Z.of_nat (length (cupsArrayAdd p a)))).
Qed.

(** Adding an entry for a CUPS queue when no entry of that name can take
    the announcement. *)
Lemma create_cups_unique now probe n u h info t dm pdl_ mm d rh :
  unique (remote_printers d) ->
  first_index (matches n rh) (remote_printers d) = None ->
  unique (remote_printers
            (create_local_queue now probe n u h info t dm pdl_ mm true d).1).
Proof.
  intros Huniq Hnomatch m. unfold create_local_queue.
  set (p := RemotePrinter n u None None None STATUS_TO_BE_CREATED
              (now + TIMEOUT_IMMEDIATELY) false h info t dm).
  destruct (first_index (same_name n) (remote_printers d)) as [i|] eqn:Hfirst.
  - apply first_index_Some in Hfirst as (q & Hq & Hsame). rewrite Hq.
    assert (Hin : q ∈ remote_printers d) by (by eapply list_elem_of_lookup_2).
    pose proof (first_index_None _ _ Hnomatch q Hin) as Hm.
    unfold matches, same_name in *. rewrite Hsame in Hm. simpl in Hm.
    apply orb_false_iff in Hm as [Hm _]. apply orb_false_iff in Hm as [Hm Hd].
    apply orb_false_iff in Hm as [_ Hu].
    rewrite bool_decide_eq_false in Hu, Hd.
    rewrite !bool_decide_eq_true_2 by done. simpl andb. cbv iota.
    rewrite add_entry_printers, primaries_add.
    unfold primaries. rewrite filter_cons_False; [apply Huniq|].
    by intros [_ ?].
  - rewrite add_entry_printers, primaries_add.
    unfold primaries. rewrite filter_cons.
    destruct (decide (primary_for m p)) as [[Hp _]|_]; [|apply Huniq].
    simpl. fold (primaries m (remote_printers d)).
    rewrite primaries_none; [done|].
    intros q Hq [Hqm _].
    pose proof (first_index_None _ _ Hfirst q Hq) as Hne.
    unfold same_name in Hne. simpl in Hp.
    rewrite (strcaseeq_trans (name q) m n) in Hne; [done|done|].
    by rewrite strcaseeq_sym.
Qed.

Lemma update_entry_keeps now u rh n t dm p p' :
  update_entry now u rh n t dm p = Some p' ->
  name p' = name p /\ duplicate p' = duplicate p.
Proof.
  unfold update_entry. destruct (uri_changed (uri p) u) as [ch|]; [|done].
  simpl. intros [= <-].
  destruct (ipps_upgrade t p || ch); simpl; [done|].
  by destruct (bool_decide (status p = STATUS_UNCONFIRMED)
               || bool_decide (status p = STATUS_DISAPPEARED)).
Qed.

Lemma classify_cups resource dm txt c :
  cups_originated resource = true ->
  classify resource dm txt = Some c -> is_cups_queue c = true.
Proof.
  unfold cups_originated, classify. intros H.
  destruct (strncasecmp resource "printers/" 9 =? 0).
  - destruct (raw_queue txt dm); [done|]. by intros [= <-].
  - simpl in H. rewrite H. by intros [= <-].
Qed.

Lemma unique_short a : (length a <= 1)%nat -> unique a.
Proof.
  intros Hlen n. unfold primaries.
  etrans; [apply length_filter|done].
Qed.

End UniqueProofs.

(** Claim C1, amended.  Resolving an announcement of a CUPS queue (resource
    [printers/...] or [classes/...]) returns and keeps the registry with at
    most one non-duplicate entry per queue name, provided the URIs involved
    contain a colon. *)
Theorem cups_announce_keeps_unique
    (assemble : string -> string -> Z -> string -> string)
    now local_printers probe host_ port resource name_ type_ domain_ txt d :
  cups_originated resource = true ->
  unique (remote_printers d) ->
  (forall p, p ∈ remote_printers d -> is_Some (strchr (uri p) ":")) ->
  is_Some (strchr (device_uri_for assemble host_ port resource type_) ":") ->
  exists d' r,
    generate_local_queue assemble now local_printers probe host_ port resource
      name_ type_ domain_ txt d = Some (d', r)
    /\ unique (remote_printers d').
Proof.
  intros Hcups Huniq Hwf Huri. unfold generate_local_queue.
  destruct (classify resource domain_ txt) as [c|] eqn:Hc; [|by eexists _, _].
  apply (classify_cups _ _ _ _ Hcups) in Hc as Hq.
  destruct (local_queue_name_for _ _ c _) as [lqn|]; [|by eexists _, _].
  destruct (negb (negb (local_printer_has_uri _ local_printers)));
    [by eexists _, _|].
  destruct (first_index (matches lqn (remote_host_of host_)) (remote_printers d))
    as [i|] eqn:Hfound.
  - destruct (remote_printers d !! i) as [p|] eqn:Hp; [|by eexists _, _].
    assert (Hin : p ∈ remote_printers d) by (by eapply list_elem_of_lookup_2).
    destruct (Hwf p Hin) as [x Hx]. destruct Huri as [y Hy].
    destruct (update_entry now _ _ name_ type_ domain_ p) as [p'|] eqn:Hup.
    2: { unfold update_entry, uri_changed in Hup. by rewrite Hx, Hy in Hup. }
    simpl. eexists _, _. split; [done|]. simpl.
    apply update_entry_keeps in Hup as [Hn Hd].
    intros n. rewrite (primaries_insert n i p p'); [apply Huniq|done|].
    unfold primary_for. by rewrite Hn, Hd.
  - rewrite Hq.
    destruct (create_local_queue now probe lqn _ _ name_ type_ domain_ (pdl c)
                (Some (remote_queue c)) true d) as [d' r] eqn:Hcreate.
    eexists _, _. split; [done|].
    change d' with (d', r).1. rewrite <- Hcreate.
    by eapply create_cups_unique.
Qed.

(** Claim C1 as stated fails: two network printers of the same model,
    announced from different hosts, end up as two entries of the same name
    that are both marked as no duplicate. *)
Lemma native_announce_breaks_unique :
  exists d1 d2 r1 r2,
    announce_laser "hosta.local" "Laser @ hosta" (Some laser_txt) ∅
      (started 1 (idle_spooler [])) = Some (d1, r1)
    /\ announce_laser "hostb.local" "Laser @ hostb" (Some laser_txt) ∅ d1
       = Some (d2, r2)
    /\ unique (remote_printers d1)
    /\ ~ unique (remote_printers d2).
Proof.
  eexists _, _, _, _. split; [vm_compute; reflexivity|].
  split; [vm_compute; reflexivity|]. split.
  - apply unique_short. vm_compute. constructor.
  - intros H. specialize (H "HP-LaserJet-400"). vm_compute in H.
    exact (Nat.nle_succ_0 _ (le_S_n _ _ H)).
Qed.

(** The amended claim C1 at work: a second server announcing [Office]. *)
Lemma cups_announce_keeps_unique_witness :
  cups_originated "printers/Office" = true
  /\ unique (remote_printers with_office)
  /\ exists d' r,
       announce_office "srv2.local" "Office @ srv2" office_table with_office
       = Some (d', r)
       /\ unique (remote_printers d').
Proof.
  assert (Hcups : cups_originated "printers/Office" = true)
    by (vm_compute; reflexivity).
  assert (Huniq : unique (remote_printers with_office))
    by (apply unique_short; vm_compute; constructor).
  split; [exact Hcups|]. split; [exact Huniq|].
  apply (cups_announce_keeps_unique plain_uri 100 office_table no_probe
           "srv2.local" 631 "printers/Office" "Office @ srv2" "_ipp._tcp"
           "local" (Some office_txt) with_office Hcups Huniq).
  - apply Forall_forall. vm_compute.
    repeat constructor. eexists. vm_compute. reflexivity.
  - eexists. vm_compute. reflexivity.
Defined.

(** What an announcement does to the first entry of the registry that it
    matches; the entries after it are not looked at.  When a local queue
    already has the URI of the announced printer, the registry is left as
    it is and that entry, if any, is returned.  When none has, an
    announcement that carries the URI of the entry and is no upgrade to
    ipps leaves URI, driver files, name and duplicate mark of the entry as
    they are; a lapsed entry ([Unconfirmed] or [Disappeared]) becomes
    [Confirmed] with deadline [NEVER], any other keeps status and deadline;
    empty identity fields are filled in. *)
Lemma reannouncement_first_match
    (assemble : string -> string -> Z -> string -> string)
    now local_printers probe host_ port resource name_ type_ domain_ txt d c :
  let uri_ := device_uri_for assemble host_ port resource type_ in
  let remote_host := remote_host_of host_ in
  let result :=
    generate_local_queue assemble now local_printers probe host_ port resource
      name_ type_ domain_ txt d in
  classify resource domain_ txt = Some c ->
  (local_printer_has_uri uri_ local_printers = true ->
   result
   = Some (d, first_index (matches (remote_queue c) remote_host)
                (remote_printers d)))
  /\ (local_printer_has_uri uri_ local_printers = false ->
      forall local_queue_name i p,
        local_queue_name_for local_printers true c remote_host
        = Some local_queue_name ->
        first_index (matches local_queue_name remote_host) (remote_printers d)
        = Some i ->
        remote_printers d !! i = Some p ->
        ipps_upgrade type_ p = false ->
        uri_changed (uri p) uri_ = Some false ->
        exists p',
          result
          = Some (with_printers (<[i := p']> (remote_printers d)) d, Some i)
          /\ uri p' = uri p /\ ppd p' = ppd p /\ ifscript p' = ifscript p
          /\ model p' = model p /\ name p' = name p
          /\ duplicate p' = duplicate p
          /\ (if lapsed p
              then status p' = STATUS_CONFIRMED /\ timeout p' = NEVER
              else status p' = status p /\ timeout p' = timeout p)
          /\ host p' = backfill (host p) remote_host
          /\ service_name p' = backfill (service_name p) name_
          /\ type p' = backfill (type p) type_
          /\ domain p' = backfill (domain p) domain_).
Proof.
  intros uri_ remote_host result Hc. unfold result, generate_local_queue.
  fold uri_ remote_host. rewrite Hc. split.
  - intros Hlocal. rewrite Hlocal. simpl negb.
    unfold local_queue_name_for. by rewrite andb_false_l.
  - intros Hlocal local_queue_name i p Hname Hfound Hp Hup Hsame.
    rewrite Hlocal. simpl negb. rewrite Hname, Hfound, Hp. cbv iota.
    unfold update_entry. rewrite Hsame, Hup. simpl.
    eexists. split; [reflexivity|]. unfold lapsed.
    destruct (bool_decide (status p = STATUS_UNCONFIRMED)
              || bool_decide (status p = STATUS_DISAPPEARED)); done.
Qed.

(** The same announcement when the spooler holds no queue with that URI:
    the entry of the previous session is confirmed. *)
Lemma reannouncement_first_match_example :
  let p := RemotePrinter "Office" office_uri None None None
             STATUS_UNCONFIRMED 110 false "" "" "" "" in
  exists p',
    announce_office "srv.local" "Office @ srv" ∅ office_restarted
    = Some (with_printers (<[0%nat := p']> (remote_printers office_restarted))
              office_restarted, Some 0%nat)
    /\ uri p' = uri p /\ ppd p' = ppd p /\ ifscript p' = ifscript p
    /\ model p' = model p /\ name p' = name p /\ duplicate p' = duplicate p
    /\ (status p' = STATUS_CONFIRMED /\ timeout p' = NEVER)
    /\ host p' = "srv" /\ service_name p' = "Office @ srv"
    /\ type p' = "_ipp._tcp" /\ domain p' = "local".
Proof.
  intros p.
  assert (Hc : classify "printers/Office" "local" (Some office_txt)
               = Some (Candidate true "Office" None))
    by (vm_compute; reflexivity).
  destruct (reannouncement_first_match plain_uri 100 ∅ no_probe "srv.local"
              631 "printers/Office" "Office @ srv" "_ipp._tcp" "local"
              (Some office_txt) office_restarted _ Hc) as [_ Hnew].
  apply (Hnew ltac:(vm_compute; reflexivity) "Office" 0%nat p);
    vm_compute; reflexivity.
Defined.

(** Claim C6, which the code does not meet.  [Office] is a queue of the
    previous session: at start-up, at 100, it is entered as [Unconfirmed]
    with the deadline 110, and the spooler holds the queue with its URI.
    The printer is then announced again, by the host and with the URI the
    entry was made for; the announcement matches the entry and is no
    upgrade.  As a local queue has that URI, [generate_local_queue] returns
    the entry as it is: it stays [Unconfirmed] with the deadline 110, and
    the pass at 110 deletes the queue of a printer that is there. *)
Theorem reannouncement_leaves_entry_unconfirmed :
  let p := RemotePrinter "Office" office_uri None None None
             STATUS_UNCONFIRMED 110 false "" "" "" "" in
  let txt := ("rp", Some "printers/Office") :: office_txt in
  remote_printers office_restarted = [p]
  /\ sp_queues (cups office_restarted) = ["Office"]
  /\ matches "Office" (remote_host_of "srv.local") p = true
  /\ uri_changed (uri p)
       (device_uri_for plain_uri "srv.local" 631 "printers/Office" "_ipp._tcp")
     = Some false
  /\ ipps_upgrade "_ipp._tcp" p = false
  /\ generate_local_queue plain_uri 100 office_table no_probe "srv.local" 631
       "printers/Office" "Office @ srv" "_ipp._tcp" "local" (Some txt)
       office_restarted
     = Some (office_restarted, Some 0%nat)
  /\ exists d1,
       resolve_callback_found plain_uri 100 100 office_table no_probe
         "Office @ srv" "_ipp._tcp" "local" "srv.local" 631 txt
         office_restarted
       = Some d1
       /\ remote_printers d1 = [p]
       /\ queue_timers d1 = [Source 1 10 cb_handle_cups_queues]
       /\ remote_printers (handle_cups_queues 110 110 d1) = []
       /\ sp_queues (cups (handle_cups_queues 110 110 d1)) = []
       /\ sp_calls (cups (handle_cups_queues 110 110 d1))
          = [Connect; GetJobs "Office"; GetDefault;
             DeletePrinter
               (RemotePrinter "Office" office_uri None None None
                  STATUS_DISAPPEARED 109 false "" "" "" "")].
Proof.
  do 6 (split; [vm_compute; reflexivity|]).
  eexists. split; [vm_compute; reflexivity|].
  repeat split; vm_compute; reflexivity.
Qed.

(** Claim C9, amended.  An announcement of a network printer that is
    rejected by policy (driverless set-up switched off, or no known page
    description language advertised) leaves the registry as it is and returns
    no entry, provided no entry of the registry matches the announcement. *)
Theorem driverless_policy_rejection
    (assemble : string -> string -> Z -> string -> string)
    now local_printers probe host_ port resource name_ type_ domain_ txt d c :
  let uri_ := device_uri_for assemble host_ port resource type_ in
  let remote_host := remote_host_of host_ in
  classify resource domain_ txt = Some c ->
  is_cups_queue c = false ->
  CreateIPPPrinterQueues d = 0 \/ pdl_rejected (pdl c) = true ->
  (forall n,
     local_queue_name_for local_printers
       (negb (local_printer_has_uri uri_ local_printers)) c remote_host
     = Some n ->
     first_index (matches n remote_host) (remote_printers d) = None) ->
  generate_local_queue assemble now local_printers probe host_ port resource
    name_ type_ domain_ txt d
  = Some (d, None).
Proof.
  intros uri_ remote_host Hc Hnative Hpolicy Hnomatch.
  unfold generate_local_queue. fold uri_ remote_host. rewrite Hc.
  destruct (local_queue_name_for _ _ c remote_host) as [n|] eqn:Hn; [|done].
  rewrite (Hnomatch n eq_refl).
  destruct (negb (negb (local_printer_has_uri uri_ local_printers))); [done|].
  unfold create_local_queue. rewrite Hnative.
  destruct Hpolicy as [->|Hpdl]; [done|].
  rewrite Hpdl. by destruct (CreateIPPPrinterQueues d =? 0).
Qed.

(** Claim C9 as stated fails: with driverless set-up switched off and no
    page description language advertised, the announcement of a network
    printer still rewrites a matching entry of a previous session, and the
    next pass points the local queue at that printer. *)
Lemma rejected_printer_takes_over_entry :
  let p := RemotePrinter "printer" "ipp://hosta.local:631/ipp/print" None None
             None STATUS_UNCONFIRMED 110 false "" "" "" "" in
  let p' := RemotePrinter "printer" "ipp://hostb.local:631/ipp/print" None None
              None STATUS_TO_BE_CREATED 99 false "hostb" "Printer @ hostb"
              "_ipp._tcp" "local" in
  CreateIPPPrinterQueues printer_restarted = 0
  /\ classify "ipp/print" "local" None = Some (Candidate false "printer" None)
  /\ remote_printers printer_restarted = [p]
  /\ (exists d',
        announce_laser "hostb.local" "Printer @ hostb" None printer_table
          printer_restarted = Some (d', Some 0%nat)
        /\ remote_printers d' = [p']
        /\ sp_calls (cups (handle_cups_queues 100 100 d'))
           = [Connect; AddModifyPrinter p' None]).
Proof.
  split; [vm_compute; reflexivity|]. split; [vm_compute; reflexivity|].
  split; [vm_compute; reflexivity|].
  eexists. split; [vm_compute; reflexivity|].
  split; vm_compute; reflexivity.
Qed.

(** The amended claim C9 at work: nothing known under the name yet. *)
Lemma driverless_policy_rejection_witness :
  announce_laser "hostb.local" "Printer @ hostb" None ∅
    (started 0 (idle_spooler []))
  = Some (started 0 (idle_spooler []), None).
Proof.
  apply (driverless_policy_rejection plain_uri 100 ∅ ppd_probe "hostb.local"
           631 "ipp/print" "Printer @ hostb" "_ipp._tcp" "local" None
           (started 0 (idle_spooler [])) (Candidate false "printer" None)).
  - vm_compute. reflexivity.
  - vm_compute. reflexivity.
  - left. vm_compute. reflexivity.
  - intros n _. vm_compute. reflexivity.
Defined.

(** ** Withdrawal of a service *)

(** The service-removal branch when a backup exists: the withdrawn entry
    takes over URI, host and service identity of the backup and is scheduled
    for creation, the backup is scheduled for removal.  The driver files of
    the backup are taken over where it has any. *)
Lemma removal_with_backup now later name_ type_ domain_ d i j A B :
  first_index (same_service name_ type_ domain_) (remote_printers d) = Some i ->
  remote_printers d !! i = Some A ->
  duplicate A = false ->
  first_index (backup_of A) (remote_printers d) = Some j ->
  remote_printers d !! j = Some B ->
  exists A',
    remote_printers
      (browse_callback_remove now later false name_ type_ domain_ d)
    = <[j := set_timeout (now + TIMEOUT_IMMEDIATELY)
               (set_status STATUS_DISAPPEARED B)]>
        (<[i := A']> (remote_printers d))
    /\ name A' = name A /\ duplicate A' = false
    /\ uri A' = uri B /\ host A' = host B
    /\ service_name A' = service_name B /\ type A' = type B
    /\ domain A' = domain B
    /\ status A' = STATUS_TO_BE_CREATED
    /\ timeout A' = now + TIMEOUT_IMMEDIATELY
    /\ (forall f, ppd B = Some f -> ppd A' = Some f)
    /\ (forall f, ifscript B = Some f -> ifscript A' = Some f)
    /\ (ppd A = None -> ppd A' = ppd B).
Proof.
  intros Hi HA Hdup Hj HB. exists (take_over now A B). split.
  - unfold browse_callback_remove. rewrite Hi, HA, Hdup, Hj. simpl.
    rewrite HB. simpl. by rewrite recheck_timer_printers.
  - simpl. repeat split; try done.
    + intros f Hf. by rewrite Hf.
    + intros f Hf. by rewrite Hf.
    + intros ->. by destruct (ppd B).
Qed.

(** The same branch without a backup: the entry is scheduled for removal. *)
Lemma removal_without_backup now later name_ type_ domain_ d i A :
  first_index (same_service name_ type_ domain_) (remote_printers d) = Some i ->
  remote_printers d !! i = Some A ->
  duplicate A = false ->
  first_index (backup_of A) (remote_printers d) = None ->
  remote_printers
    (browse_callback_remove now later false name_ type_ domain_ d)
  = <[i := set_timeout (now + TIMEOUT_REMOVE)
             (set_status STATUS_DISAPPEARED A)]> (remote_printers d).
Proof.
  intros Hi HA Hdup Hj. unfold browse_callback_remove.
  rewrite Hi, HA, Hdup, Hj. simpl. by rewrite recheck_timer_printers.
Qed.

(** Claim C2, which the code does not meet.  A network printer [A] with a
    generated PPD and a duplicate [B] of the same name from a CUPS server:
    when [A] is withdrawn its entry takes URI, host and service identity of
    [B] and is scheduled for creation, [B] is scheduled for removal, but the
    entry keeps the pointer to its own PPD, freed a moment before, although
    [B] has none. *)
Theorem failover_keeps_freed_driver_file :
  let A := RemotePrinter "HP-LaserJet-400" "ipp://hosta.local:631/ipp/print"
             (Some "/tmp/0001.ppd") None None STATUS_CONFIRMED (-1) false
             "hosta" "Laser @ hosta" "_ipp._tcp" "local" in
  let B := RemotePrinter "HP-LaserJet-400"
             "ipp://srvb.local:631/printers/HP-LaserJet-400" None None None
             STATUS_TO_BE_CREATED 149 true "srvb" "Laser @ srvb" "_ipp._tcp"
             "local" in
  remote_printers laser_and_backup = [A; B]
  /\ remote_printers
       (browse_callback_remove 200 200 false "Laser @ hosta" "_ipp._tcp"
          "local" laser_and_backup)
     = [RemotePrinter "HP-LaserJet-400" (uri B) (Some "/tmp/0001.ppd") None
          None STATUS_TO_BE_CREATED 199 false (host B) (service_name B)
          (type B) (domain B);
        set_timeout 199 (set_status STATUS_DISAPPEARED B)].
Proof. split; vm_compute; reflexivity. Qed.

(** * Further properties of the code *)

(** ** The sanitizer: shape of the result, fixed points, memory accesses *)

Section SanitizerShape.

Lemma no_dash_pair_cons c l :
  no_dash_pair (c :: l) <-> (c = dash -> head l <> Some dash) /\ no_dash_pair l.
Proof.
  unfold no_dash_pair. split.
  - intros H. split.
    + intros -> Hh. apply (H 0%nat); [done|]. by destruct l.
    + intros i Hi. apply (H (S i)). done.
  - intros [H1 H2] [|i] Hi; simpl in *.
    + injection Hi as ->. destruct l; [done|]. apply H1; done.
    + by apply H2.
Qed.

Lemma no_dash_pair_nil : no_dash_pair [].
Proof. by intros i. Qed.

Lemma collapse_chars mode s :
  Forall (fun c => allowed mode c = true \/ c = dash) (collapse mode s).
Proof.
  induction s as [|c s IH]; simpl; [constructor|].
  destruct (kept mode c) eqn:Hk.
  - constructor; [left; by rewrite allowed_kept|done].
  - destruct s as [|c' s']; [repeat constructor; by right|].
    destruct (kept mode c'); [constructor; [by right|done]|done].
Qed.

Lemma collapse_head_dash mode s :
  head (collapse mode s) = Some dash -> exists c s', s = c :: s' /\ kept mode c = false.
Proof.
  destruct s as [|c s]; simpl; [done|].
  destruct (kept mode c) eqn:Hk; [|by eauto].
  simpl. intros [= ->]. rewrite <- allowed_kept in Hk.
  by apply allowed_not_dash in Hk.
Qed.

Lemma collapse_no_pair mode s : no_dash_pair (collapse mode s).
Proof.
  induction s as [|c s IH]; [apply no_dash_pair_nil|].
  simpl. destruct (kept mode c) eqn:Hk.
  - apply no_dash_pair_cons. split; [|done].
    intros ->. rewrite <- allowed_kept in Hk.
    by apply allowed_not_dash in Hk.
  - destruct s as [|c' s']; [by intros [|[|i]]|].
    destruct (kept mode c') eqn:Hk'; [|done].
    apply no_dash_pair_cons. split; [|done].
    intros _ Hh. apply collapse_head_dash in Hh as (x & ? & [= <- <-] & Hx).
    congruence.
Qed.

Lemma no_dash_pair_drop n l : no_dash_pair l -> no_dash_pair (drop n l).
Proof.
  intros H i. rewrite !lookup_drop. replace (n + S i)%nat with (S (n + i)) by lia.
  apply H.
Qed.

Lemma no_dash_pair_take n l : no_dash_pair l -> no_dash_pair (take n l).
Proof.
  intros H i Hi Hs.
  apply lookup_take_Some in Hi as [Hi ?]. apply lookup_take_Some in Hs as [Hs ?].
  by apply (H i).
Qed.

Lemma strip_trailing_take s :
  strip_trailing s = take (length s - dashes (rev s)) s.
Proof.
  unfold strip_trailing. rewrite strip_leading_drop.
  by rewrite skipn_rev, rev_involutive.
Qed.

Lemma strip_leading_head s : head (strip_leading s) <> Some dash.
Proof.
  induction s as [|c s IH]; simpl; [done|].
  destruct (decide (c = dash)); [done|]. simpl. congruence.
Qed.

Lemma last_rev_head (l : list ascii) : last (rev l) = head l.
Proof. destruct l as [|c l]; [done|]. simpl. by rewrite last_snoc. Qed.

Lemma strip_trailing_last s : last (strip_trailing s) <> Some dash.
Proof. unfold strip_trailing. rewrite last_rev_head. apply strip_leading_head. Qed.

Lemma last_drop_Some (l : list ascii) n c :
  last (drop n l) = Some c -> last l = Some c.
Proof.
  rewrite !last_lookup, lookup_drop, length_drop. intros H.
  assert (n + pred (length l - n) < length l)%nat by (by apply lookup_lt_Some in H).
  rewrite <- H. f_equal. lia.
Qed.

Lemma sanitized_well_formed mode cs :
  well_formed mode (strip_leading (strip_trailing (collapse mode cs))).
Proof.
  repeat split.
  - rewrite strip_leading_drop. apply Forall_drop.
    rewrite strip_trailing_take. apply Forall_take, collapse_chars.
  - apply strip_leading_head.
  - rewrite strip_leading_drop. intros H. apply last_drop_Some in H.
    by apply strip_trailing_last in H.
  - rewrite strip_leading_drop. apply no_dash_pair_drop.
    rewrite strip_trailing_take. apply no_dash_pair_take, collapse_no_pair.
Qed.

Lemma sanitized_length mode cs :
  (length (strip_leading (strip_trailing (collapse mode cs))) <= length cs)%nat.
Proof.
  etrans; [apply strip_leading_length|].
  etrans; [apply strip_trailing_length|].
  rewrite <- (proj1 (squeeze_collapse mode cs)). apply squeeze_length.
Qed.

Lemma allowed_not_nul mode c : allowed mode c = true -> c <> NUL.
Proof.
  intros H ->. unfold allowed in H.
  change (char_val NUL) with 0 in H.
  repeat match type of H with
         | context [char_val ?c] =>
             let v := eval vm_compute in (char_val c) in
             change (char_val c) with v in H
         end.
  simpl in H. rewrite andb_false_r in H. done.
Qed.

Lemma well_formed_no_nul mode l : well_formed mode l -> no_nul l.
Proof.
  intros [H _]. unfold no_nul. eapply Forall_impl; [exact H|].
  intros c [Hc| ->]; [by eapply allowed_not_nul|apply dash_not_nul].
Qed.

Lemma until_nul_id l : no_nul l -> until_nul l = l.
Proof.
  induction 1 as [|c l Hc _ IH]; simpl; [done|].
  destruct (decide (c = NUL)); [done|]. by rewrite IH.
Qed.

Lemma chars_of_list l : no_nul l -> chars (string_of_list_ascii l) = l.
Proof.
  intros H. unfold chars. rewrite list_ascii_of_string_of_list_ascii.
  by apply until_nul_id.
Qed.

(** A dash of a well-formed name stands between two allowed characters, so
    the first loop copies the name as it is. *)
Lemma collapse_fixed mode l :
  Forall (fun c => allowed mode c = true \/ c = dash) l ->
  no_dash_pair l -> last l <> Some dash ->
  collapse mode l = l.
Proof.
  induction 1 as [|c l Hc Hl IH]; intros Hp Hlast; [done|].
  apply no_dash_pair_cons in Hp as [Hh Hp].
  assert (Hlast' : l <> [] -> last l <> Some dash).
  { intros Hne. destruct l; [done|]. exact Hlast. }
  simpl. destruct (kept mode c) eqn:Hk.
  - f_equal. destruct l as [|c' l']; [done|]. apply IH; [done|by apply Hlast'].
  - destruct Hc as [Hc| ->]; [rewrite allowed_kept in Hc; congruence|].
    destruct l as [|c' l']; [by destruct Hlast|].
    assert (Hc' : kept mode c' = true).
    { inversion Hl as [|? ? [Ha| ->] _]; subst.
      - by rewrite <- allowed_kept.
      - by destruct (Hh eq_refl). }
    rewrite Hc'. f_equal. apply IH; [done|by apply Hlast'].
Qed.

Lemma strip_leading_fixed l : head l <> Some dash -> strip_leading l = l.
Proof.
  destruct l as [|c l]; simpl; [done|].
  destruct (decide (c = dash)) as [->|]; [by intros []|done].
Qed.

Lemma strip_trailing_fixed l : last l <> Some dash -> strip_trailing l = l.
Proof.
  intros H. unfold strip_trailing. rewrite strip_leading_fixed.
  - apply rev_involutive.
  - rewrite <- last_rev_head, rev_involutive. exact H.
Qed.

Lemma sanitize_fixed mode l :
  well_formed mode l ->
  sanitize mode (string_of_list_ascii l) = string_of_list_ascii l.
Proof.
  intros Hwf. pose proof (well_formed_no_nul _ _ Hwf) as Hnn.
  destruct Hwf as (Hc & Hh & Hl & Hp).
  unfold sanitize. rewrite chars_of_list by done.
  rewrite collapse_fixed by done.
  rewrite strip_trailing_fixed by done.
  by rewrite strip_leading_fixed.
Qed.

Lemma stray_accesses_none b mode s :
  (chars s = [] \/ Exists (fun c => allowed mode c = true) (chars s)) ->
  stray_accesses b mode s = [].
Proof.
  unfold stray_accesses. intros [->|H]; [done|].
  destruct (chars s) as [|c cs] eqn:E; [done|].
  destruct (forallb _ _) eqn:Hf; [|done].
  rewrite forallb_forall in Hf. apply Exists_exists in H as (x & Hx & Hax).
  apply list_elem_of_In in Hx. apply Hf in Hx. rewrite Hax in Hx. done.
Qed.

Lemma stray_accesses_well_formed b mode l :
  well_formed mode l -> stray_accesses b mode (string_of_list_ascii l) = [].
Proof.
  intros Hwf. apply stray_accesses_none.
  rewrite chars_of_list by (by eapply well_formed_no_nul).
  destruct Hwf as (Hc & Hh & _). destruct l as [|c l]; [by left|right].
  apply Exists_cons_hd. inversion Hc as [|? ? [Ha| ->] _]; subst; [done|].
  by destruct Hh.
Qed.

End SanitizerShape.

(** Property X1.  Whatever its argument, [remove_bad_chars] returns a name made of
    allowed characters and dashes only, that neither starts nor ends with a
    dash, holds no two dashes in a row, and is not longer than the
    argument. *)
Theorem sanitizer_output_shape b s mode :
  exists r accesses,
    remove_bad_chars b (Some s) mode = Some (Some r, accesses)
    /\ well_formed mode (list_ascii_of_string r)
    /\ (c_strlen r <= c_strlen s)%nat.
Proof.
  rewrite remove_bad_chars_run. eexists _, _. split; [reflexivity|].
  unfold sanitize.
  pose proof (sanitized_well_formed mode (chars s)) as Hwf.
  split.
  - by rewrite list_ascii_of_string_of_list_ascii.
  - unfold c_strlen at 1. rewrite chars_of_list by (by eapply well_formed_no_nul).
    apply sanitized_length.
Qed.

(** Property X2.  The sanitizer is idempotent: run on a name it has returned, it
    returns the same name, and makes no access outside its copy. *)
Theorem sanitizer_idempotent b b' s mode :
  exists r accesses,
    remove_bad_chars b (Some s) mode = Some (Some r, accesses)
    /\ remove_bad_chars b' (Some r) mode = Some (Some r, []).
Proof.
  rewrite remove_bad_chars_run. eexists _, _. split; [reflexivity|].
  rewrite remove_bad_chars_run.
  pose proof (sanitized_well_formed mode (chars s)) as Hwf.
  change (sanitize mode s)
    with (string_of_list_ascii
            (strip_leading (strip_trailing (collapse mode (chars s))))).
  rewrite sanitize_fixed by done.
  by rewrite stray_accesses_well_formed.
Qed.

(** Property X3.  A name that consists of allowed characters only (letters, digits,
    underscore; slash, dot and comma in mode 1) is returned unchanged,
    without any access outside the copy. *)
Theorem sanitizer_keeps_clean_names b s mode :
  Forall (fun c => allowed mode c = true) (list_ascii_of_string s) ->
  remove_bad_chars b (Some s) mode = Some (Some s, []).
Proof.
  intros Hall. rewrite remove_bad_chars_run.
  assert (Hwf : well_formed mode (list_ascii_of_string s)).
  { repeat split.
    - eapply Forall_impl; [exact Hall|]. by left.
    - destruct (list_ascii_of_string s) as [|c l]; [done|]. simpl.
      inversion Hall; subst. intros [= ->]. by eapply allowed_not_dash.
    - intros Hl. apply last_Some in Hl as [l' Hl]. rewrite Hl in Hall.
      apply Forall_app in Hall as [_ Hd]. inversion Hd; subst.
      by eapply allowed_not_dash.
    - intros i Hi _. eapply Forall_lookup_1 in Hall; [|exact Hi].
      by eapply allowed_not_dash. }
  pose proof (sanitize_fixed _ _ Hwf) as Hs.
  pose proof (stray_accesses_well_formed b _ _ Hwf) as Hf.
  rewrite string_of_list_ascii_of_string in Hs, Hf. by rewrite Hs, Hf.
Qed.

Lemma sanitizer_keeps_clean_names_witness :
  remove_bad_chars "x" (Some "Office_1") 0 = Some (Some "Office_1", []).
Proof.
  apply sanitizer_keeps_clean_names. repeat constructor.
Defined.

(** Property X4.  Memory safety of the sanitizer, exactly.  For an empty argument
    and for one with at least one allowed character every access stays
    inside the copy.  For a non-empty argument without any allowed character
    the result is the empty string and the byte just below the copy is read;
    that byte is overwritten exactly when it is a dash.  No other access
    leaves the copy. *)
Theorem sanitizer_memory_safety b s mode :
  exists r accesses,
    remove_bad_chars b (Some s) mode = Some (Some r, accesses)
    /\ (chars s = [] \/ Exists (fun c => allowed mode c = true) (chars s) ->
        accesses = [])
    /\ (chars s <> [] ->
        Forall (fun c => allowed mode c = false) (chars s) ->
        r = EmptyString
        /\ In (ReadBelow (-1)) accesses
        /\ (In (WriteBelow (-1)) accesses <-> b = dash)
        /\ below_only accesses).
Proof.
  rewrite remove_bad_chars_run. eexists _, _. split; [reflexivity|]. split.
  - apply stray_accesses_none.
  - intros Hne Hall. unfold stray_accesses, sanitize.
    destruct (chars s) as [|c cs] eqn:E; [done|].
    assert (Hf : forallb (fun c => negb (allowed mode c)) (c :: cs) = true).
    { apply forallb_forall. intros x Hx. apply list_elem_of_In in Hx.
      eapply Forall_forall in Hall; [|exact Hx]. by rewrite Hall. }
    rewrite Hf. split.
    + assert (Hd : Forall (fun c => c = dash) (collapse mode (c :: cs))).
      { rewrite <- (proj1 (squeeze_collapse mode (c :: cs))).
        by apply squeeze_all_dashes. }
      apply strip_trailing_nil in Hd. by rewrite Hd.
    + unfold underflow, below_only. destruct (decide (b = dash)); simpl.
      * split; [auto|]. split; [split; auto|].
        repeat (apply List.Forall_cons; [auto|]). apply List.Forall_nil.
      * split; [auto|]. split; [split; [intros [?|[]]; done|done]|].
        repeat (apply List.Forall_cons; [auto|]). apply List.Forall_nil.
Qed.

(** ** The reconciliation pass: what it leaves alone, what it removes *)

Section PassFrame.

Lemma handle_entry_name bt now p s p' s' :
  handle_entry bt now p s = (Some p', s') -> name p' = name p.
Proof.
  unfold handle_entry, case_unconfirmed, case_disappeared, case_to_be_created.
  intros H.
  repeat (match type of H with
          | context [match ?x with _ => _ end] => destruct x eqn:?
          | context [if ?x then _ else _] => destruct x eqn:?
          end; simpl in H; try discriminate);
    simplify_eq; simpl; try done;
    repeat match goal with
           | H : context [match ?x with _ => _ end] |- _ =>
               destruct x eqn:?; simpl in *; simplify_eq
           end; try done;
    by destruct (model p).
Qed.

Lemma handle_entry_queues bt now p s r s' :
  handle_entry bt now p s = (r, s') ->
  forall q, q ∈ sp_queues s' -> q ∈ sp_queues s \/ q = name p.
Proof.
  unfold handle_entry, case_unconfirmed, case_disappeared, case_to_be_created.
  intros H q.
  repeat (match type of H with
          | context [match ?x with _ => _ end] => destruct x eqn:?
          | context [if ?x then _ else _] => destruct x eqn:?
          end; simpl in H; try discriminate);
    simplify_eq; simpl; auto;
    try (intros Hq; apply drop_queue_sub in Hq; by left).
  all: rewrite elem_of_cons; intros [->|Hq]; [by right|].
  all: apply drop_queue_sub in Hq; by left.
Qed.

Lemma queues_loop_names now todo :
  forall seen d,
    map name (remote_printers (queues_loop now seen todo d))
      `sublist_of` map name (seen ++ todo).
Proof.
  induction todo as [|p rest IH]; intros seen d; simpl.
  - by rewrite app_nil_r.
  - destruct (handle_entry _ _ _ _) as [[p'|] s] eqn:E.
    + etrans; [apply IH|]. apply handle_entry_name in E.
      rewrite <- app_assoc. simpl. rewrite !map_app. simpl. by rewrite E.
    + etrans; [apply IH|]. rewrite !map_app. simpl.
      apply sublist_app; [done|]. by apply sublist_cons.
Qed.

Lemma schedule_shutdown_cups n d : cups (schedule_shutdown n d) = cups d.
Proof. apply schedule_shutdown_frame. Qed.

Lemma queues_loop_queues now todo :
  forall seen d q,
    q ∈ sp_queues (cups (queues_loop now seen todo d)) ->
    q ∈ sp_queues (cups d) \/ exists p, p ∈ todo /\ q = name p.
Proof.
  induction todo as [|p rest IH]; intros seen d q; simpl; [by left|].
  pose proof (schedule_shutdown_frame (length seen + length rest)) as Hfr.
  destruct (handle_entry _ _ _ _) as [[p'|] s] eqn:E; intros Hq;
    apply IH in Hq as [Hq|(x & Hx & ->)].
  - simpl in Hq. eapply handle_entry_queues in Hq as [Hq| ->]; [| |exact E].
    + by left.
    + right. exists p. split; [left|done].
  - right. exists x. split; [by right|done].
  - rewrite schedule_shutdown_cups in Hq. simpl in Hq.
    eapply handle_entry_queues in Hq as [Hq| ->]; [| |exact E].
    + by left.
    + right. exists p. split; [left|done].
  - right. exists x. split; [by right|done].
Qed.

Lemma handle_entry_idle bt now p s :
  idle now p -> handle_entry bt now p s = (Some p, s).
Proof.
  unfold idle, handle_entry, case_unconfirmed, case_disappeared,
    case_to_be_created.
  intros [Hc|[Ht Hd]]; [by rewrite Hc|].
  assert ((timeout p >? now) = true) as Hgt by lia.
  destruct (status p) eqn:Hs; rewrite ?Hgt; try done;
    destruct Hd as [Hd|[Hd|Hd]]; try discriminate; by rewrite Hd.
Qed.

Lemma queues_loop_idle now todo :
  forall seen d,
    Forall (idle now) todo ->
    queues_loop now seen todo d = with_printers (seen ++ todo) d.
Proof.
  induction todo as [|p rest IH]; intros seen d Hall; simpl.
  - by rewrite app_nil_r.
  - inversion Hall as [|? ? Hp Hrest]; subst.
    rewrite (handle_entry_idle _ _ _ _ Hp). rewrite IH by done.
    rewrite <- app_assoc. by destruct d.
Qed.

End PassFrame.

(** Property X5.  A reconciliation pass never adds an entry and never renames or
    reorders one: the names of the entries after the pass are a sublist of
    the names before it.  Every queue the spooler holds after the pass was
    there before or bears the name of a registry entry. *)
Theorem pass_only_removes_entries now later d :
  let d' := handle_cups_queues now later d in
  map name (remote_printers d') `sublist_of` map name (remote_printers d)
  /\ (length (remote_printers d') <= length (remote_printers d))%nat
  /\ (forall q, q ∈ sp_queues (cups d') ->
        q ∈ sp_queues (cups d)
        \/ exists p, p ∈ remote_printers d /\ q = name p).
Proof.
  unfold handle_cups_queues. simpl.
  rewrite recheck_timer_printers, recheck_timer_cups.
  pose proof (queues_loop_names now (remote_printers d) [] d) as Hsub.
  simpl in Hsub. split; [done|]. split.
  - apply sublist_length in Hsub. by rewrite !length_map in Hsub.
  - apply queues_loop_queues.
Qed.

(** Property X6.  A pass that finds nothing due does nothing: when every entry is
    Confirmed or has its deadline ahead (a duplicate waiting for creation
    apart), the registry and the spooler, its request log included, are
    left as they were. *)
Theorem idle_pass_is_noop now later d :
  Forall (idle now) (remote_printers d) ->
  let d' := handle_cups_queues now later d in
  remote_printers d' = remote_printers d /\ cups d' = cups d.
Proof.
  intros Hall. unfold handle_cups_queues. simpl.
  rewrite recheck_timer_printers, recheck_timer_cups.
  rewrite queues_loop_idle by done. done.
Qed.

Lemma idle_pass_is_noop_witness :
  let d := office_confirmed (idle_spooler []) in
  remote_printers d <> []
  /\ remote_printers (handle_cups_queues 200 201 d) = remote_printers d
  /\ cups (handle_cups_queues 200 201 d) = cups d.
Proof.
  split; [by vm_compute|].
  apply (idle_pass_is_noop 200 201 (office_confirmed (idle_spooler []))).
  vm_compute. repeat constructor.
Defined.

(** An Unconfirmed entry whose deadline has passed, with the spooler ready
    to give the queue up. *)
Lemma unconfirmed_due bt now p s :
  status p = STATUS_UNCONFIRMED -> timeout p <= now -> removable s p ->
  handle_entry bt now p s
  = (None,
     with_queues (drop_queue (name p) (sp_queues s))
       (call (DeletePrinter (force_disappeared now p))
          (call GetDefault (call (GetJobs (name p)) (call Connect s))))).
Proof.
  intros Hs Hle (Hd & Hr & Hj & Hdef & Hok).
  unfold handle_entry. rewrite Hs. unfold case_unconfirmed.
  assert ((timeout p >? now) = false) as -> by lia.
  unfold case_disappeared. simpl.
  assert ((now + TIMEOUT_IMMEDIATELY >? now) = false) as ->
    by (unfold TIMEOUT_IMMEDIATELY; lia).
  rewrite Hd. simpl. rewrite Hr. simpl. rewrite Hj. simpl.
  unfold is_default in *. simpl. rewrite Hdef. simpl. by rewrite Hok.
Qed.

(** Property X7.  A queue of a previous session that nobody confirms is given up:
    once the deadline of an Unconfirmed entry has passed, the pass treats it
    as Disappeared at once, and if the spooler is ready to give the queue up
    it is deleted in the same pass.  Before the deadline nothing happens. *)
Theorem unconfirmed_queue_expires bt now p s :
  status p = STATUS_UNCONFIRMED ->
  (now < timeout p -> handle_entry bt now p s = (Some p, s))
  /\ (timeout p <= now -> removable s p ->
      exists s',
        handle_entry bt now p s = (None, s')
        /\ sp_queues s' = drop_queue (name p) (sp_queues s)
        /\ sp_calls s'
           = sp_calls s ++ [Connect; GetJobs (name p); GetDefault;
                            DeletePrinter (force_disappeared now p)]).
Proof.
  intros Hs. split.
  - intros Hlt. unfold handle_entry. rewrite Hs. unfold case_unconfirmed.
    assert ((timeout p >? now) = true) as -> by lia. done.
  - intros Hle Hrem. rewrite unconfirmed_due by done.
    eexists. split; [reflexivity|]. split; [done|]. simpl.
    by rewrite <- !app_assoc.
Qed.

Lemma unconfirmed_queue_expires_witness :
  let p := RemotePrinter "Office" office_uri None None None
             STATUS_UNCONFIRMED 110 false "" "" "" "" in
  exists s',
    handle_entry 300 110 p (idle_spooler ["Office"]) = (None, s')
    /\ sp_queues s' = drop_queue (name p) (sp_queues (idle_spooler ["Office"]))
    /\ sp_calls s'
       = sp_calls (idle_spooler ["Office"])
         ++ [Connect; GetJobs (name p); GetDefault;
             DeletePrinter (force_disappeared 110 p)].
Proof.
  apply (unconfirmed_queue_expires 300 110
           (RemotePrinter "Office" office_uri None None None
              STATUS_UNCONFIRMED 110 false "" "" "" "")
           (idle_spooler ["Office"])).
  - reflexivity.
  - simpl. lia.
  - by vm_compute.
Defined.



(** Property X9.  A failed set-up loses the interface script.  When the request for
    an entry that is to be set up with a generated interface script is
    refused, the script file is gone and the entry is rescheduled without
    it; the next attempt then asks the spooler for a raw queue, no file
    attached. *)
Theorem failed_script_setup_retried_raw bt now p s script :
  to_create p -> duplicate p = false -> timeout p <= now ->
  model p = None -> ppd p = None -> ifscript p = Some script ->
  sp_reachable s = true -> sp_add_ok s (name p) = false ->
  exists p' s',
    handle_entry bt now p s = (Some p', s')
    /\ sp_calls s' = sp_calls s ++ [Connect; AddModifyPrinter p (Some script)]
    /\ sp_queues s' = sp_queues s
    /\ status p' = status p /\ timeout p' = now + TIMEOUT_RETRY
    /\ ppd p' = None /\ ifscript p' = None
    /\ forall now' s2,
         now + TIMEOUT_RETRY <= now' -> sp_reachable s2 = true ->
         sp_calls (handle_entry bt now' p' s2).2
         = sp_calls s2 ++ [Connect; AddModifyPrinter p' None].
Proof.
  intros Hs Hd Ht Hm Hp Hi Hr Hok.
  assert (Hcase : forall q t, status q = status p ->
            handle_entry bt t q = case_to_be_created bt t q).
  { intros q t Hq. unfold handle_entry. rewrite Hq.
    by destruct Hs as [-> | ->]. }
  rewrite Hcase by done.
  unfold case_to_be_created at 1. rewrite Hd.
  assert ((timeout p >? now) = false) as -> by lia.
  simpl. rewrite Hr, Hm. simpl. rewrite Hp, Hi. simpl. rewrite Hok. simpl.
  eexists _, _. split; [reflexivity|]. simpl.
  split; [by rewrite <- app_assoc|]. repeat split; try done.
  intros now' s2 Hlater Hr2. rewrite Hcase by done.
  unfold case_to_be_created. simpl. rewrite Hd.
  assert ((now + TIMEOUT_RETRY >? now') = false) as -> by lia.
  rewrite Hr2, Hm. simpl. rewrite Hp. simpl.
  destruct (sp_add_ok s2 (name p)); simpl;
    [destruct (decide _)|]; simpl; by rewrite <- app_assoc.
Qed.

Lemma failed_script_setup_retried_raw_witness :
  let p := RemotePrinter "HP-LaserJet-400" "ipp://hosta.local:631/ipp/print"
             None None (Some "/tmp/0001") STATUS_TO_BE_CREATED 99 false
             "hosta" "Laser @ hosta" "_ipp._tcp" "local" in
  let s := Spooler [] true (fun _ => 0) None (fun _ => true) (fun _ => false)
             (fun _ => None) [] in
  exists p' s',
    handle_entry 300 100 p s = (Some p', s')
    /\ sp_calls s'
       = sp_calls s ++ [Connect; AddModifyPrinter p (Some "/tmp/0001")]
    /\ sp_queues s' = sp_queues s
    /\ status p' = status p /\ timeout p' = 100 + TIMEOUT_RETRY
    /\ ppd p' = None /\ ifscript p' = None
    /\ forall now' s2,
         100 + TIMEOUT_RETRY <= now' -> sp_reachable s2 = true ->
         sp_calls (handle_entry 300 now' p' s2).2
         = sp_calls s2 ++ [Connect; AddModifyPrinter p' None].
Proof.
  apply (failed_script_setup_retried_raw 300 100
           (RemotePrinter "HP-LaserJet-400" "ipp://hosta.local:631/ipp/print"
              None None (Some "/tmp/0001") STATUS_TO_BE_CREATED 99 false
              "hosta" "Laser @ hosta" "_ipp._tcp" "local")
           (Spooler [] true (fun _ => 0) None (fun _ => true)
              (fun _ => false) (fun _ => None) [])
           "/tmp/0001").
  - by left.
  - reflexivity.
  - simpl. lia.
  - reflexivity.
  - reflexivity.
  - reflexivity.
  - reflexivity.
  - reflexivity.
Defined.

(** ** Auto shutdown *)

Section AutoShutdownProofs.

Lemma tracks_same d d' :
  autoshutdown d' = autoshutdown d ->
  autoshutdown_exec_id d' = autoshutdown_exec_id d ->
  (remote_printers d' = [] <-> remote_printers d = []) ->
  shutdown_timer_tracks d -> shutdown_timer_tracks d'.
Proof.
  unfold shutdown_timer_tracks. intros -> -> ->. done.
Qed.

Lemma recheck_timer_shutdown now d :
  autoshutdown (recheck_timer now d) = autoshutdown d
  /\ autoshutdown_exec_id (recheck_timer now d) = autoshutdown_exec_id d.
Proof.
  unfold recheck_timer. destruct (gmainloop d); simpl; [|done].
  destruct (queues_timer_id d); simpl;
    destruct (negb _); simpl; done.
Qed.

Lemma tracks_recheck now d :
  shutdown_timer_tracks d -> shutdown_timer_tracks (recheck_timer now d).
Proof.
  apply tracks_same; try apply recheck_timer_shutdown.
  by rewrite recheck_timer_printers.
Qed.

Lemma insert_nil_iff {A} (a : list A) i x : <[i := x]> a = [] <-> a = [].
Proof.
  split; [|by intros ->]. intros H. apply (f_equal length) in H.
  rewrite length_insert in H. by destruct a.
Qed.

Lemma tracks_insert i p d :
  shutdown_timer_tracks d ->
  shutdown_timer_tracks (with_printers (<[i := p]> (remote_printers d)) d).
Proof. apply tracks_same; try done. simpl. apply insert_nil_iff. Qed.

Lemma cupsArrayAdd_not_nil p a : cupsArrayAdd p a <> [].
Proof. destruct a as [|q a]; simpl; [done|]. by destruct (_ <? _). Qed.

Lemma tracks_add_entry p a d :
  shutdown_timer_tracks d -> shutdown_timer_tracks (add_entry p a d).1.
Proof.
  unfold shutdown_timer_tracks, add_entry. simpl. intros H.
  pose proof (cupsArrayAdd_not_nil p a) as Hne.
  destruct (autoshutdown_exec_id d) as [id|] eqn:He; simpl.
  - assert (autoshutdown d = true) as Ha by (apply H; done).
    rewrite Ha. simpl.
    assert ((0 <? Z.of_nat (length (cupsArrayAdd p a))) = true) as ->.
    { apply Z.ltb_lt. destruct (cupsArrayAdd p a); [done|].
      rewrite length_cons. lia. }
    simpl. split; [done|]. by intros [_ ?].
  - rewrite He. split; [done|]. by intros [_ ?].
Qed.

Lemma tracks_create now probe n u h info t dm pdl_ mm cq d :
  shutdown_timer_tracks d ->
  shutdown_timer_tracks
    (create_local_queue now probe n u h info t dm pdl_ mm cq d).1.
Proof.
  intros H. unfold create_local_queue.
  repeat match goal with
         | |- context [match ?x with _ => _ end] => destruct x eqn:?
         end; simpl; try done; by apply tracks_add_entry.
Qed.

Lemma tracks_generate assemble now t probe h port res n ty dm txt d d' r :
  shutdown_timer_tracks d ->
  generate_local_queue assemble now t probe h port res n ty dm txt d
  = Some (d', r) ->
  shutdown_timer_tracks d'.
Proof.
  intros H. unfold generate_local_queue.
  destruct (classify res dm txt) as [c|]; [|by intros [= <- <-]].
  destruct (local_queue_name_for _ _ _ _) as [lq|]; [|by intros [= <- <-]].
  destruct (negb (negb _)); [by intros [= <- <-]|].
  destruct (first_index _ _) as [i|].
  - destruct (remote_printers d !! i) as [p|]; [|by intros [= <- <-]].
    destruct (update_entry _ _ _ _ _ _ _) as [p'|]; simpl; [|done].
    intros [= <- <-]. by apply tracks_insert.
  - destruct (create_local_queue _ _ _ _ _ _ _ _ _ _ _ _) as [d1 r1] eqn:E.
    intros [= <- <-].
    change d1 with (d1, r1).1. rewrite <- E. by apply tracks_create.
Qed.

Lemma tracks_schedule n d :
  (autoshutdown_exec_id d <> None -> autoshutdown d = true /\ n = 0%nat) ->
  let d' := schedule_shutdown n d in
  autoshutdown d' = autoshutdown d
  /\ (autoshutdown_exec_id d' <> None <-> autoshutdown d = true /\ n = 0%nat).
Proof.
  intros H. unfold schedule_shutdown.
  destruct (autoshutdown d) eqn:Ha; simpl.
  - destruct (autoshutdown_exec_id d) eqn:He; simpl.
    + rewrite Ha, He. split; [done|]. split; [intros _; by apply H|done].
    + destruct (bool_decide (n = 0%nat)) eqn:Hn; simpl.
      * apply bool_decide_eq_true in Hn. done.
      * apply bool_decide_eq_false in Hn. rewrite Ha, He.
        split; [done|]. split; [done|]. by intros [_ ?].
  - rewrite Ha. split; [done|]. split; [|by intros [? _]].
    intros He. by destruct (H He).
Qed.

Lemma tracks_queues_loop now todo :
  forall seen d,
    (autoshutdown_exec_id d <> None
     <-> autoshutdown d = true /\ seen ++ todo = []) ->
    shutdown_timer_tracks (queues_loop now seen todo d).
Proof.
  induction todo as [|p rest IH]; intros seen d H; simpl.
  - by rewrite app_nil_r in H.
  - assert (He : autoshutdown_exec_id d = None).
    { destruct (autoshutdown_exec_id d) eqn:E; [|done].
      assert (seen ++ p :: rest = []) by (apply H; done).
      by destruct seen. }
    destruct (handle_entry _ _ _ _) as [[p'|] s].
    + apply IH. simpl. rewrite He. split; [done|].
      intros [_ Hnil]. by destruct seen.
    + apply IH.
      pose proof (tracks_schedule (length seen + length rest) (with_cups s d))
        as Hs.
      simpl in Hs. destruct Hs as [Ha Hid]; [by rewrite He|].
      rewrite Ha. rewrite Hid. simpl.
      split; intros [? Hn]; (split; [done|]).
      * destruct seen, rest; simpl in Hn; try done; lia.
      * apply (f_equal length) in Hn. rewrite length_app in Hn. exact Hn.
Qed.

Lemma tracks_pass now later d :
  shutdown_timer_tracks d ->
  shutdown_timer_tracks (handle_cups_queues now later d).
Proof.
  intros H. unfold handle_cups_queues. apply tracks_recheck.
  by apply tracks_queues_loop.
Qed.

Lemma tracks_arm d :
  autoshutdown d = true ->
  (autoshutdown_exec_id d <> None -> remote_printers d = []) ->
  shutdown_timer_tracks
    (if bool_decide (autoshutdown_exec_id d = None)
        && (length (remote_printers d) =? 0)%nat
     then
       let '(id, d') :=
         g_timeout_add_seconds (autoshutdown_timeout d)
           cb_autoshutdown_execute d in
       with_autoshutdown_exec (Some id) d'
     else d).
Proof.
  intros Ha H. unfold shutdown_timer_tracks.
  destruct (autoshutdown_exec_id d) eqn:He; simpl.
  - rewrite He, Ha. split; [intros _; split; [done|by apply H]|done].
  - destruct (remote_printers d) eqn:Hp; simpl.
    + by rewrite Ha.
    + rewrite He. split; [done|]. intros [_ Hn]. congruence.
Qed.

Lemma tracks_kill d :
  shutdown_timer_tracks
    (let d := with_autoshutdown false d in
     match autoshutdown_exec_id d with
     | Some id => with_autoshutdown_exec None (g_source_remove id d)
     | None => d
     end).
Proof.
  unfold shutdown_timer_tracks. simpl.
  destruct (autoshutdown_exec_id d) eqn:He; simpl; [|rewrite He];
    (split; [done|by intros [? _]]).
Qed.

Lemma tracks_avahi_browser_shutdown now av d :
  shutdown_timer_tracks d ->
  shutdown_timer_tracks (avahi_browser_shutdown now av d).
Proof.
  intros H. unfold avahi_browser_shutdown.
  set (d1 := handle_cups_queues now now _).
  assert (H1 : shutdown_timer_tracks d1).
  { apply tracks_pass. revert H. apply tracks_same; try done. simpl.
    split; [apply fmap_nil_inv|by intros ->]. }
  destruct av; [|done].
  apply (tracks_arm (with_autoshutdown true d1)); [done|].
  simpl. intros He. by apply H1.
Qed.

End AutoShutdownProofs.

(** Property X10.  The shutdown timer follows the registry.  The daemon has an
    auto-shutdown timer on record exactly when it is in auto shutdown mode
    and maintains no printer: the end of start-up establishes this, and the
    reconciliation pass, the resolver, a browse packet, the withdrawal of a
    service, the recovery of a queue of a previous session, both signals,
    the shutdown of the Avahi browsers and the Avahi client callback keep
    it.  A shutdown timer that fires in such a state therefore always ends
    the main loop. *)
Theorem shutdown_timer_follows_registry
    (assemble : string -> string -> Z -> string -> string) now later d :
  (autoshutdown_exec_id d = None ->
   shutdown_timer_tracks (main_enter_loop now d))
  /\ (shutdown_timer_tracks d ->
      shutdown_timer_tracks (handle_cups_queues now later d)
      /\ (forall t probe h port res n ty dm txt d' r,
            generate_local_queue assemble now t probe h port res n ty dm txt d
            = Some (d', r) ->
            shutdown_timer_tracks d')
      /\ (forall t probe n ty dm h port txt d',
            resolve_callback_found assemble now later t probe n ty dm h port
              txt d
            = Some d' ->
            shutdown_timer_tracks d')
      /\ (forall t probe h port res info d',
            found_cups_printer assemble now t probe h port res info d
            = Some d' ->
            shutdown_timer_tracks d')
      /\ (forall local n ty dm,
            shutdown_timer_tracks
              (browse_callback_remove now later local n ty dm d))
      /\ (forall browse_cups key printer,
            shutdown_timer_tracks
              (find_previous_queue now browse_cups key printer d))
      /\ shutdown_timer_tracks (sigusr1_handler d)
      /\ shutdown_timer_tracks (sigusr2_handler d)
      /\ (forall av, shutdown_timer_tracks (avahi_browser_shutdown now av d))
      /\ (forall av state disconnected renewed,
            shutdown_timer_tracks
              (client_callback now av state disconnected renewed d).1)
      /\ (autoshutdown_exec_id d <> None -> autoshutdown_execute d = true)).
Proof.
  split.
  { intros He. unfold main_enter_loop.
    set (d1 := recheck_timer now (with_gmainloop true d)).
    destruct (recheck_timer_shutdown now (with_gmainloop true d)) as [Ha He1].
    fold d1 in Ha, He1. simpl in Ha, He1. rewrite He in He1.
    destruct (autoshutdown d1) eqn:Ha1; simpl.
    - apply tracks_arm; [done|]. by rewrite He1.
    - unfold shutdown_timer_tracks. rewrite He1, Ha1.
      split; [done|by intros [? _]]. }
  intros H. split; [by apply tracks_pass|].
  split; [intros; by eapply tracks_generate|].
  split.
  { intros t probe n ty dm h port txt d'. unfold resolve_callback_found.
    destruct (txt_pair txt "rp" _) as [rp_key [rp|]];
      destruct (txt_pair txt "adminurl" _) as [adminurl_key [au|]];
      try (intros [= <-]; by apply tracks_recheck).
    destruct (strcaseeq rp_key "rp" && strcaseeq adminurl_key "adminurl");
      [|intros [= <-]; by apply tracks_recheck].
    destruct (generate_local_queue _ _ _ _ _ _ _ _ _ _ _ _) as [[d1 r]|] eqn:E;
      simpl; [|done].
    intros [= <-]. apply tracks_recheck. by eapply tracks_generate. }
  split.
  { intros t probe h port res info d'. unfold found_cups_printer.
    destruct (generate_local_queue _ _ _ _ _ _ _ _ _ _ _ _) as [[d1 r]|] eqn:E;
      simpl; [|done].
    apply tracks_generate in E; [|done].
    destruct r as [i|]; [|by intros [= <-]].
    destruct (remote_printers d1 !! i); intros [= <-]; [|done].
    by apply tracks_insert. }
  split.
  { intros local n ty dm. unfold browse_callback_remove.
    destruct local; [done|].
    destruct (first_index _ _) as [i|]; [|done].
    destruct (remote_printers d !! i) as [p|]; [|done].
    apply tracks_recheck. revert H. apply tracks_same; try done. simpl.
    destruct (if duplicate p then None else _) as [[j q]|];
      rewrite ?insert_nil_iff; done. }
  split.
  { intros browse_cups key printer. unfold find_previous_queue.
    destruct (cups_browsed_controlled printer); [|done].
    destruct (create_local_queue _ _ _ _ _ _ _ _ _ _ _ _) as [d1 r] eqn:E.
    assert (H1 : shutdown_timer_tracks d1).
    { change d1 with (d1, r).1. rewrite <- E. by apply tracks_create. }
    destruct r as [i|]; [|done].
    destruct (remote_printers d1 !! i); [|done]. by apply tracks_insert. }
  split; [apply tracks_kill|].
  split.
  { apply (tracks_arm (with_autoshutdown true d)); [done|].
    simpl. intros He. by apply H. }
  split; [intros; by apply tracks_avahi_browser_shutdown|].
  split.
  { intros av state disconnected renewed. unfold client_callback.
    destruct state; try done.
    1-3: destruct av; [|done];
         pose proof (tracks_kill d) as Hk; simpl in Hk |- *;
         by destruct (autoshutdown_exec_id d).
    destruct disconnected; [|done].
    destruct renewed; simpl.
    - by apply tracks_avahi_browser_shutdown.
    - unfold avahi_shutdown. by do 2 apply tracks_avahi_browser_shutdown. }
  intros He. apply H in He as [Ha Hp]. unfold autoshutdown_execute.
  by rewrite Ha, Hp.
Qed.

Lemma shutdown_timer_follows_registry_witness :
  let d := sigusr2_handler (started 0 (idle_spooler [])) in
  autoshutdown_exec_id d <> None
  /\ shutdown_timer_tracks (handle_cups_queues 100 101 d)
  /\ shutdown_timer_tracks (sigusr1_handler d)
  /\ autoshutdown_execute d = true.
Proof.
  assert (Ht : shutdown_timer_tracks
                 (sigusr2_handler (started 0 (idle_spooler [])))).
  { by vm_compute. }
  pose proof (proj2 (shutdown_timer_follows_registry plain_uri 100 101
                       (sigusr2_handler (started 0 (idle_spooler [])))) Ht)
    as H.
  split; [by vm_compute|].
  split; [apply H|]. split; [apply H|].
  apply H. by vm_compute.
Defined.

(** ** Discovery: what the resolver and the callbacks leave alone *)

Section DiscoveryFrame.

Lemma add_entry_BrowseTimeout p a d :
  BrowseTimeout (add_entry p a d).1 = BrowseTimeout d.
Proof.
  unfold add_entry. simpl.
  destruct (autoshutdown_exec_id d); simpl; [|done].
  by destruct (autoshutdown d && _).
Qed.

Lemma create_BrowseTimeout now probe n u h info t dm pdl_ mm cq d :
  BrowseTimeout (create_local_queue now probe n u h info t dm pdl_ mm cq d).1
  = BrowseTimeout d.
Proof.
  unfold create_local_queue.
  repeat match goal with
         | |- context [match ?x with _ => _ end] => destruct x eqn:?
         end; simpl; try done; apply add_entry_BrowseTimeout.
Qed.

Lemma generate_BrowseTimeout assemble now t probe h port res n ty dm txt d d' r :
  generate_local_queue assemble now t probe h port res n ty dm txt d
  = Some (d', r) ->
  BrowseTimeout d' = BrowseTimeout d.
Proof.
  unfold generate_local_queue.
  destruct (classify res dm txt) as [c|]; [|by intros [= <- <-]].
  destruct (local_queue_name_for _ _ _ _) as [lq|]; [|by intros [= <- <-]].
  destruct (negb (negb _)); [by intros [= <- <-]|].
  destruct (first_index _ _) as [i|].
  - destruct (remote_printers d !! i) as [p|]; [|by intros [= <- <-]].
    destruct (update_entry _ _ _ _ _ _ _) as [p'|]; simpl; [|done].
    by intros [= <- <-].
  - destruct (create_local_queue _ _ _ _ _ _ _ _ _ _ _ _) as [d1 r1] eqn:E.
    intros [= <- <-]. change d1 with (d1, r1).1. rewrite <- E.
    apply create_BrowseTimeout.
Qed.

Lemma cupsArrayAdd_names p a :
  map name a `sublist_of` map name (cupsArrayAdd p a).
Proof.
  induction a as [|q a IH]; simpl; [apply sublist_nil_l|].
  destruct (_ <? _); simpl; [by apply sublist_cons|by apply sublist_skip].
Qed.

Lemma cupsArrayAdd_length p a : length (cupsArrayAdd p a) = S (length a).
Proof.
  induction a as [|q a IH]; simpl; [done|].
  destruct (_ <? _); simpl; by rewrite ?IH.
Qed.

Lemma cupsArrayAdd_lookup p a : cupsArrayAdd p a !! add_position p a = Some p.
Proof.
  induction a as [|q a IH]; simpl; [done|]. by destruct (_ <? _).
Qed.

Lemma map_name_insert p p' (a : list remote_printer_t) :
  forall i, a !! i = Some p -> name p' = name p ->
  map name (<[i := p']> a) = map name a.
Proof.
  induction a as [|q a IH]; intros [|i] Hi Hn; simpl in *; simplify_eq;
    f_equal; auto.
Qed.

Lemma mark_duplicate_names i a : map name (mark_duplicate i a) = map name a.
Proof.
  unfold mark_duplicate. destruct (a !! i) as [q|] eqn:E; [|done].
  by apply (map_name_insert q).
Qed.

Lemma add_entry_names p a' d :
  map name a' = map name (remote_printers d) ->
  map name (remote_printers d)
    `sublist_of` map name (remote_printers (add_entry p a' d).1)
  /\ (length (remote_printers (add_entry p a' d).1)
      <= S (length (remote_printers d)))%nat.
Proof.
  intros H. rewrite add_entry_printers, cupsArrayAdd_length. split.
  - rewrite <- H. apply cupsArrayAdd_names.
  - apply (f_equal length) in H. rewrite !length_map in H. lia.
Qed.

Lemma create_names now probe n u h info t dm pdl_ mm cq d :
  map name (remote_printers d)
    `sublist_of`
    map name (remote_printers
                (create_local_queue now probe n u h info t dm pdl_ mm cq d).1)
  /\ (length (remote_printers
                (create_local_queue now probe n u h info t dm pdl_ mm cq d).1)
      <= S (length (remote_printers d)))%nat.
Proof.
  unfold create_local_queue.
  repeat match goal with
         | |- context [match ?x with _ => _ end] => destruct x eqn:?
         end;
    first [ apply add_entry_names; first [done | apply mark_duplicate_names]
          | split; [done | simpl; lia] ].
Qed.

Lemma add_entry_index p a d d' i :
  add_entry p a d = (d', Some i) -> remote_printers d' !! i = Some p.
Proof.
  intros H. pose proof (add_entry_printers p a d) as Hp.
  rewrite H in Hp. simpl in Hp. rewrite Hp.
  assert (Hi : (add_entry p a d).2 = Some (add_position p a)) by done.
  rewrite H in Hi. simpl in Hi. injection Hi as ->.
  apply cupsArrayAdd_lookup.
Qed.

Lemma create_index now probe n u h info t dm pdl_ mm cq d d' i :
  create_local_queue now probe n u h info t dm pdl_ mm cq d = (d', Some i) ->
  is_Some (remote_printers d' !! i).
Proof.
  unfold create_local_queue.
  repeat match goal with
         | |- context [match ?x with _ => _ end] => destruct x eqn:?
         end; try done; intros H; apply add_entry_index in H; by eexists.
Qed.

Lemma generate_index assemble now t probe h port res n ty dm txt d d' i :
  generate_local_queue assemble now t probe h port res n ty dm txt d
  = Some (d', Some i) ->
  is_Some (remote_printers d' !! i).
Proof.
  unfold generate_local_queue.
  destruct (classify res dm txt) as [c|]; [|done].
  destruct (local_queue_name_for _ _ _ _) as [lq|]; [|done].
  destruct (negb (negb _)).
  - intros [= <- Hf]. apply first_index_Some in Hf as (q & -> & _). by eexists.
  - destruct (first_index _ _) as [j|] eqn:Hf.
    + apply first_index_Some in Hf as (q & Hq & _). rewrite Hq.
      destruct (update_entry _ _ _ _ _ _ _) as [p'|]; simpl; [|done].
      intros [= <- <-]. simpl. rewrite list_lookup_insert_eq; [by eexists|].
      by eapply lookup_lt_Some.
    + intros [= H]. by eapply create_index.
Qed.

Lemma generate_cups_unique assemble now t probe h port res n ty dm txt d :
  cups_originated res = true ->
  unique (remote_printers d) ->
  (forall p, p ∈ remote_printers d -> is_Some (strchr (uri p) ":")) ->
  is_Some (strchr (device_uri_for assemble h port res ty) ":") ->
  exists d' r,
    generate_local_queue assemble now t probe h port res n ty dm txt d
    = Some (d', r)
    /\ unique (remote_printers d').
Proof.
  intros Hcups Huniq Hwf Huri. unfold generate_local_queue.
  destruct (classify res dm txt) as [c|] eqn:Hc; [|by eexists _, _].
  apply (classify_cups _ _ _ _ Hcups) in Hc as Hq.
  destruct (local_queue_name_for _ _ c _) as [lqn|]; [|by eexists _, _].
  destruct (negb (negb (local_printer_has_uri _ t))); [by eexists _, _|].
  destruct (first_index (matches lqn (remote_host_of h)) (remote_printers d))
    as [i|] eqn:Hfound.
  - destruct (remote_printers d !! i) as [p|] eqn:Hp; [|by eexists _, _].
    assert (Hin : p ∈ remote_printers d) by (by eapply list_elem_of_lookup_2).
    destruct (Hwf p Hin) as [x Hx]. destruct Huri as [y Hy].
    destruct (update_entry now _ _ n ty dm p) as [p'|] eqn:Hup.
    2: { unfold update_entry, uri_changed in Hup. by rewrite Hx, Hy in Hup. }
    simpl. eexists _, _. split; [done|]. simpl.
    apply update_entry_keeps in Hup as [Hn Hd].
    intros m. rewrite (primaries_insert m i p p'); [apply Huniq|done|].
    unfold primary_for. by rewrite Hn, Hd.
  - rewrite Hq.
    destruct (create_local_queue now probe lqn _ _ n ty dm (pdl c)
                (Some (remote_queue c)) true d) as [d' r] eqn:Hcreate.
    eexists _, _. split; [done|].
    change d' with (d', r).1. rewrite <- Hcreate.
    by eapply create_cups_unique.
Qed.

(** The resource of an accepted packet, its leading slash and its query
    string taken off, names a CUPS queue. *)
Lemma casecmp_cons_eq c a d b :
  casecmp (c :: a) (d :: b) = 0 -> tolower c = tolower d /\ casecmp a b = 0.
Proof.
  simpl. destruct (decide (tolower c = tolower d)) as [E|E]; [done|].
  intros H. exfalso. apply E. apply uchar_val_inj. lia.
Qed.

Lemma chars_cons_inv s c l :
  chars s = c :: l ->
  exists s', s = String c s' /\ c <> NUL /\ chars s' = l.
Proof.
  destruct s as [|c' s']; [done|]. unfold chars. simpl.
  destruct (decide (c' = NUL)); [done|]. intros [= -> <-]. by eexists.
Qed.

Lemma casecmp_nil_cons d b : d <> NUL -> casecmp [] (d :: b) <> 0.
Proof.
  simpl. intros Hd H. apply Hd, tolower_nul, uchar_val_nul. lia.
Qed.

Lemma cut_prefix P :
  forall s,
    no_nul P ->
    Forall (fun d => tolower d <> "?"%char) P ->
    casecmp (take (length P) (chars s)) P = 0 ->
    casecmp (take (length P) (chars (cut_at "?" s))) P = 0.
Proof.
  induction P as [|d P IH]; intros s Hnn Hq H; [done|].
  inversion Hnn as [|? ? Hd Hnn']; subst.
  inversion Hq as [|? ? Hdq Hq']; subst.
  destruct (chars s) as [|c l] eqn:E.
  { by apply casecmp_nil_cons in H. }
  apply chars_cons_inv in E as (s' & -> & Hc & <-).
  simpl in H. apply casecmp_cons_eq in H as [Hcd H].
  simpl cut_at.
  destruct (decide (c = NUL)); [done|].
  destruct (decide (c = "?"%char)) as [->|].
  { exfalso. apply Hdq. by rewrite <- Hcd. }
  unfold chars. simpl. destruct (decide (c = NUL)); [done|]. simpl.
  destruct (decide (tolower c = tolower d)); [|done].
  by apply IH.
Qed.

Lemma accepted_resource res pat :
  Forall (fun d => tolower d <> "?"%char) (chars pat) ->
  strncasecmp res (String "/" pat) (S (c_strlen pat)) = 0 ->
  strncasecmp (cut_at "?" (advance res 1)) pat (c_strlen pat) = 0.
Proof.
  intros Hq. unfold strncasecmp, c_strlen.
  assert (chars (String "/" pat) = "/"%char :: chars pat) as -> by done.
  rewrite (take_ge ("/"%char :: chars pat)) by (simpl; lia).
  rewrite (take_ge (chars pat)) by lia.
  destruct (chars res) as [|c l] eqn:E.
  { intros H. by apply casecmp_nil_cons in H. }
  apply chars_cons_inv in E as (s' & -> & Hc & <-).
  simpl take. intros H. apply casecmp_cons_eq in H as [_ H].
  simpl advance. assert (advance s' 0 = s') as -> by (by destruct s').
  apply cut_prefix; [apply until_nul_no_nul|done|done].
Qed.

Lemma accepted_resource_cups res :
  (negb (strncasecmp res "/printers/" 10 =? 0)
   && negb (strncasecmp res "/classes/" 9 =? 0)) = false ->
  cups_originated (cut_at "?" (advance res 1)) = true.
Proof.
  intros H. apply andb_false_iff in H. unfold cups_originated.
  apply orb_true_iff.
  destruct H as [H|H]; apply negb_false_iff, Z.eqb_eq in H; [left|right];
    apply Z.eqb_eq.
  - apply (accepted_resource res "printers/"); [|exact H].
    vm_compute. repeat constructor; discriminate.
  - apply (accepted_resource res "classes/"); [|exact H].
    vm_compute. repeat constructor; discriminate.
Qed.

End DiscoveryFrame.

(** Property X12.  An announcement adds at most one entry and removes none: the
    names of the entries before are, in their order, among the names after,
    the registry grows by one entry at most, and an entry the resolver
    returns is in the registry. *)
Theorem announce_adds_at_most_one
    (assemble : string -> string -> Z -> string -> string)
    now t probe h port res n ty dm txt d d' r :
  generate_local_queue assemble now t probe h port res n ty dm txt d
  = Some (d', r) ->
  map name (remote_printers d) `sublist_of` map name (remote_printers d')
  /\ (length (remote_printers d') <= S (length (remote_printers d)))%nat
  /\ (forall i, r = Some i -> is_Some (remote_printers d' !! i)).
Proof.
  intros H. split; [|split].
  3: { intros i ->. by eapply generate_index. }
  all: revert H; unfold generate_local_queue.
  all: destruct (classify res dm txt) as [c|];
         [|intros [= <- <-]; first [done | lia]].
  all: destruct (local_queue_name_for _ _ _ _) as [lq|];
         [|intros [= <- <-]; first [done | lia]].
  all: destruct (negb (negb _)); [intros [= <- <-]; first [done | lia]|].
  all: destruct (first_index _ _) as [i|] eqn:Hf.
  all: try (apply first_index_Some in Hf as (q & Hq & _); rewrite Hq;
            destruct (update_entry _ _ _ _ _ _ _) as [p'|] eqn:Hu;
              simpl; [|done];
            apply update_entry_keeps in Hu as [Hn _];
            intros [= <- <-]; simpl).
  - by rewrite (map_name_insert q).
  - destruct (create_local_queue _ _ _ _ _ _ _ _ _ _ _ _) as [d1 r1] eqn:E.
    intros [= <- <-]. change d1 with (d1, r1).1. rewrite <- E.
    apply create_names.
  - rewrite length_insert. lia.
  - destruct (create_local_queue _ _ _ _ _ _ _ _ _ _ _ _) as [d1 r1] eqn:E.
    intros [= <- <-]. change d1 with (d1, r1).1. rewrite <- E.
    apply create_names.
Qed.

Lemma announce_adds_at_most_one_witness :
  exists d' r,
    announce_office "srv2.local" "Office @ srv2" ∅ with_office = Some (d', r)
    /\ map name (remote_printers with_office)
         `sublist_of` map name (remote_printers d')
    /\ (length (remote_printers d') <= S (length (remote_printers with_office)))%nat
    /\ (forall i, r = Some i -> is_Some (remote_printers d' !! i)).
Proof.
  eexists _, _. split; [by vm_compute|].
  apply (announce_adds_at_most_one plain_uri 100 ∅ no_probe "srv2.local" 631
           "printers/Office" "Office @ srv2" "_ipp._tcp" "local"
           (Some office_txt) with_office).
  by vm_compute.
Defined.

(** Property X13.  The withdrawal of a service removes no entry and renames none:
    the registry holds the same names in the same order afterwards; the
    queue is only scheduled for removal (or handed to a backup), the rest is
    left to the pass.  An event of the local machine and the withdrawal of
    a service no entry was made for change nothing at all. *)
Theorem withdrawal_keeps_entries now later local n ty dm d :
  let d' := browse_callback_remove now later local n ty dm d in
  map name (remote_printers d') = map name (remote_printers d)
  /\ (local = true -> d' = d)
  /\ (Forall (fun p => same_service n ty dm p = false) (remote_printers d) ->
      d' = d).
Proof.
  unfold browse_callback_remove. simpl. split; [|split].
  - destruct local; [done|].
    destruct (first_index _ _) as [i|] eqn:Hf; [|done].
    apply first_index_Some in Hf as (p & Hp & _). rewrite Hp.
    rewrite recheck_timer_printers. simpl.
    destruct (duplicate p); simpl.
    { by rewrite (map_name_insert p). }
    destruct (first_index (backup_of p) _) as [j|] eqn:Hb; simpl.
    + apply first_index_Some in Hb as (q & Hq & _). rewrite Hq. simpl.
      destruct (decide (i = j)) as [->|Hij].
      * rewrite Hp in Hq. injection Hq as <-.
        rewrite list_insert_insert_eq. by rewrite (map_name_insert p).
      * rewrite (map_name_insert q); [by rewrite (map_name_insert p)| |done].
        by rewrite list_lookup_insert_ne.
    + by rewrite (map_name_insert p).
  - by intros ->.
  - intros Hall. destruct local; [done|].
    destruct (first_index _ _) as [i|] eqn:Hf; [|done].
    apply first_index_Some in Hf as (p & Hp & Hs).
    eapply Forall_lookup_1 in Hall; [|exact Hp]. simpl in Hall. congruence.
Qed.

(** Property X14.  A browse packet never breaks the uniqueness of queue names.  A
    packet sent from one of our own interfaces and a packet whose URI names
    neither a printer nor a class are ignored; every other packet is
    resolved as the announcement of a CUPS queue and leaves at most one
    non-duplicate entry per queue name (provided the URIs involved contain
    a colon). *)
Theorem browse_packet_keeps_unique
    (assemble : string -> string -> Z -> string -> string)
    now netifs t probe h port res info d :
  unique (remote_printers d) ->
  (forall p, p ∈ remote_printers d -> is_Some (strchr (uri p) ":")) ->
  (forall r, is_Some (strchr (assemble "ipp" h (port mod 2 ^ 16) r) ":")) ->
  exists d',
    BrowsePacket.found_cups_printer assemble now netifs t probe h port res
      info d = Some d'
    /\ unique (remote_printers d')
    /\ (Exists (fun address => strcaseeq h address = true) netifs -> d' = d)
    /\ (strncasecmp res "/printers/" 10 <> 0 ->
        strncasecmp res "/classes/" 9 <> 0 -> d' = d).
Proof.
  intros Huniq Hwf Huri. unfold BrowsePacket.found_cups_printer.
  destruct (existsb _ netifs) eqn:Hown.
  { exists d. repeat split; done. }
  assert (Hnot : ~ Exists (fun address => strcaseeq h address = true) netifs).
  { intros Hex. apply Exists_exists in Hex as (x & Hx & Hhx).
    assert (existsb (fun address => strcaseeq h address) netifs = true).
    { apply existsb_exists. exists x. split; [by apply list_elem_of_In|done]. }
    congruence. }
  destruct (negb _ && negb _) eqn:Hres.
  { exists d. repeat split; done. }
  assert (Hbad : ~ (strncasecmp res "/printers/" 10 <> 0
                    /\ strncasecmp res "/classes/" 9 <> 0)).
  { intros [H1 H2]. apply andb_false_iff in Hres as [Hr|Hr];
      apply negb_false_iff, Z.eqb_eq in Hr; done. }
  apply accepted_resource_cups in Hres.
  unfold found_cups_printer, to_uint16.
  destruct (generate_cups_unique assemble now t probe h (port mod 2 ^ 16)
              (cut_at "?" (advance res 1))
              (default EmptyString info) "" "" None d Hres Huniq Hwf)
    as (d1 & r & Hgen & Hu1).
  { apply Huri. }
  rewrite Hgen. simpl.
  destruct r as [i|].
  - destruct (remote_printers d1 !! i) as [p|] eqn:Hp.
    + eexists. split; [reflexivity|]. simpl. split; [|split; [done|tauto]].
      intros m. rewrite (primaries_insert m i p); [apply Hu1|done|].
      unfold primary_for. by destruct (bool_decide _).
    + exists d1. split; [done|]. split; [done|]. split; [done|tauto].
  - exists d1. split; [done|]. split; [done|]. split; [done|tauto].
Qed.

Lemma browse_packet_keeps_unique_witness :
  exists d',
    BrowsePacket.found_cups_printer plain_uri 100 ["192.168.1.2"] ∅ no_probe
      "192.168.1.7" 631 "/printers/Office?x" (Some "Office") with_office
    = Some d'
    /\ unique (remote_printers d')
    /\ (Exists (fun address => strcaseeq "192.168.1.7" address = true)
          ["192.168.1.2"] -> d' = with_office)
    /\ (strncasecmp "/printers/Office?x" "/printers/" 10 <> 0 ->
        strncasecmp "/printers/Office?x" "/classes/" 9 <> 0 ->
        d' = with_office).
Proof.
  apply (browse_packet_keeps_unique plain_uri 100 ["192.168.1.2"] ∅ no_probe
           "192.168.1.7" 631 "/printers/Office?x" (Some "Office") with_office).
  - apply unique_short. vm_compute. lia.
  - intros p Hp. vm_compute in Hp. apply list_elem_of_singleton in Hp as ->.
    by eexists.
  - intros r. unfold plain_uri. by eexists.
Defined.

(** Property X15.  A browse packet never confirms an entry for good.  The entry a
    packet is resolved to, whether new or known, Confirmed by DNS-SD or
    not, is afterwards either waiting for its queue as "browse packet
    received" or Disappeared with the deadline [now + BrowseTimeout]: it
    goes away unless packets keep arriving. *)
Theorem browse_packet_leases_entry
    (assemble : string -> string -> Z -> string -> string)
    now t probe h port res info d d1 i :
  generate_local_queue assemble now t probe h (port mod 2 ^ 16) res info ""
    "" None d
  = Some (d1, Some i) ->
  exists d' p',
    found_cups_printer assemble now t probe h port res info d = Some d'
    /\ remote_printers d' !! i = Some p'
    /\ leased (now + BrowseTimeout d) p'.
Proof.
  intros Hgen. unfold found_cups_printer, to_uint16. rewrite Hgen. simpl.
  destruct (generate_index _ _ _ _ _ _ _ _ _ _ _ _ _ _ Hgen) as [p Hp].
  rewrite Hp. eexists _, _. split; [reflexivity|]. simpl.
  split; [apply list_lookup_insert_eq; by eapply lookup_lt_Some|].
  assert (Hbt : BrowseTimeout d1 = BrowseTimeout d)
    by (by eapply generate_BrowseTimeout).
  unfold leased. destruct (bool_decide _); simpl; [by left|right].
  by rewrite Hbt.
Qed.

Lemma browse_packet_leases_entry_witness :
  exists d' p',
    found_cups_printer plain_uri 100 ∅ no_probe "srv.local" 631
      "printers/Office" "Office" with_office = Some d'
    /\ remote_printers d' !! 0%nat = Some p'
    /\ leased (100 + BrowseTimeout with_office) p'.
Proof.
  eapply (browse_packet_leases_entry plain_uri 100 ∅ no_probe "srv.local" 631
            "printers/Office" "Office" with_office).
  vm_compute. reflexivity.
Defined.

(** ** BrowseAllow *)

Section BrowseAllowProofs.
Import BrowseAllow.

Lemma scan_accepts rules src :
  scan rules src = true <-> exists r, r ∈ rules /\ rule_accepts r src = true.
Proof.
  induction rules as [|a rules IH]; simpl.
  - split; [done|]. intros (r & Hr & _). by apply elem_of_nil in Hr.
  - destruct (rule_accepts a src) eqn:Ha.
    + split; [|done]. intros _. exists a. split; [left|done].
    + rewrite IH. split.
      * intros (r & Hr & H). exists r. split; [by right|done].
      * intros (r & Hr & H). apply elem_of_cons in Hr as [->|Hr];
          [congruence|by exists r].
Qed.

Lemma scan_invalid rules src :
  Forall (fun r => allow_type r = ALLOW_INVALID) rules -> scan rules src = false.
Proof.
  induction 1 as [|r rules Hr _ IH]; simpl; [done|].
  unfold rule_accepts. by rewrite Hr.
Qed.

Lemma land_ldiff a b c : Z.land a (Z.ldiff b c) = Z.ldiff (Z.land a b) c.
Proof.
  apply Z.bits_inj'. intros n Hn.
  rewrite Z.land_spec, !Z.ldiff_spec, Z.land_spec. by rewrite andb_assoc.
Qed.

Lemma netmask_ldiff bits :
  1 <= bits <= 32 ->
  netmask bits = Z.ldiff (Z.ones 32) (Z.ones (32 - bits)).
Proof.
  intros H.
  assert (Hk : exists k : nat, (k < 32)%nat /\ bits = 32 - Z.of_nat k).
  { exists (Z.to_nat (32 - bits)). lia. }
  destruct Hk as (k & Hk & ->).
  do 32 (destruct k as [|k]; [vm_compute; reflexivity|]). lia.
Qed.

Lemma land_netmask src bits :
  1 <= bits <= 32 -> 0 <= src < 2 ^ 32 ->
  Z.land src (netmask bits) = 2 ^ (32 - bits) * (src / 2 ^ (32 - bits)).
Proof.
  intros Hb Hs. rewrite netmask_ldiff by done. rewrite land_ldiff.
  rewrite Z.land_ones by lia. rewrite Z.mod_small by done.
  rewrite Z.ldiff_ones_r by lia.
  rewrite Z.shiftr_div_pow2, Z.shiftl_mul_pow2 by lia. lia.
Qed.

End BrowseAllowProofs.

(** Property X16.  A rule that could not be read shuts everybody out.  A list of
    rules that holds only invalid ones accepts no sender at all; so a single
    [BrowseAllow] line whose value [read_browseallow_value] does not
    understand (return value 1) turns the default "listen to every sender"
    into "listen to nobody". *)
Theorem unparsable_browse_allow_denies_all
    (inet_aton strtoul : string -> option Z) :
  (forall rules src,
     rules <> [] ->
     Forall (fun r => BrowseAllow.allow_type r = BrowseAllow.ALLOW_INVALID)
       rules ->
     BrowseAllow.allowed false rules src = false)
  /\ (forall src, BrowseAllow.allowed false [] src = true)
  /\ (forall value st' src,
        BrowseAllow.read_browseallow_value inet_aton strtoul (Some value)
          (false, []) = Some (1, st') ->
        BrowseAllow.allowed st'.1 st'.2 src = false).
Proof.
  split; [|split; [done|]].
  - intros rules src Hne Hall. unfold BrowseAllow.allowed.
    destruct rules; [done|]. simpl length. simpl orb. cbv iota.
    by apply scan_invalid.
  - intros value st' src. unfold BrowseAllow.read_browseallow_value.
    repeat match goal with
           | |- context [match ?x with _ => _ end] => destruct x eqn:?
           end; try done; intros [= <-]; simpl; done.
Qed.

Lemma unparsable_browse_allow_denies_all_witness :
  let none := fun _ : string => @None Z in
  exists st',
    BrowseAllow.read_browseallow_value none none (Some "printers.example.org")
      (false, []) = Some (1, st')
    /\ forall src, BrowseAllow.allowed st'.1 st'.2 src = false.
Proof.
  eexists. split; [vm_compute; reflexivity|].
  intros src.
  apply (proj2 (proj2 (unparsable_browse_allow_denies_all
                         (fun _ : string => @None Z)
                         (fun _ : string => @None Z)))
           "printers.example.org" _ src).
  vm_compute. reflexivity.
Defined.

(** Property X17.  The answer of [allowed] does not depend on the order of the
    rules (the array is kept in the order of their addresses in memory),
    and once there is a rule, further rules can only accept more senders. *)
Theorem browse_allow_rules_accumulate all rules rules' more src :
  (rules ≡ₚ rules' ->
   BrowseAllow.allowed all rules src = BrowseAllow.allowed all rules' src)
  /\ (rules <> [] ->
      BrowseAllow.allowed all rules src = true ->
      BrowseAllow.allowed all (rules ++ more) src = true).
Proof.
  split.
  - intros Hp. unfold BrowseAllow.allowed.
    rewrite (Permutation_length Hp).
    destruct (all || _); [done|].
    apply eq_true_iff_eq. rewrite !scan_accepts.
    split; intros (r & Hr & H); exists r; (split; [|done]).
    + by rewrite <- Hp.
    + by rewrite Hp.
  - intros Hne. unfold BrowseAllow.allowed.
    destruct all; [done|]. simpl.
    destruct rules as [|r0 rules]; [done|].
    simpl length. cbv iota beta. change ((S _ =? 0)%nat) with false. cbv iota.
    rewrite !scan_accepts. intros (r & Hr & H). exists r. split; [|done].
    change (r ∈ (r0 :: rules) ++ more). apply elem_of_app. by left.
Qed.

Lemma browse_allow_rules_accumulate_witness :
  let r1 := BrowseAllow.rule BrowseAllow.ALLOW_IP 3232235777 0 in
  let r2 := BrowseAllow.rule BrowseAllow.ALLOW_INVALID 0 0 in
  BrowseAllow.allowed false [r1; r2] (BrowseAllow.AF_INET 3232235777)
  = BrowseAllow.allowed false [r2; r1] (BrowseAllow.AF_INET 3232235777).
Proof.
  apply (proj1 (browse_allow_rules_accumulate false
                  [BrowseAllow.rule BrowseAllow.ALLOW_IP 3232235777 0;
                   BrowseAllow.rule BrowseAllow.ALLOW_INVALID 0 0]
                  [BrowseAllow.rule BrowseAllow.ALLOW_INVALID 0 0;
                   BrowseAllow.rule BrowseAllow.ALLOW_IP 3232235777 0]
                  [] (BrowseAllow.AF_INET 3232235777))).
  apply perm_swap.
Defined.

(** Property X18.  What a network rule means for IPv4.  The rule read from
    "address/bits", 1 <= bits <= 32, accepts exactly the senders that agree
    with the address in their first [bits] bits, provided the address has
    no bit set behind them; a rule whose address has such a bit set (as in
    192.168.1.5/24) accepts no IPv4 sender at all. *)
Theorem net_rule_accepts_block addr bits src :
  1 <= bits <= 32 -> 0 <= addr < 2 ^ 32 -> 0 <= src < 2 ^ 32 ->
  BrowseAllow.rule_accepts
    (BrowseAllow.rule BrowseAllow.ALLOW_NET addr (BrowseAllow.netmask bits))
    (BrowseAllow.AF_INET src) = true
  <-> src / 2 ^ (32 - bits) = addr / 2 ^ (32 - bits)
      /\ addr mod 2 ^ (32 - bits) = 0.
Proof.
  intros Hb Ha Hs. unfold BrowseAllow.rule_accepts. simpl.
  rewrite Z.eqb_eq, land_netmask by done.
  set (k := 2 ^ (32 - bits)).
  assert (0 < k) by (apply Z.pow_pos_nonneg; lia).
  pose proof (Z.div_mod addr k ltac:(lia)) as Hdm.
  pose proof (Z.mod_pos_bound addr k ltac:(lia)) as Hm.
  split.
  - intros E. rewrite <- E.
    rewrite Z.mul_comm, Z.div_mul, Z.mod_mul by lia. done.
  - intros [Hq Hr]. rewrite Hq. lia.
Qed.

Lemma net_rule_accepts_block_witness :
  BrowseAllow.rule_accepts
    (BrowseAllow.rule BrowseAllow.ALLOW_NET 3232235776
       (BrowseAllow.netmask 24))
    (BrowseAllow.AF_INET 3232235783) = true
  <-> 3232235783 / 2 ^ (32 - 24) = 3232235776 / 2 ^ (32 - 24)
      /\ 3232235776 mod 2 ^ (32 - 24) = 0.
Proof.
  apply (net_rule_accepts_block 3232235776 24 3232235783); lia.
Defined.

(** Property X19.  IPv6 senders and the rules read from the configuration.  A
    network rule is compared with the first four bytes of an IPv6 address
    only; [read_browseallow_value] reads IPv4 addresses and leaves the IPv6
    members of a rule zero, so every network rule it adds accepts every IPv6
    sender, whatever its address. *)
Theorem net_rule_accepts_every_ipv6_sender
    (inet_aton strtoul : string -> option Z) value st ret all r :
  BrowseAllow.read_browseallow_value inet_aton strtoul value st
  = Some (ret, (all, st.2 ++ [r])) ->
  BrowseAllow.allow_type r = BrowseAllow.ALLOW_NET ->
  forall a,
    BrowseAllow.rule_accepts r (BrowseAllow.AF_INET6 a) = true
    /\ BrowseAllow.allowed all (st.2 ++ [r]) (BrowseAllow.AF_INET6 a) = true.
Proof.
  intros Hread Hty a.
  assert (Hr : BrowseAllow.addr_ipv6 r = replicate 16 0
               /\ BrowseAllow.mask_ipv6 r = replicate 16 0).
  { revert Hread. unfold BrowseAllow.read_browseallow_value.
    repeat match goal with
           | |- context [match ?x with _ => _ end] => destruct x eqn:?
           end; try done; intros [= _ _ Hl];
      try (apply app_inv_head in Hl; injection Hl as <-; done).
    apply (f_equal length) in Hl. rewrite length_app in Hl. simpl in Hl. lia. }
  destruct Hr as [Ha Hm].
  assert (Hadm : BrowseAllow.rule_accepts r (BrowseAllow.AF_INET6 a) = true).
  { unfold BrowseAllow.rule_accepts. rewrite Hty, Ha, Hm.
    unfold BrowseAllow.s6_byte. simpl. by rewrite !Z.land_0_r. }
  split; [done|]. unfold BrowseAllow.allowed.
  destruct (all || _); [done|]. apply scan_accepts. exists r.
  split; [|done]. apply elem_of_app. right. by left.
Qed.

Lemma net_rule_accepts_every_ipv6_sender_witness :
  let inet_aton := fun s : string =>
    if String.eqb s "192.168.1.0" then Some 3232235776 else None in
  let strtoul := fun s : string =>
    if String.eqb s "24" then Some 24 else None in
  let r := BrowseAllow.rule BrowseAllow.ALLOW_NET 3232235776
             (BrowseAllow.netmask 24) in
  BrowseAllow.read_browseallow_value inet_aton strtoul
    (Some "192.168.1.0/24") (false, []) = Some (0, (false, [r]))
  /\ forall a,
       BrowseAllow.rule_accepts r (BrowseAllow.AF_INET6 a) = true
       /\ BrowseAllow.allowed false [r] (BrowseAllow.AF_INET6 a) = true.
Proof.
  split; [by vm_compute|].
  apply (net_rule_accepts_every_ipv6_sender
           (fun s : string =>
              if String.eqb s "192.168.1.0" then Some 3232235776 else None)
           (fun s : string => if String.eqb s "24" then Some 24 else None)
           (Some "192.168.1.0/24") (false, []) 0 false
           (BrowseAllow.rule BrowseAllow.ALLOW_NET 3232235776
              (BrowseAllow.netmask 24))).
  - by vm_compute.
  - reflexivity.
Defined.

(** ** The string helpers of the PPD generator *)

Section CupsStringProofs.
Import CupsString.

Lemma char_val_inj c d : char_val c = char_val d -> c = d.
Proof.
  intros H. apply uchar_val_inj. unfold char_val, uchar_val in *.
  assert (Hc : (N_of_ascii c < 256)%N) by apply N_ascii_bounded.
  assert (Hd : (N_of_ascii d < 256)%N) by apply N_ascii_bounded.
  destruct (_ <? 128) eqn:E1 in H; destruct (_ <? 128) eqn:E2 in H; lia.
Qed.

(** [_cups_tolower] on a [char] is [tolower] of the C library. *)
Lemma cups_tolower_char c : _cups_tolower (char_val c) = char_val (tolower c).
Proof.
  destruct c as [[] [] [] [] [] [] [] []]; vm_compute; reflexivity.
Qed.

Lemma cups_tolower_eq c d :
  _cups_tolower (char_val c) = _cups_tolower (char_val d)
  <-> tolower c = tolower d.
Proof.
  rewrite !cups_tolower_char. split; [apply char_val_inj|by intros ->].
Qed.

Lemma strcasecmp_loop_range s t :
  strcasecmp_loop s t = -1 \/ strcasecmp_loop s t = 0
  \/ strcasecmp_loop s t = 1.
Proof.
  revert t. induction s as [|c s IH]; intros [|d t]; simpl; auto.
  destruct (_ <? _); [auto|]. destruct (_ >? _); auto.
Qed.

Lemma strcasecmp_loop_zero s t :
  strcasecmp_loop s t = 0 <-> map tolower s = map tolower t.
Proof.
  revert t. induction s as [|c s IH]; intros [|d t]; simpl; try done.
  destruct (_ <? _) eqn:E1.
  { split; [done|]. intros [= H _]. apply cups_tolower_eq in H. lia. }
  destruct (_ >? _) eqn:E2.
  { split; [done|]. intros [= H _]. apply cups_tolower_eq in H. lia. }
  rewrite IH. split.
  - intros ->. f_equal. apply cups_tolower_eq. lia.
  - by intros [= _ ->].
Qed.

Lemma strcasecmp_loop_anti s t :
  strcasecmp_loop t s = - strcasecmp_loop s t.
Proof.
  revert t. induction s as [|c s IH]; intros [|d t]; simpl; try done.
  rewrite !Z.gtb_ltb.
  destruct (Z.ltb_spec (_cups_tolower (char_val d)) (_cups_tolower (char_val c)));
    destruct (Z.ltb_spec (_cups_tolower (char_val c))
                (_cups_tolower (char_val d)));
    try lia; apply IH.
Qed.

Lemma seven_bit_tolower c :
  seven_bit c = true -> uchar_val (tolower c) = _cups_tolower (char_val c).
Proof.
  destruct c as [[] [] [] [] [] [] [] []]; vm_compute; intros H;
    first [reflexivity | discriminate H].
Qed.

Lemma uchar_val_pos c : c <> NUL -> 0 < uchar_val (tolower c).
Proof.
  intros Hc.
  assert (0 <= uchar_val (tolower c)) by (unfold uchar_val; lia).
  assert (uchar_val (tolower c) <> 0); [|lia].
  intros H0. by apply uchar_val_nul, tolower_nul in H0.
Qed.

Lemma strcasecmp_loop_sgn s t :
  no_nul s -> no_nul t ->
  forallb seven_bit s = true -> forallb seven_bit t = true ->
  strcasecmp_loop s t = Z.sgn (casecmp s t).
Proof.
  intros Hns. revert t.
  induction Hns as [|c s Hc Hns IH]; intros t Hnt;
    destruct Hnt as [|d t Hd Hnt]; intros Hs Ht; simpl in *.
  - done.
  - pose proof (uchar_val_pos d Hd). lia.
  - pose proof (uchar_val_pos c Hc). lia.
  - apply andb_true_iff in Hs as [Hc7 Hs].
    apply andb_true_iff in Ht as [Hd7 Ht].
    rewrite <- (seven_bit_tolower c Hc7), <- (seven_bit_tolower d Hd7).
    rewrite Z.gtb_ltb.
    destruct (decide (tolower c = tolower d)) as [E|E].
    + rewrite E, Z.ltb_irrefl. by apply IH.
    + assert (uchar_val (tolower c) <> uchar_val (tolower d))
        by (intros H; by apply uchar_val_inj in H).
      destruct (Z.ltb_spec (uchar_val (tolower c)) (uchar_val (tolower d)));
        [lia|].
      destruct (Z.ltb_spec (uchar_val (tolower d)) (uchar_val (tolower c)));
        lia.
Qed.

Lemma strncasecmp_loop_take n :
  forall s t,
    strncasecmp_loop s t n = strcasecmp_loop (take n s) (take n t).
Proof.
  induction n as [|n IH]; intros [|c s] [|d t]; simpl; try done.
  destruct (_ <? _); [done|]. destruct (_ >? _); [done|]. apply IH.
Qed.

Lemma strlcpy_fits src size :
  Z.of_nat (c_strlen src) < size ->
  strlcpy src size
  = (string_of_list_ascii (chars src), Z.of_nat (c_strlen src)).
Proof.
  intros H. unfold strlcpy.
  assert ((size =? 0) = false) as -> by lia.
  assert ((Z.of_nat (c_strlen src) >? size - 1) = false) as -> by lia.
  rewrite Nat2Z.id. unfold c_strlen. by rewrite take_ge.
Qed.

End CupsStringProofs.

(** Property X20.  [_cups_strcasecmp] returns -1, 0 or 1; it returns 0 exactly for
    strings that are equal up to the case of the letters A to Z; swapping
    the arguments flips the sign; and on 7-bit strings its result is the
    sign of what [strcasecmp] of the C library returns. *)
Theorem cups_strcasecmp_compares s t :
  (CupsString._cups_strcasecmp s t = -1
   \/ CupsString._cups_strcasecmp s t = 0
   \/ CupsString._cups_strcasecmp s t = 1)
  /\ (CupsString._cups_strcasecmp s t = 0 <-> folded s = folded t)
  /\ CupsString._cups_strcasecmp t s = - CupsString._cups_strcasecmp s t
  /\ (forallb seven_bit (chars s) = true ->
      forallb seven_bit (chars t) = true ->
      CupsString._cups_strcasecmp s t = Z.sgn (strcasecmp s t)).
Proof.
  unfold CupsString._cups_strcasecmp, folded, strcasecmp.
  split; [apply strcasecmp_loop_range|].
  split; [apply strcasecmp_loop_zero|].
  split; [apply strcasecmp_loop_anti|].
  apply strcasecmp_loop_sgn; apply until_nul_no_nul.
Qed.

(** Property X21.  [_cups_strncasecmp] compares the prefixes of at most [n]
    characters as [_cups_strcasecmp] does: it returns 0 for [n = 0], and
    strings that compare equal also compare equal on every prefix. *)
Theorem cups_strncasecmp_compares_prefixes s t n :
  CupsString._cups_strncasecmp s t n
  = CupsString.strcasecmp_loop (take n (chars s)) (take n (chars t))
  /\ CupsString._cups_strncasecmp s t 0 = 0
  /\ (CupsString._cups_strcasecmp s t = 0 ->
      CupsString._cups_strncasecmp s t n = 0).
Proof.
  unfold CupsString._cups_strncasecmp, CupsString._cups_strcasecmp.
  split; [apply strncasecmp_loop_take|]. split; [done|].
  rewrite strncasecmp_loop_take, !strcasecmp_loop_zero.
  intros H. by rewrite <- !firstn_map, H.
Qed.

(** Property X22.  [strlcpy] never writes more than [size] bytes when [size] is at
    least 1: the copy is a prefix of the source of [min (strlen (src),
    size - 1)] characters, and the return value is the length of the copy
    (not that of the source, so a caller cannot see that the string was
    cut).  With [size = 0] the whole source is copied none the less. *)
Theorem strlcpy_copies_bounded_prefix src size :
  let '(dst, ret) := CupsString.strlcpy src size in
  (1 <= size ->
   chars dst = take (Z.to_nat (size - 1)) (chars src)
   /\ ret = Z.of_nat (c_strlen dst)
   /\ ret = Z.min (Z.of_nat (c_strlen src)) (size - 1)
   /\ ret < size)
  /\ (Z.of_nat (c_strlen src) < size -> chars dst = chars src)
  /\ (size = 0 -> chars dst = chars src /\ ret = Z.of_nat (c_strlen src)).
Proof.
  unfold CupsString.strlcpy, c_strlen.
  pose proof (until_nul_no_nul (list_ascii_of_string src)) as Hnn.
  fold (chars src) in Hnn.
  assert (Hchars : forall n, chars (string_of_list_ascii (take n (chars src)))
                             = take n (chars src)).
  { intros n. apply chars_of_list. unfold no_nul. by apply Forall_take. }
  rewrite Hchars. split; [|split].
  - intros Hs. assert ((size =? 0) = false) as -> by lia.
    destruct (Z.gtb_spec (Z.of_nat (length (chars src))) (size - 1)).
    + rewrite length_take. split; [done|].
      rewrite Nat.min_l by lia. rewrite Z.min_r by lia. lia.
    + rewrite Nat2Z.id.
      rewrite (take_ge (chars src) (length (chars src))) by lia.
      rewrite (take_ge (chars src) (Z.to_nat (size - 1))) by lia.
      rewrite Z.min_l by lia. repeat split; try done; lia.
  - intros Hs. assert ((size =? 0) = false) as -> by lia.
    assert ((Z.of_nat (length (chars src)) >? size - 1) = false) as -> by lia.
    rewrite Nat2Z.id. by rewrite take_ge.
  - intros ->. simpl. rewrite Nat2Z.id. by rewrite take_ge.
Qed.

(** ** PWG keywords *)

Section PwgProofs.
Import CupsString Pwg.

Lemma cups_strcasecmp_zero s t :
  (_cups_strcasecmp s t =? 0) = true <-> folded s = folded t.
Proof. rewrite Z.eqb_eq. apply strcasecmp_loop_zero. Qed.

Lemma toupper_not_nul c : c <> NUL -> toupper c <> NUL.
Proof.
  destruct c as [[] [] [] [] [] [] [] []]; vm_compute; congruence.
Qed.

Lemma ppdize_loop_length room :
  forall ipp,
    (length (ppdize_loop room ipp) <= room)%nat
    /\ (length (ppdize_loop room ipp) <= length ipp)%nat.
Proof.
  induction room as [|room IH]; intros ipp; simpl; [lia|].
  destruct ipp as [|c [|d rest]]; simpl; [lia| lia |].
  destruct (bool_decide (c = dash) && _); simpl.
  - destruct (IH rest). lia.
  - destruct (IH (d :: rest)). simpl in *. lia.
Qed.

Lemma ppdize_loop_no_nul room :
  forall ipp, no_nul ipp -> no_nul (ppdize_loop room ipp).
Proof.
  induction room as [|room IH]; intros ipp Hnn; simpl; [constructor|].
  destruct ipp as [|c [|d rest]]; [constructor|done|].
  inversion Hnn as [|? ? Hc Hnn']; subst.
  inversion Hnn' as [|? ? Hd Hnn'']; subst.
  destruct (bool_decide (c = dash) && _).
  - constructor; [by apply toupper_not_nul|by apply IH].
  - constructor; [done|by apply IH].
Qed.

Lemma ppdize_loop_plain room :
  forall ipp,
    Forall (fun c => c <> dash) ipp -> ppdize_loop room ipp = take room ipp.
Proof.
  induction room as [|room IH]; intros ipp Hall; [done|].
  destruct Hall as [|c ipp Hc Hall]; [done|]. simpl.
  destruct ipp as [|d rest]; [by destruct room|].
  rewrite bool_decide_eq_false_2 by done. simpl. f_equal. by apply IH.
Qed.

End PwgProofs.

(** Property X23.  The tests of [_pwgInputSlotForSource] are the wrong way round:
    [_cups_strcasecmp] returns non-zero for strings that differ, so the
    first branch is taken for every media source other than "main", and the
    second one for "main".  With a buffer of at least [PPD_MAX_NAME] bytes
    the result is "Cassette" for every source but "main" (in any letter
    case), for which it is "Multipurpose"; no other name is ever returned
    and [pwg_ppdize_name] is never reached.  Without a source or a buffer,
    or with a smaller buffer, the result is [NULL]. *)
Theorem input_slot_tests_are_inverted media_source name namesize :
  (Pwg.PPD_MAX_NAME <= namesize ->
   Pwg._pwgInputSlotForSource (Some media_source) true namesize
   = Some (Some (if CupsString._cups_strcasecmp media_source "main" =? 0
                 then "Multipurpose" else "Cassette")))
  /\ (namesize < Pwg.PPD_MAX_NAME \/ name = false ->
      Pwg._pwgInputSlotForSource (Some media_source) name namesize
      = Some None)
  /\ Pwg._pwgInputSlotForSource None name namesize = Some None.
Proof.
  unfold Pwg.PPD_MAX_NAME. split; [|split; [|done]].
  - intros Hsize. unfold Pwg._pwgInputSlotForSource, Pwg.PPD_MAX_NAME.
    assert ((namesize <? 41) = false) as -> by lia. simpl orb. cbv iota.
    destruct (CupsString._cups_strcasecmp media_source "main" =? 0) eqn:Hmain.
    + simpl negb. cbv iota.
      apply cups_strcasecmp_zero in Hmain.
      destruct (CupsString._cups_strcasecmp media_source "alternate" =? 0)
        eqn:Halt.
      { apply cups_strcasecmp_zero in Halt. rewrite Hmain in Halt.
        vm_compute in Halt. discriminate. }
      simpl negb. cbv iota. rewrite strlcpy_fits; [done|].
      vm_compute c_strlen. lia.
    + simpl negb. cbv iota. rewrite strlcpy_fits; [done|].
      vm_compute c_strlen. lia.
  - unfold Pwg._pwgInputSlotForSource, Pwg.PPD_MAX_NAME.
    intros [H| ->]; [|done].
    assert ((namesize <? 41) = true) as -> by lia. by rewrite orb_true_r.
Qed.

Lemma input_slot_tests_are_inverted_witness :
  Pwg._pwgInputSlotForSource (Some "alternate") true 41 = Some (Some "Cassette")
  /\ Pwg._pwgInputSlotForSource (Some "Main") true 41
     = Some (Some "Multipurpose").
Proof.
  split.
  - apply (proj1 (input_slot_tests_are_inverted "alternate" true 41)).
    unfold Pwg.PPD_MAX_NAME. lia.
  - apply (proj1 (input_slot_tests_are_inverted "Main" true 41)).
    unfold Pwg.PPD_MAX_NAME. lia.
Defined.

(** Property X24.  [_pwgMediaTypeForType] has the same inverted tests: with a
    buffer of at least [PPD_MAX_NAME] bytes it returns "Auto" for every
    media type other than "auto" (in any letter case), and "Cardstock" for
    "auto"; [NULL] without a type or a buffer, or with a smaller buffer. *)
Theorem media_type_tests_are_inverted media_type name namesize :
  (Pwg.PPD_MAX_NAME <= namesize ->
   Pwg._pwgMediaTypeForType (Some media_type) true namesize
   = Some (Some (if CupsString._cups_strcasecmp media_type "auto" =? 0
                 then "Cardstock" else "Auto")))
  /\ (namesize < Pwg.PPD_MAX_NAME \/ name = false ->
      Pwg._pwgMediaTypeForType (Some media_type) name namesize = Some None)
  /\ Pwg._pwgMediaTypeForType None name namesize = Some None.
Proof.
  unfold Pwg.PPD_MAX_NAME. split; [|split; [|done]].
  - intros Hsize. unfold Pwg._pwgMediaTypeForType, Pwg.PPD_MAX_NAME.
    assert ((namesize <? 41) = false) as -> by lia. simpl orb. cbv iota.
    destruct (CupsString._cups_strcasecmp media_type "auto" =? 0) eqn:Hauto.
    + simpl negb. cbv iota.
      apply cups_strcasecmp_zero in Hauto.
      destruct (CupsString._cups_strcasecmp media_type "cardstock" =? 0)
        eqn:Hcard.
      { apply cups_strcasecmp_zero in Hcard. rewrite Hauto in Hcard.
        vm_compute in Hcard. discriminate. }
      simpl negb. cbv iota. rewrite strlcpy_fits; [done|].
      vm_compute c_strlen. lia.
    + simpl negb. cbv iota. rewrite strlcpy_fits; [done|].
      vm_compute c_strlen. lia.
  - unfold Pwg._pwgMediaTypeForType, Pwg.PPD_MAX_NAME.
    intros [H| ->]; [|done].
    assert ((namesize <? 41) = true) as -> by lia. by rewrite orb_true_r.
Qed.

Lemma media_type_tests_are_inverted_witness :
  Pwg._pwgMediaTypeForType (Some "stationery") true 64 = Some (Some "Auto")
  /\ Pwg._pwgMediaTypeForType (Some "auto") true 64 = Some (Some "Cardstock").
Proof.
  split.
  - apply (proj1 (media_type_tests_are_inverted "stationery" true 64)).
    unfold Pwg.PPD_MAX_NAME. lia.
  - apply (proj1 (media_type_tests_are_inverted "auto" true 64)).
    unfold Pwg.PPD_MAX_NAME. lia.
Defined.

(** Property X25.  [pwg_ppdize_name] and its buffer.  For a non-empty keyword and a
    buffer of at least two bytes the name written, terminator included,
    fits the buffer and is not longer than the keyword; a keyword without
    dashes is copied with its first letter in upper case, cut to the
    buffer.  For the empty keyword the function reads behind the
    keyword. *)
Theorem ppdize_name_fits_buffer ipp namesize :
  (chars ipp = [] -> Pwg.pwg_ppdize_name ipp namesize = None)
  /\ (forall c rest,
        chars ipp = c :: rest -> 2 <= namesize ->
        exists r,
          Pwg.pwg_ppdize_name ipp namesize = Some r
          /\ Z.of_nat (c_strlen r) < namesize
          /\ (c_strlen r <= c_strlen ipp)%nat
          /\ (Forall (fun x => x <> dash) rest ->
              chars r
              = Pwg.toupper c :: take (Z.to_nat (namesize - 2)) rest)).
Proof.
  unfold Pwg.pwg_ppdize_name. split; [by intros ->|].
  intros c rest E Hsize. rewrite E. eexists. split; [reflexivity|].
  pose proof (until_nul_no_nul (list_ascii_of_string ipp)) as Hnn.
  fold (chars ipp) in Hnn. rewrite E in Hnn.
  inversion Hnn as [|? ? Hc Hrest]; subst.
  assert (Hout : no_nul (Pwg.toupper c
                         :: Pwg.ppdize_loop (Z.to_nat (namesize - 2)) rest)).
  { constructor; [by apply toupper_not_nul|by apply ppdize_loop_no_nul]. }
  unfold c_strlen. rewrite (chars_of_list _ Hout), E. simpl length.
  destruct (ppdize_loop_length (Z.to_nat (namesize - 2)) rest) as [H1 H2].
  split; [lia|]. split; [lia|].
  intros Hplain. by rewrite ppdize_loop_plain.
Qed.

Lemma ppdize_name_fits_buffer_witness :
  exists r,
    Pwg.pwg_ppdize_name "two-sided-long-edge" 41 = Some r
    /\ Z.of_nat (c_strlen r) < 41
    /\ (c_strlen r <= c_strlen "two-sided-long-edge")%nat
    /\ (Forall (fun x => x <> dash)
          (list_ascii_of_string "wo-sided-long-edge") ->
        chars r
        = Pwg.toupper "t"
          :: take (Z.to_nat (41 - 2))
               (list_ascii_of_string "wo-sided-long-edge")).
Proof.
  apply (proj2 (ppdize_name_fits_buffer "two-sided-long-edge" 41)
           "t"%char (list_ascii_of_string "wo-sided-long-edge")).
  - reflexivity.
  - lia.
Defined.

(** ** From discovery to the spooler and back *)

Section EndToEnd.

Lemma timers_tracked_with_printers a d :
  timers_tracked d -> timers_tracked (with_printers a d).
Proof. done. Qed.

Lemma least_delay_zero now a m x :
  least_delay now a m -> x ∈ a -> timeout x <> NEVER -> timeout x <= now ->
  m = 0.
Proof.
  intros [(p & _ & ->) Hle] Hx Hn Ht.
  assert (Hp : x ∈ pending a).
  { unfold pending. apply list_elem_of_filter. done. }
  apply Hle in Hp. pose proof (delay_nonneg now p).
  unfold delay in *. lia.
Qed.

Lemma armed_zero now a d x :
  timer_armed_for now a d -> x ∈ a -> timeout x <> NEVER -> timeout x <= now ->
  exists id, queue_timers d = [Source id 0 cb_handle_cups_queues]
             /\ queues_timer_id d = Some id.
Proof.
  unfold timer_armed_for. intros H Hx Hn Ht.
  assert (Hp : x ∈ pending a).
  { unfold pending. apply list_elem_of_filter. done. }
  destruct (pending a) as [|p0 l] eqn:E; [by apply elem_of_nil in Hp|].
  destruct H as (id & m & Hq & Hid & Hl).
  rewrite (least_delay_zero now a m x Hl Hx Hn Ht) in Hq. by exists id.
Qed.

End EndToEnd.

(** Property X26.  A withdrawal is acted on without delay.  When the service of an
    entry is withdrawn (by another machine, the main loop running, the
    clock past the epoch and not running backwards), the timer of the pass
    is set anew with delay 0: exactly one timer of the pass is pending and
    it fires at once. *)
Theorem withdrawal_triggers_pass_at_once now later n ty dm d :
  0 < now -> now <= later -> gmainloop d = true -> timers_tracked d ->
  Exists (fun p => same_service n ty dm p = true) (remote_printers d) ->
  let d' := browse_callback_remove now later false n ty dm d in
  exists id,
    queue_timers d' = [Source id 0 cb_handle_cups_queues]
    /\ queues_timer_id d' = Some id.
Proof.
  intros Hnow Hlater Hloop Htr Hex. unfold browse_callback_remove. simpl.
  destruct (first_index _ _) as [i|] eqn:Hf.
  2: { apply Exists_exists in Hex as (x & Hx & Hs).
       eapply first_index_None in Hf; [|exact Hx]. congruence. }
  apply first_index_Some in Hf as (p & Hp & _). rewrite Hp.
  set (a' := match _ with Some (j, q) => _ | None => _ end).
  assert (Hx : exists x, x ∈ a' /\ timeout x = now + -1).
  { subst a'. destruct (duplicate p); simpl.
    - eexists. split; [eapply list_elem_of_lookup_2, list_lookup_insert_eq;
                       by eapply lookup_lt_Some|done].
    - destruct (first_index (backup_of p) _) as [j|] eqn:Hb; simpl.
      + apply first_index_Some in Hb as (q & Hq & _). rewrite Hq. simpl.
        eexists. split; [eapply list_elem_of_lookup_2, list_lookup_insert_eq|
                         done].
        rewrite length_insert. by eapply lookup_lt_Some.
      + eexists. split; [eapply list_elem_of_lookup_2, list_lookup_insert_eq;
                         by eapply lookup_lt_Some|done]. }
  destruct Hx as (x & Hx & Ht).
  pose proof (recheck_timer_armed later (with_printers a' d) Hloop
                (timers_tracked_with_printers a' d Htr)) as Harm.
  simpl in Harm. eapply armed_zero; [exact Harm|exact Hx| |].
  - unfold NEVER. lia.
  - lia.
Qed.

Lemma withdrawal_triggers_pass_at_once_witness :
  let d := office_confirmed (idle_spooler []) in
  let d' := browse_callback_remove 200 201 false "Office @ srv" "_ipp._tcp"
              "local" d in
  exists id,
    queue_timers d' = [Source id 0 cb_handle_cups_queues]
    /\ queues_timer_id d' = Some id.
Proof.
  apply (withdrawal_triggers_pass_at_once 200 201 "Office @ srv" "_ipp._tcp"
           "local" (office_confirmed (idle_spooler []))).
  - lia.
  - lia.
  - by vm_compute.
  - intros s Hs. vm_compute in Hs. by apply elem_of_nil in Hs.
  - apply Exists_cons_hd. by vm_compute.
Defined.

Section FreshRegistry.

Lemma add_entry_fresh p d :
  remote_printers (add_entry p [] d).1 = [p]
  /\ cups (add_entry p [] d).1 = cups d
  /\ BrowseTimeout (add_entry p [] d).1 = BrowseTimeout d
  /\ (add_entry p [] d).2 = Some 0%nat.
Proof.
  unfold add_entry. simpl.
  destruct (autoshutdown_exec_id d); simpl; [|done].
  by destruct (autoshutdown d).
Qed.

Lemma pass_single now later p d :
  remote_printers d = [p] ->
  let r := handle_entry (BrowseTimeout d) now p (cups d) in
  remote_printers (handle_cups_queues now later d)
  = match r.1 with Some p' => [p'] | None => [] end
  /\ cups (handle_cups_queues now later d) = r.2.
Proof.
  intros H. unfold handle_cups_queues.
  rewrite recheck_timer_printers, recheck_timer_cups, H. simpl.
  destruct (handle_entry _ _ _ _) as [[p'|] s]; simpl; [done|].
  by rewrite schedule_shutdown_cups.
Qed.

End FreshRegistry.

(** Property X27.  A queue left over from an earlier session is cleaned up.  Found
    at start-up with an empty registry, a queue of ours is entered as
    Unconfirmed with the deadline [now + TIMEOUT_CONFIRM], or
    [now + BrowseTimeout] when CUPS browsing is on.  A pass before the
    deadline leaves the entry and the spooler alone; a pass at or after it,
    the spooler being ready to give the queue up, deletes the queue and
    drops the entry. *)
Theorem stale_queue_is_cleaned_up now now' later (browse_cups : bool) key
    printer d :
  remote_printers d = [] ->
  cups_browsed_controlled printer = true ->
  let deadline :=
    now + (if browse_cups then BrowseTimeout d else TIMEOUT_CONFIRM) in
  let p := RemotePrinter key (device_uri printer) None None None
             STATUS_UNCONFIRMED deadline false "" "" "" "" in
  let d1 := find_previous_queue now browse_cups key printer d in
  let d2 := handle_cups_queues now' later d1 in
  remote_printers d1 = [p]
  /\ (now' < deadline -> remote_printers d2 = [p] /\ cups d2 = cups d)
  /\ (deadline <= now' -> removable (cups d) p ->
      remote_printers d2 = []
      /\ sp_queues (cups d2) = drop_queue key (sp_queues (cups d))
      /\ sp_calls (cups d2)
         = sp_calls (cups d)
           ++ [Connect; GetJobs key; GetDefault;
               DeletePrinter (force_disappeared now' p)]).
Proof.
  intros Hempty Hc deadline p d1 d2.
  assert (H1 : remote_printers d1 = [p] /\ cups d1 = cups d).
  { subst d1 p deadline. unfold find_previous_queue, create_local_queue.
    rewrite Hc, Hempty. simpl first_index. cbv iota.
    set (p0 := RemotePrinter _ _ _ _ _ _ _ _ _ _ _ _).
    destruct (add_entry_fresh p0 d) as (Hp & Hcups & Hbt & Hi).
    destruct (add_entry p0 [] d) as [d0 r]. simpl in *. subst r.
    rewrite Hp. simpl. rewrite Hbt. by destruct browse_cups. }
  destruct H1 as [Hp Hcups]. split; [done|].
  pose proof (pass_single now' later p d1 Hp) as [Hr Hs].
  rewrite Hcups in Hr, Hs. fold d2 in Hr, Hs.
  split.
  - intros Hlt. rewrite Hr, Hs.
    rewrite handle_entry_idle; [done|]. right. split; [exact Hlt|]. by right; left.
  - intros Hle Hrem. rewrite Hr, Hs.
    rewrite unconfirmed_due by done. simpl.
    split; [done|]. split; [done|]. by rewrite <- !app_assoc.
Qed.

(** Property X27 at work: the queue [Office], found at 100 with the deadline
    110.  The pass at 105 leaves it alone, the pass at 110 deletes it. *)
Lemma stale_queue_is_cleaned_up_witness :
  let d := started 0 (idle_spooler ["Office"]) in
  let printer := LocalPrinter office_uri true in
  let p := RemotePrinter "Office" office_uri None None None
             STATUS_UNCONFIRMED 110 false "" "" "" "" in
  let d1 := find_previous_queue 100 false "Office" printer d in
  remote_printers d1 = [p]
  /\ (remote_printers (handle_cups_queues 105 106 d1) = [p]
      /\ cups (handle_cups_queues 105 106 d1) = cups d)
  /\ (remote_printers (handle_cups_queues 110 111 d1) = []
      /\ sp_queues (cups (handle_cups_queues 110 111 d1)) = []
      /\ sp_calls (cups (handle_cups_queues 110 111 d1))
         = [Connect; GetJobs "Office"; GetDefault;
            DeletePrinter (force_disappeared 110 p)]).
Proof.
  intros d printer p d1.
  destruct (stale_queue_is_cleaned_up 100 105 106 false "Office" printer d
              eq_refl eq_refl) as (H1 & H2 & _).
  destruct (stale_queue_is_cleaned_up 100 110 111 false "Office" printer d
              eq_refl eq_refl) as (_ & _ & H3).
  split; [exact H1|]. split.
  - apply H2. reflexivity.
  - apply H3.
    + discriminate.
    + repeat split; reflexivity.
Defined.

(** Property X28.  From the announcement to the queue.  When a CUPS queue is
    announced to a daemon that maintains no printer yet, no local queue has
    its URI and its name is free, the resolver enters it under the
    sanitized name of the remote queue, to be created at once; the next
    pass, the spooler being reachable and accepting the request, sends one
    request for a raw queue on the assembled URI, after which the queue
    exists and the entry is Confirmed with no deadline. *)
Theorem announced_cups_queue_is_set_up
    (assemble : string -> string -> Z -> string -> string)
    now later t probe h port res n ty dm txt d c :
  remote_printers d = [] ->
  classify res dm txt = Some c -> is_cups_queue c = true ->
  local_printer_has_uri (device_uri_for assemble h port res ty) t = false ->
  taken t (remote_queue c) = false ->
  sp_reachable (cups d) = true -> sp_add_ok (cups d) (remote_queue c) = true ->
  let p := RemotePrinter (remote_queue c)
             (device_uri_for assemble h port res ty) None None None
             STATUS_TO_BE_CREATED (now + TIMEOUT_IMMEDIATELY) false
             (remote_host_of h) n ty dm in
  exists d1,
    generate_local_queue assemble now t probe h port res n ty dm txt d
    = Some (d1, Some 0%nat)
    /\ remote_printers d1 = [p]
    /\ remote_printers (handle_cups_queues now later d1)
       = [RemotePrinter (remote_queue c)
            (device_uri_for assemble h port res ty) None None None
            STATUS_CONFIRMED NEVER false (remote_host_of h) n ty dm]
    /\ sp_queues (cups (handle_cups_queues now later d1))
       = remote_queue c :: drop_queue (remote_queue c) (sp_queues (cups d))
    /\ sp_calls (cups (handle_cups_queues now later d1))
       = sp_calls (cups d) ++ [Connect; AddModifyPrinter p None].
Proof.
  intros Hempty Hcl Hq Huri Htaken Hreach Hok p.
  unfold generate_local_queue. rewrite Hcl, Huri. simpl negb.
  unfold local_queue_name_for. rewrite Htaken. simpl andb. cbv iota.
  rewrite Hempty. simpl first_index. cbv iota. rewrite Hq.
  unfold create_local_queue. rewrite Hempty. simpl first_index. cbv iota.
  fold p.
  destruct (add_entry_fresh p d) as (Hp & Hcups & Hbt & Hi).
  destruct (add_entry p [] d) as [d1 r]. simpl in Hp, Hcups, Hbt, Hi. subst r.
  exists d1. split; [done|]. split; [done|].
  pose proof (pass_single now later p d1 Hp) as [Hr Hs].
  rewrite Hcups in Hr, Hs.
  assert (He : handle_entry (BrowseTimeout d1) now p (cups d)
               = (Some (set_timeout NEVER (set_status STATUS_CONFIRMED p)),
                  with_queues
                    (remote_queue c
                     :: drop_queue (remote_queue c) (sp_queues (cups d)))
                    (call (AddModifyPrinter p None) (call Connect (cups d))))).
  { unfold handle_entry, case_to_be_created. simpl.
    assert ((now + TIMEOUT_IMMEDIATELY >? now) = false) as ->
      by (unfold TIMEOUT_IMMEDIATELY; lia).
    rewrite Hreach. simpl. rewrite Hok. simpl. done. }
  rewrite He in Hr, Hs. rewrite Hr, Hs. simpl.
  split; [done|]. split; [done|]. by rewrite <- app_assoc.
Qed.

Lemma announced_cups_queue_is_set_up_witness :
  let d := started 0 (idle_spooler []) in
  let p := RemotePrinter "Office" office_uri None None None
             STATUS_TO_BE_CREATED (100 + TIMEOUT_IMMEDIATELY) false
             "srv" "Office @ srv" "_ipp._tcp" "local" in
  exists d1,
    announce_office "srv.local" "Office @ srv" ∅ d = Some (d1, Some 0%nat)
    /\ remote_printers d1 = [p]
    /\ remote_printers (handle_cups_queues 100 102 d1)
       = [RemotePrinter "Office" office_uri None None None STATUS_CONFIRMED
            (-1) false "srv" "Office @ srv" "_ipp._tcp" "local"]
    /\ sp_queues (cups (handle_cups_queues 100 102 d1))
       = "Office" :: drop_queue "Office" (sp_queues (cups d))
    /\ sp_calls (cups (handle_cups_queues 100 102 d1))
       = sp_calls (cups d) ++ [Connect; AddModifyPrinter p None].
Proof.
  apply (announced_cups_queue_is_set_up plain_uri 100 102 ∅ no_probe
           "srv.local"
           631 "printers/Office" "Office @ srv" "_ipp._tcp" "local"
           (Some office_txt) (started 0 (idle_spooler []))
           (Candidate true "Office" None)).
  - reflexivity.
  - by vm_compute.
  - reflexivity.
  - by vm_compute.
  - by vm_compute.
  - reflexivity.
  - reflexivity.
Defined.

(** ** Names of queues that are not ours *)

Section ForeignNames.

Lemma cupsArrayAdd_elem p a x : x ∈ cupsArrayAdd p a -> x = p \/ x ∈ a.
Proof.
  induction a as [|q a IH]; simpl.
  - intros H. apply list_elem_of_singleton in H. by left.
  - destruct (_ <? _).
    + intros H. apply elem_of_cons in H as [->|H]; [by left|by right].
    + intros H. apply elem_of_cons in H as [->|H]; [right; left|].
      destruct (IH H) as [->|Hx]; [by left|right; by right].
Qed.

Lemma map_name_elem (a : list remote_printer_t) x :
  x ∈ map name a <-> exists p, p ∈ a /\ name p = x.
Proof.
  rewrite list_elem_of_In, in_map_iff. split.
  - intros (p & Hn & Hp). exists p. by rewrite list_elem_of_In.
  - intros (p & Hp & Hn). exists p. by rewrite <- list_elem_of_In.
Qed.

Lemma add_entry_new_names p a' d x :
  map name a' = map name (remote_printers d) ->
  x ∈ map name (remote_printers (add_entry p a' d).1) ->
  x ∈ map name (remote_printers d) \/ x = name p.
Proof.
  intros Ha. rewrite add_entry_printers. rewrite map_name_elem.
  intros (q & Hq & <-). apply cupsArrayAdd_elem in Hq as [->|Hq]; [by right|].
  left. rewrite <- Ha. apply map_name_elem. by exists q.
Qed.

Lemma create_new_names now probe n u h info t dm pdl_ mm cq d x :
  x ∈ map name (remote_printers
                  (create_local_queue now probe n u h info t dm pdl_ mm cq d).1) ->
  x ∈ map name (remote_printers d) \/ x = n.
Proof.
  unfold create_local_queue.
  repeat match goal with
         | |- context [match ?x with _ => _ end] => destruct x eqn:?
         end;
    first [ by left
          | intros H; apply add_entry_new_names in H;
            [exact H | first [done | apply mark_duplicate_names]] ].
Qed.

End ForeignNames.

(** Property X29.  The daemon never takes a name that is, byte for byte, the
    name of a local queue made by somebody else.  Whatever is announced,
    every name in the registry afterwards was there before or is not the
    key of such a queue in the table of local queues: the resolver
    falls back to [queue@host], and ignores the printer when that name is
    taken as well.  The table is looked up with the exact name, though,
    while queue names are told apart without regard to letter case: with a
    queue [office] of somebody else the announced [Office] is entered
    under that name, and the next pass sends the request that replaces the
    queue. *)
Theorem foreign_queue_names_never_claimed
    (assemble : string -> string -> Z -> string -> string)
    now t probe h port res n ty dm txt d d' r :
  generate_local_queue assemble now t probe h port res n ty dm txt d
  = Some (d', r) ->
  (forall x,
     x ∈ map name (remote_printers d') ->
     x ∈ map name (remote_printers d) \/ taken t x = false)
  /\ (let foreign : local_table :=
        {[ "office" := LocalPrinter "usb://HP/LaserJet" false ]} in
      let d0 := started 0 (idle_spooler ["office"]) in
      let p := RemotePrinter "Office" office_uri None None None
                 STATUS_TO_BE_CREATED 99 false "srv" "Office @ srv"
                 "_ipp._tcp" "local" in
      strcaseeq "Office" "office" = true
      /\ taken foreign "Office" = false
      /\ exists d1,
           announce_office "srv.local" "Office @ srv" foreign d0
           = Some (d1, Some 0%nat)
           /\ remote_printers d1 = [p]
           /\ sp_calls (cups (handle_cups_queues 100 100 d1))
              = [Connect; AddModifyPrinter p None]
           /\ sp_queues (cups (handle_cups_queues 100 100 d1)) = ["Office"]).
Proof.
  intros Hgen. split.
  2: { split; [vm_compute; reflexivity|]. split; [vm_compute; reflexivity|].
       eexists. split; [vm_compute; reflexivity|].
       repeat split; vm_compute; reflexivity. }
  revert Hgen. unfold generate_local_queue.
  destruct (classify res dm txt) as [c|]; [|intros [= <- <-]; by left].
  destruct (local_queue_name_for _ _ _ _) as [lq|] eqn:Hlq;
    [|intros [= <- <-]; by left].
  destruct (local_printer_has_uri _ t) eqn:Hu; simpl negb; cbv iota.
  { intros [= <- <-]. by left. }
  assert (Hfree : taken t lq = false).
  { revert Hlq. unfold local_queue_name_for. rewrite ?Hu. simpl negb.
    simpl andb.
    destruct (taken t (remote_queue c)) eqn:T1; [|by intros [= <-]].
    destruct (taken t (remote_queue c +:+ "@" +:+ remote_host_of h)%string)
      eqn:T2; [done|].
    by intros [= <-]. }
  destruct (first_index _ _) as [i|] eqn:Hf.
  - apply first_index_Some in Hf as (q & Hq & _). rewrite Hq.
    destruct (update_entry _ _ _ _ _ _ _) as [p'|] eqn:Hup; simpl; [|done].
    apply update_entry_keeps in Hup as [Hn _].
    intros [= <- <-] x. simpl. rewrite (map_name_insert q) by done. by left.
  - destruct (create_local_queue _ _ _ _ _ _ _ _ _ _ _ _) as [d1 r1] eqn:E.
    intros [= <- <-] x Hx.
    change d1 with (d1, r1).1 in Hx. rewrite <- E in Hx.
    apply create_new_names in Hx as [Hx| ->]; [by left|by right].
Qed.

(** Property X29 at work: [Office] is the name of a queue of somebody
    else, the announced printer is entered as [Office@srv]. *)
Lemma foreign_queue_names_never_claimed_witness :
  let t : local_table :=
    {[ "Office" := LocalPrinter "usb://HP/LaserJet" false ]} in
  exists d' r,
    announce_office "srv.local" "Office @ srv" t (started 0 (idle_spooler []))
    = Some (d', r)
    /\ map name (remote_printers d') = ["Office@srv"]
    /\ forall x,
         x ∈ map name (remote_printers d') ->
         x ∈ map name (remote_printers (started 0 (idle_spooler [])))
         \/ taken t x = false.
Proof.
  pose proof
    (fun d' r H =>
       proj1 (foreign_queue_names_never_claimed plain_uri 100
                {[ "Office" := LocalPrinter "usb://HP/LaserJet" false ]}
                no_probe "srv.local" 631 "printers/Office" "Office @ srv"
                "_ipp._tcp" "local" (Some office_txt)
                (started 0 (idle_spooler [])) d' r H)) as Hnames.
  eexists _, _. split; [vm_compute; reflexivity|]. split; [reflexivity|].
  eapply Hnames. vm_compute. reflexivity.
Defined.
